(** * roosterjs editor core: node insertion, logging, current editor holder, undo transactions

    A shallow embedding of
      - packages/roosterjs-editor-core/lib/coreAPI/insertNode.ts
      - packages/roosterjs-editor-core/lib/coreAPI/logEvent.ts
      - the current-editor holder (getCurrentEditor / setCurrentEditor)
      - IEditor.addUndoSnapshot (declared in IEditor, modelled from the spec)
    over an explicit model of the host DOM: a store of nodes addressed by
    reference, live ranges kept up to date by every mutation, and DOM
    exceptions as an error result. *)

From Stdlib Require Import String Ascii List Arith Lia Bool.
From stdpp Require Import base option list strings.

Open Scope string_scope.
Open Scope nat_scope.
Open Scope list_scope.
Open Scope stdpp_scope.

(** ** Results of host operations that may throw *)

Inductive DOMException :=
| HierarchyRequestError
| NotFoundError
| IndexSizeError
| InvalidNodeTypeError
| TypeError.

Inductive result (A : Type) :=
| Ok (a : A)
| Throw (e : DOMException).

Arguments Ok {A} a.
Arguments Throw {A} e.

#[global] Instance result_ret : MRet result := fun A a => Ok a.
#[global] Instance result_bind : MBind result := fun A B f m =>
  match m with
  | Ok a => f a
  | Throw e => Throw e
  end.

#[global] Instance result_fmap : FMap result := fun A B f m =>
  match m with
  | Ok a => Ok (f a)
  | Throw e => Throw e
  end.

(** ** The host DOM *)

Module Dom.

(** NodeType of roosterjs-editor-types, restricted to the kinds insertNode
    distinguishes (Element = 1, Text = 3, DocumentFragment = 11). *)
Inductive NodeType := Element | Text | DocumentFragment.

#[global] Instance NodeType_eq_dec : EqDecision NodeType.
Proof. solve_decision. Defined.

(** A node reference (object identity) and a live range reference. *)
Abbreviation Node := nat (only parsing).
Abbreviation RangeRef := nat (only parsing).

Record NodeData := mkNodeData {
  nodeType : NodeType;
  tagName : string;                       (* upper case, as HTML reports it *)
  nodeValue : string;                     (* character data of a Text node *)
  attributes : list (string * string);
  parentNode : option Node;
  childNodes : list Node
}.

(** A boundary point: (container, offset). *)
Definition Boundary := (Node * nat)%type.

Record Range := mkRange {
  startContainer : Node;
  startOffset : nat;
  endContainer : Node;
  endOffset : nat
}.

(** The document: the node store, every live range the host keeps up to
    date, and the window selection (a reference to one of the live ranges). *)
Record Document := mkDocument {
  nodes : list NodeData;
  ranges : list Range;
  selection : option RangeRef
}.

Definition withParent (p : option Node) (nd : NodeData) : NodeData :=
  mkNodeData (nodeType nd) (tagName nd) (nodeValue nd) (attributes nd) p (childNodes nd).

Definition withChildren (f : list Node -> list Node) (nd : NodeData) : NodeData :=
  mkNodeData (nodeType nd) (tagName nd) (nodeValue nd) (attributes nd) (parentNode nd)
             (f (childNodes nd)).

Definition withValue (v : string) (nd : NodeData) : NodeData :=
  mkNodeData (nodeType nd) (tagName nd) v (attributes nd) (parentNode nd) (childNodes nd).

Definition withNodes (f : list NodeData -> list NodeData) (d : Document) : Document :=
  mkDocument (f (nodes d)) (ranges d) (selection d).

Definition withRanges (f : list Range -> list Range) (d : Document) : Document :=
  mkDocument (nodes d) (f (ranges d)) (selection d).

(** *** Reading the tree *)

Definition parentOf (d : Document) (n : Node) : option Node :=
  match nodes d !! n with
  | Some nd => parentNode nd
  | None => None
  end.

Definition childrenOf (d : Document) (n : Node) : list Node :=
  match nodes d !! n with
  | Some nd => childNodes nd
  | None => []
  end.

Definition typeOf (d : Document) (n : Node) : option NodeType :=
  nodeType <$> nodes d !! n.

Definition isText (d : Document) (n : Node) : bool :=
  bool_decide (typeOf d n = Some Text).

Definition isFragment (d : Document) (n : Node) : bool :=
  bool_decide (typeOf d n = Some DocumentFragment).

Definition valueOf (d : Document) (n : Node) : string :=
  match nodes d !! n with
  | Some nd => nodeValue nd
  | None => EmptyString
  end.

Definition firstChild (d : Document) (n : Node) : option Node := head (childrenOf d n).
Definition lastChild (d : Document) (n : Node) : option Node := last (childrenOf d n).

(** Position of [n] in [l]; [length l] when absent. *)
Fixpoint indexIn (l : list Node) (n : Node) : nat :=
  match l with
  | [] => 0
  | x :: r => if decide (x = n) then 0 else S (indexIn r n)
  end.

(** The index of a node among its parent's children. *)
Definition indexOf (d : Document) (n : Node) : nat :=
  match parentOf d n with
  | Some p => indexIn (childrenOf d p) n
  | None => 0
  end.

Definition nextSibling (d : Document) (n : Node) : option Node :=
  match parentOf d n with
  | Some p => childrenOf d p !! S (indexIn (childrenOf d p) n)
  | None => None
  end.

Definition previousSibling (d : Document) (n : Node) : option Node :=
  match parentOf d n with
  | Some p =>
      match indexIn (childrenOf d p) n with
      | 0 => None
      | S i => childrenOf d p !! i
      end
  | None => None
  end.

(** The length of a node: its data length for Text, else its child count. *)
Definition nodeLength (d : Document) (n : Node) : nat :=
  if isText d n then String.length (valueOf d n) else length (childrenOf d n).

(** [a] is [n] or one of its ancestors.  The walk is bounded by the size of
    the store, which is enough in a tree. *)
Fixpoint isInclusiveAncestorFuel (fuel : nat) (d : Document) (a n : Node) : bool :=
  if decide (a = n) then true
  else match fuel with
       | 0 => false
       | S f =>
           match parentOf d n with
           | Some p => isInclusiveAncestorFuel f d a p
           | None => false
           end
       end.

Definition isInclusiveAncestor (d : Document) (a n : Node) : bool :=
  isInclusiveAncestorFuel (length (nodes d)) d a n.

Fixpoint rootFuel (fuel : nat) (d : Document) (n : Node) : Node :=
  match fuel with
  | 0 => n
  | S f =>
      match parentOf d n with
      | Some p => rootFuel f d p
      | None => n
      end
  end.

Definition rootOf (d : Document) (n : Node) : Node := rootFuel (length (nodes d)) d n.

(** Child indices from the root down to [n]. *)
Fixpoint pathFuel (fuel : nat) (d : Document) (n : Node) (acc : list nat) : list nat :=
  match fuel with
  | 0 => acc
  | S f =>
      match parentOf d n with
      | Some p => pathFuel f d p (indexIn (childrenOf d p) n :: acc)
      | None => acc
      end
  end.

Definition pathOf (d : Document) (n : Node) : list nat :=
  pathFuel (length (nodes d)) d n [].

Fixpoint lexCompare (a b : list nat) : comparison :=
  match a, b with
  | [], [] => Eq
  | [], _ :: _ => Lt
  | _ :: _, [] => Gt
  | x :: a', y :: b' =>
      match Nat.compare x y with
      | Eq => lexCompare a' b'
      | c => c
      end
  end.

(** The position of boundary point [a] relative to [b] (same root assumed):
    Lt = before, Eq = equal, Gt = after. *)
Definition compareBoundary (d : Document) (a b : Boundary) : comparison :=
  lexCompare (pathOf d a.1 ++ [a.2]) (pathOf d b.1 ++ [b.2]).

(** Nodes of the subtree of [n] in tree order. *)
Fixpoint subtreeFuel (fuel : nat) (d : Document) (n : Node) : list Node :=
  match fuel with
  | 0 => [n]
  | S f => n :: flat_map (subtreeFuel f d) (childrenOf d n)
  end.

Definition subtree (d : Document) (n : Node) : list Node :=
  subtreeFuel (length (nodes d)) d n.

(** *** Ranges *)

Definition rangeStart (r : Range) : Boundary := (startContainer r, startOffset r).
Definition rangeEnd (r : Range) : Boundary := (endContainer r, endOffset r).

Definition withStart (bp : Boundary) (r : Range) : Range :=
  mkRange bp.1 bp.2 (endContainer r) (endOffset r).

Definition withEnd (bp : Boundary) (r : Range) : Range :=
  mkRange (startContainer r) (startOffset r) bp.1 bp.2.

Definition collapsedAt (bp : Boundary) : Range := mkRange bp.1 bp.2 bp.1 bp.2.

Definition boundaryEqb (a b : Boundary) : bool :=
  bool_decide (a = b).

(** Range.collapsed *)
Definition collapsed (r : Range) : bool := boundaryEqb (rangeStart r) (rangeEnd r).

Definition getRange (d : Document) (r : RangeRef) : option Range := ranges d !! r.

(** Apply [f] to both boundary points of every live range. *)
Definition mapBoundaries (f : Boundary -> Boundary) (d : Document) : Document :=
  withRanges (map (fun r => withEnd (f (rangeEnd r)) (withStart (f (rangeStart r)) r))) d.

Definition range (d : Document) (r : RangeRef) : result Range :=
  match ranges d !! r with
  | Some rg => Ok rg
  | None => Throw TypeError
  end.

Definition setRange (r : RangeRef) (f : Range -> Range) (d : Document) : Document :=
  withRanges (alter f r) d.

Definition isBefore (d : Document) (a b : Boundary) : bool :=
  bool_decide (compareBoundary d a b = Lt).

Definition isAfter (d : Document) (a b : Boundary) : bool :=
  bool_decide (compareBoundary d a b = Gt).

(** Dereferencing a possibly null reference. *)
Definition deref {A} (o : option A) : result A :=
  match o with
  | Some a => Ok a
  | None => Throw TypeError
  end.

(** *** Node creation *)

Definition createElement (d : Document) (tag : string) (attrs : list (string * string))
  : Document * Node :=
  (withNodes (fun ns => ns ++ [mkNodeData Element tag EmptyString attrs None []]) d,
   length (nodes d)).

Definition createTextNode (d : Document) (data : string) : Document * Node :=
  (withNodes (fun ns => ns ++ [mkNodeData Text EmptyString data [] None []]) d,
   length (nodes d)).

Definition createDocumentFragment (d : Document) : Document * Node :=
  (withNodes (fun ns => ns ++ [mkNodeData DocumentFragment EmptyString EmptyString [] None []]) d,
   length (nodes d)).

(** *** Mutation algorithms of the DOM Standard *)

(** "remove a node": live ranges inside the removed subtree move to
    (parent, index), those on the parent after the index shift left. *)
Definition remove (d : Document) (node : Node) : Document :=
  match parentOf d node with
  | None => d
  | Some parent =>
      let index := indexIn (childrenOf d parent) node in
      let d1 := mapBoundaries
                  (fun bp => if isInclusiveAncestor d node bp.1 then (parent, index) else bp) d in
      let d2 := mapBoundaries
                  (fun bp => if bool_decide (bp.1 = parent) && Nat.ltb index bp.2
                             then (parent, bp.2 - 1) else bp) d1 in
      withNodes (fun ns => alter (withParent None) node
                             (alter (withChildren (filter (fun c => c <> node))) parent ns)) d2
  end.

Definition insertAt {A} (i : nat) (xs l : list A) : list A := take i l ++ xs ++ drop i l.

(** Link the parentless nodes [ns] under [parent] at [index]. *)
Definition attach (d : Document) (ns : list Node) (parent : Node) (index : nat) : Document :=
  withNodes (fun store =>
    foldr (fun n acc => alter (withParent (Some parent)) n acc)
          (alter (withChildren (insertAt index ns)) parent store) ns) d.

(** "insert node into parent before child": a fragment contributes its
    children, which leave it first; live ranges on the parent after the
    insertion index shift right by the number of nodes inserted. *)
Definition insert (d : Document) (node parent : Node) (child : option Node) : Document :=
  let ns := if isFragment d node then childrenOf d node else [node] in
  let count := length ns in
  if bool_decide (count = 0) then d
  else
    let d1 := if isFragment d node then foldl remove d ns else d in
    match child with
    | Some c =>
        let index := indexIn (childrenOf d1 parent) c in
        let d2 := mapBoundaries
                    (fun bp => if bool_decide (bp.1 = parent) && Nat.ltb index bp.2
                               then (parent, bp.2 + count) else bp) d1 in
        attach d2 ns parent index
    | None => attach d1 ns parent (length (childrenOf d1 parent))
    end.

(** "ensure pre-insertion validity of node into parent before child" *)
Definition ensurePreInsertionValidity (d : Document) (node parent : Node) (child : option Node)
  : result unit :=
  match typeOf d parent, typeOf d node with
  | Some Text, _ | None, _ | _, None => Throw HierarchyRequestError
  | Some _, Some _ =>
      if isInclusiveAncestor d node parent then Throw HierarchyRequestError
      else match child with
           | Some c =>
               if bool_decide (parentOf d c = Some parent) then Ok tt else Throw NotFoundError
           | None => Ok tt
           end
  end.

(** "pre-insert node into parent before child": the node leaves its old
    parent (adoption) and is inserted. *)
Definition preInsert (d : Document) (node parent : Node) (child : option Node)
  : result Document :=
  _ ← ensurePreInsertionValidity d node parent child;
  let referenceChild := if bool_decide (child = Some node) then nextSibling d node else child in
  let d1 := remove d node in
  Ok (insert d1 node parent referenceChild).

(** Node.insertBefore(node, child) and Node.appendChild(node); both return
    the node passed in. *)
Definition insertBefore (d : Document) (parent node : Node) (child : option Node)
  : result (Document * Node) :=
  d' ← preInsert d node parent child; Ok (d', node).

Definition appendChild (d : Document) (parent node : Node) : result (Document * Node) :=
  d' ← preInsert d node parent None; Ok (d', node).

(** Node.replaceChild(node, child): "replace a child with node within a parent". *)
Definition replaceChild (d : Document) (parent node child : Node) : result Document :=
  match typeOf d parent, typeOf d node with
  | Some Text, _ | None, _ | _, None => Throw HierarchyRequestError
  | Some _, Some _ =>
      if isInclusiveAncestor d node parent then Throw HierarchyRequestError
      else if negb (bool_decide (parentOf d child = Some parent)) then Throw NotFoundError
      else
        let referenceChild := nextSibling d child in
        let referenceChild :=
          if bool_decide (referenceChild = Some node) then nextSibling d node
          else referenceChild in
        let d1 := remove d node in
        let d2 := remove d1 child in
        Ok (insert d2 node parent referenceChild)
  end.

(** The data [v] with [count] characters from [offset] replaced by [data]. *)
Definition spliceString (v : string) (offset count : nat) (data : string) : string :=
  let len := String.length v in
  let count := Nat.min count (len - offset) in
  String.substring 0 offset v +:+ data
  +:+ String.substring (offset + count) (len - (offset + count)) v.

(** "replace data" of a Text node, with the live ranges inside it. *)
Definition replaceData (d : Document) (node : Node) (offset count : nat) (data : string)
  : result Document :=
  let len := String.length (valueOf d node) in
  if Nat.ltb len offset then Throw IndexSizeError
  else
    let count := Nat.min count (len - offset) in
    let d1 := withNodes (alter (withValue (spliceString (valueOf d node) offset count data))
                               node) d in
    let d2 := mapBoundaries
                (fun bp => if bool_decide (bp.1 = node) && Nat.ltb offset bp.2
                              && Nat.leb bp.2 (offset + count)
                           then (node, offset) else bp) d1 in
    Ok (mapBoundaries
          (fun bp => if bool_decide (bp.1 = node) && Nat.ltb (offset + count) bp.2
                     then (node, bp.2 + String.length data - count) else bp) d2).

(** "split a Text node" at [offset]; returns the new node holding the tail. *)
Definition splitText (d : Document) (node : Node) (offset : nat) : result (Document * Node) :=
  let len := String.length (valueOf d node) in
  if Nat.ltb len offset then Throw IndexSizeError
  else
    let count := len - offset in
    let '(d1, newNode) := createTextNode d (String.substring offset count (valueOf d node)) in
    let d2 :=
      match parentOf d1 node with
      | Some parent =>
          let d' := insert d1 newNode parent (nextSibling d1 node) in
          let d' := mapBoundaries
                      (fun bp => if bool_decide (bp.1 = node) && Nat.ltb offset bp.2
                                 then (newNode, bp.2 - offset) else bp) d' in
          mapBoundaries
            (fun bp => if bool_decide (bp.1 = parent)
                          && bool_decide (bp.2 = S (indexOf d1 node))
                       then (parent, S bp.2) else bp) d'
      | None => d1
      end in
    d3 ← replaceData d2 node offset count EmptyString;
    Ok (d3, newNode).

(** *** Range methods *)

(** "set the end" of a range to a boundary point. *)
Definition setEnd (d : Document) (bp : Boundary) (rg : Range) : Range :=
  if negb (bool_decide (rootOf d bp.1 = rootOf d (startContainer rg)))
     || isBefore d bp (rangeStart rg)
  then collapsedAt bp
  else withEnd bp rg.

(** "set the start" of a range to a boundary point. *)
Definition setStart (d : Document) (bp : Boundary) (rg : Range) : Range :=
  if negb (bool_decide (rootOf d bp.1 = rootOf d (startContainer rg)))
     || isAfter d bp (rangeEnd rg)
  then collapsedAt bp
  else withStart bp rg.

(** Range.setEndAfter(node) *)
Definition rangeSetEndAfter (d : Document) (r : RangeRef) (node : Node) : result Document :=
  rg ← range d r;
  match parentOf d node with
  | None => Throw InvalidNodeTypeError
  | Some parent => Ok (setRange r (setEnd d (parent, S (indexOf d node))) d)
  end.

(** Range.collapse(toStart) *)
Definition rangeCollapse (d : Document) (r : RangeRef) (toStart : bool) : result Document :=
  rg ← range d r;
  Ok (setRange r (fun rg => if toStart then collapsedAt (rangeStart rg)
                            else collapsedAt (rangeEnd rg)) d).

(** A node is contained in a range when it lies in the range's tree,
    starts after the range's start and ends before the range's end. *)
Definition contained (d : Document) (rg : Range) (n : Node) : bool :=
  bool_decide (rootOf d n = rootOf d (startContainer rg))
  && isAfter d (n, 0) (rangeStart rg)
  && isBefore d (n, nodeLength d n) (rangeEnd rg).

(** Climb from [n] while its parent is not an inclusive ancestor of [stop]. *)
Fixpoint climbFuel (fuel : nat) (d : Document) (n stop : Node) : Node :=
  match fuel with
  | 0 => n
  | S f =>
      match parentOf d n with
      | Some p => if isInclusiveAncestor d p stop then n else climbFuel f d p stop
      | None => n
      end
  end.

(** The nodes deleteContents removes: those contained in the range, in
    tree order, omitting any node whose parent is also contained. *)
Definition nodesToRemove (d : Document) (rg : Range) : list Node :=
  List.filter
    (fun n => contained d rg n
              && negb (match parentOf d n with
                       | Some p => contained d rg p
                       | None => false
                       end))
    (subtree d (rootOf d (startContainer rg))).

(** Range.deleteContents() *)
Definition rangeDeleteContents (d : Document) (r : RangeRef) : result Document :=
  rg ← range d r;
  if collapsed rg then Ok d
  else
    let sn := startContainer rg in
    let so := startOffset rg in
    let en := endContainer rg in
    let eo := endOffset rg in
    if bool_decide (sn = en) && isText d sn then replaceData d sn so (eo - so) EmptyString
    else
      let nodesToRemove := nodesToRemove d rg in
      let newBoundary :=
        if isInclusiveAncestor d sn en then (sn, so)
        else
          let referenceNode := climbFuel (length (nodes d)) d sn en in
          match parentOf d referenceNode with
          | Some p => (p, S (indexOf d referenceNode))
          | None => (sn, so)
          end in
      d1 ← (if isText d sn then replaceData d sn so (nodeLength d sn - so) EmptyString
            else Ok d);
      let d2 := foldl remove d1 nodesToRemove in
      d3 ← (if isText d2 en then replaceData d2 en 0 eo EmptyString else Ok d2);
      Ok (setRange r (fun _ => collapsedAt newBoundary) d3).

(** Range.insertNode(node) *)
Definition rangeInsertNode (d : Document) (r : RangeRef) (node : Node) : result Document :=
  rg ← range d r;
  let sn := startContainer rg in
  let so := startOffset rg in
  if (isText d sn && bool_decide (parentOf d sn = None)) || bool_decide (sn = node)
  then Throw HierarchyRequestError
  else
    let referenceNode := if isText d sn then Some sn else childrenOf d sn !! so in
    parent ← match referenceNode with
             | None => Ok sn
             | Some rn => deref (parentOf d rn)
             end;
    _ ← ensurePreInsertionValidity d node parent referenceNode;
    '(d1, referenceNode) ←
        (if isText d sn
         then '(d', n') ← splitText d sn so; Ok (d', Some n')
         else Ok (d, referenceNode));
    let referenceNode :=
      if bool_decide (referenceNode = Some node) then nextSibling d1 node else referenceNode in
    let d2 := remove d1 node in
    let newOffset :=
      match referenceNode with
      | None => nodeLength d2 parent
      | Some rn => indexOf d2 rn
      end in
    let newOffset := newOffset + (if isFragment d2 node then nodeLength d2 node else 1) in
    d3 ← preInsert d2 node parent referenceNode;
    rg3 ← range d3 r;
    Ok (if collapsed rg3 then setRange r (withEnd (parent, newOffset)) d3 else d3).

(** document.createRange() followed by setStart and setEnd: a new live
    range.  A fresh range sits at the very start of the document, so
    setStart collapses it onto the start point. *)
Definition createRange (d : Document) (s e : Boundary) : result (Document * RangeRef) :=
  if Nat.ltb (nodeLength d s.1) s.2 || Nat.ltb (nodeLength d e.1) e.2
  then Throw IndexSizeError
  else
    let rg := setEnd d e (collapsedAt s) in
    Ok (withRanges (fun rs => rs ++ [rg]) d, length (ranges d)).

(** *** Well-formed trees *)

Inductive Ancestor (d : Document) (a : Node) : Node -> Prop :=
| Ancestor_self : Ancestor d a a
| Ancestor_parent n p : parentOf d n = Some p -> Ancestor d a p -> Ancestor d a n.

Record wf (d : Document) : Prop := mkWf {
  wf_child_parent : forall p c, c ∈ childrenOf d p -> parentOf d c = Some p;
  wf_parent_child : forall c p, parentOf d c = Some p -> c ∈ childrenOf d p;
  wf_nodup : forall p, NoDup (childrenOf d p);
  wf_fragment : forall n, isFragment d n = true -> parentOf d n = None
}.

Definition static (nd : NodeData) : NodeType * string * string * list (string * string) :=
  (nodeType nd, tagName nd, nodeValue nd, attributes nd).

Definition staticOf (d : Document) (n : Node) := static <$> nodes d !! n.

Definition exists_ (d : Document) (n : Node) : Prop := is_Some (nodes d !! n).

(** element.attributes, as a list of names and values *)
Definition attributesOf (d : Document) (n : Node) : list (string * string) :=
  match nodes d !! n with
  | Some nd => attributes nd
  | None => []
  end.

Definition insertIndex (d : Document) (p : Node) (child : option Node) : nat :=
  match child with
  | Some c => indexIn (childrenOf d p) c
  | None => length (childrenOf d p)
  end.

(** A decidable check of well-formedness. *)
Definition wfb (d : Document) : bool :=
  forallb (fun p => forallb (fun c => bool_decide (parentOf d c = Some p)) (childrenOf d p)
                    && bool_decide (NoDup (childrenOf d p)))
          (seq 0 (length (nodes d)))
  && forallb (fun c => match parentOf d c with
                       | Some p => bool_decide (c ∈ childrenOf d p)
                       | None => true
                       end
                       && (negb (isFragment d c) || bool_decide (parentOf d c = None)))
             (seq 0 (length (nodes d))).

(** How many times [n] occurs among the children of all nodes. *)
Definition occurrences (d : Document) (n : Node) : nat :=
  sum_list_with (fun nd => length (filter (fun c => c = n) (childNodes nd))) (nodes d).

(** A range of the document: offsets within the lengths of the containers,
    and the start not after the end. *)
Definition validRange (d : Document) (rg : Range) : Prop :=
  startOffset rg <= nodeLength d (startContainer rg)
  /\ endOffset rg <= nodeLength d (endContainer rg)
  /\ compareBoundary d (rangeStart rg) (rangeEnd rg) <> Gt.

(** The steps of Range.deleteContents on a non-collapsed range [rg] of
    [d], read on its result [d1], in the terms of the algorithm: the
    characters spliced out of the Text nodes, and the nodes to remove out
    of their parents.  [selectionRemoved] below says what this amounts to. *)
Definition selectionDeleted (d : Document) (rg : Range) (d1 : Document) : Prop :=
  let sn := startContainer rg in
  let so := startOffset rg in
  let en := endContainer rg in
  let eo := endOffset rg in
  if bool_decide (sn = en) && isText d sn
  then valueOf d1 sn = spliceString (valueOf d sn) so (eo - so) EmptyString
  else (forall n, n ∈ nodesToRemove d rg -> parentOf d1 n = None)
       /\ (isText d sn = true ->
           valueOf d1 sn
           = spliceString (valueOf d sn) so (nodeLength d sn - so) EmptyString)
       /\ (isText d en = true ->
           valueOf d1 en = spliceString (valueOf d en) 0 eo EmptyString).

(** A node lies within the range [rg] of [d]: it is in the tree of the
    range, it starts after the start of the range and it ends before the
    end of the range, in tree order. *)
Definition withinRange (d : Document) (rg : Range) (n : Node) : Prop :=
  rootOf d n = rootOf d (startContainer rg)
  /\ compareBoundary d (n, 0) (startContainer rg, startOffset rg) = Gt
  /\ compareBoundary d (n, nodeLength d n) (endContainer rg, endOffset rg) = Lt.

(** The contents of the range [rg] of [d] are deleted in [d1].  Within a
    single Text node: the text is what was before the start followed by
    what was after the end.  Otherwise: every node of the tree that lies
    within the range, taken at the topmost level (its parent does not lie
    within the range), has no parent any more; a Text node holding the
    start keeps only the characters before the start offset, and a Text
    node holding the end only those from the end offset on. *)
Definition selectionRemoved (d : Document) (rg : Range) (d1 : Document) : Prop :=
  let sn := startContainer rg in
  let so := startOffset rg in
  let en := endContainer rg in
  let eo := endOffset rg in
  if bool_decide (sn = en) && isText d sn
  then valueOf d1 sn
       = substring 0 so (valueOf d sn)
         +:+ substring eo (String.length (valueOf d sn) - eo) (valueOf d sn)
  else (forall n, n ∈ subtree d (rootOf d sn) ->
          withinRange d rg n ->
          (forall q, parentOf d n = Some q -> ~ withinRange d rg q) ->
          parentOf d1 n = None)
       /\ (isText d sn = true -> valueOf d1 sn = substring 0 so (valueOf d sn))
       /\ (isText d en = true ->
           valueOf d1 en
           = substring eo (String.length (valueOf d en) - eo) (valueOf d en)).

(** What an insertion of [node] puts into the tree: the node itself, or
    the children of a document fragment. *)
Definition insertedContent (d : Document) (node : Node) : list Node :=
  if isFragment d node then childrenOf d node else [node].

End Dom.

(** ** roosterjs-editor-types *)

Module ContentPosition.
Inductive t := Begin | End | Outside | SelectionStart.
End ContentPosition.

Record InsertOption := mkInsertOption {
  position : ContentPosition.t;
  updateCursor : bool;
  replaceSelection : bool;
  insertOnNewLine : bool
}.

(** ** roosterjs-editor-dom, as insertNode.ts imports it *)

Module EditorDom.
Import Dom.

(** A block element owns a start node and an end node. *)
Record BlockElement := mkBlockElement {
  getStartNode : Node;
  getEndNode : Node
}.

Definition upperAscii (c : ascii) : ascii :=
  let n := nat_of_ascii c in
  if Nat.leb 97 n && Nat.leb n 122 then ascii_of_nat (n - 32) else c.

Fixpoint toUpperCase (s : string) : string :=
  match s with
  | EmptyString => EmptyString
  | String c r => String (upperAscii c) (toUpperCase r)
  end.

(** Modelled from the spec: getTagOfNode is not part of the sources; the
    tag of an element in upper case, the empty string for any other node. *)
Definition getTagOfNode (d : Document) (n : Node) : string :=
  match nodes d !! n with
  | Some nd => if bool_decide (nodeType nd = Element) then toUpperCase (tagName nd)
               else EmptyString
  | None => EmptyString
  end.

(** Modelled from the spec: contains(container, node) is not part of the
    sources; "the node falls in the content of the container", that is,
    the node is a proper descendant of the container. *)
Definition contains (d : Document) (container contained : Node) : bool :=
  negb (bool_decide (container = contained)) && isInclusiveAncestor d container contained.

(** Modelled from the spec: contains(container, range); both boundary
    containers lie in the container or are the container itself. *)
Definition containsRange (d : Document) (container : Node) (rg : Range) : bool :=
  isInclusiveAncestor d container (startContainer rg)
  && isInclusiveAncestor d container (endContainer rg).

Fixpoint leafFuel (fuel : nat) (d : Document) (pick : list Node -> option Node) (n : Node)
  : Node :=
  match fuel with
  | 0 => n
  | S f =>
      match pick (childrenOf d n) with
      | Some c => leafFuel f d pick c
      | None => n
      end
  end.

(** Modelled from the spec: getFirstLeafNode / getLastLeafNode are not part
    of the sources; the first (last) leaf below the root, null for a root
    without children. *)
Definition getFirstLeafNode (d : Document) (rootNode : Node) : option Node :=
  match firstChild d rootNode with
  | Some c => Some (leafFuel (length (nodes d)) d head c)
  | None => None
  end.

Definition getLastLeafNode (d : Document) (rootNode : Node) : option Node :=
  match lastChild d rootNode with
  | Some c => Some (leafFuel (length (nodes d)) d last c)
  | None => None
  end.

(** PositionType of roosterjs-editor-types; [Position.After] is the one
    insertNode uses. *)
Module PositionType.
Inductive t := Begin | End | Before | After.
End PositionType.

(** Modelled from the spec: Position is not part of the sources; a
    (node, offset) location. *)
Module Position.
Record t := mk { node : Node; offset : nat }.

(** new Position(node, positionType): Begin and End sit inside the node,
    Before and After are relative to the node among its siblings and have
    no container when the node has no parent. *)
Definition ofNode (d : Document) (n : Node) (pt : PositionType.t) : option t :=
  match pt with
  | PositionType.Begin => Some (mk n 0)
  | PositionType.End => Some (mk n (nodeLength d n))
  | PositionType.Before =>
      match parentOf d n with
      | Some p => Some (mk p (indexOf d n))
      | None => None
      end
  | PositionType.After =>
      match parentOf d n with
      | Some p => Some (mk p (S (indexOf d n)))
      | None => None
      end
  end.

Definition toBoundary (p : t) : Boundary := (node p, offset p).

(** normalize(): descend through containers to a leaf; a container
    without children stays itself with offset 0, a Text node is kept. *)
Fixpoint normalizeFuel (fuel : nat) (d : Document) (n : Node) (o : nat) : t :=
  if isText d n then mk n o
  else
    match childrenOf d n with
    | [] => mk n 0
    | c :: cs =>
        match fuel with
        | 0 => mk n o
        | S f =>
            match (c :: cs) !! o with
            | Some child => normalizeFuel f d child 0
            | None =>
                let l := List.last cs c in
                normalizeFuel f d l (nodeLength d l)
            end
        end
    end.

Definition normalize (d : Document) (p : t) : t :=
  normalizeFuel (length (nodes d)) d (node p) (offset p).
End Position.

(** Modelled from the spec: SelectionRange is not part of the sources; a
    pair of Positions, a deep value copy of the range it is built from. *)
Module SelectionRange.
Record t := mk { start : Position.t; end_ : Position.t }.

(** new SelectionRange(rawRange) *)
Definition ofRange (rg : Range) : t :=
  mk (Position.mk (startContainer rg) (startOffset rg))
     (Position.mk (endContainer rg) (endOffset rg)).

Definition normalize (d : Document) (sr : t) : t :=
  mk (Position.normalize d (start sr)) (Position.normalize d (end_ sr)).

(** getRange(): materialize a live host range. *)
Definition getRange (d : Document) (sr : t) : result (Document * RangeRef) :=
  createRange d (Position.toBoundary (start sr)) (Position.toBoundary (end_ sr)).
End SelectionRange.

Fixpoint foldlM {A B} (f : A -> B -> result A) (a : A) (l : list B) : result A :=
  match l with
  | [] => Ok a
  | x :: r => a' ← f a x; foldlM f a' r
  end.

(** Modelled from the spec: changeElementTag is not part of the sources;
    "retype the container": a new element of the new tag takes over the
    attributes and the children of the element and replaces it under its
    parent.  Returns the new element. *)
Definition changeElementTag (d : Document) (element : Node) (newTag : string)
  : result (Document * Node) :=
  let attrs := match nodes d !! element with
               | Some nd => attributes nd
               | None => []
               end in
  let '(d1, newElement) := createElement d (toUpperCase newTag) attrs in
  d2 ← foldlM (fun acc c => fst <$> appendChild acc newElement c) d1 (childrenOf d1 element);
  d3 ← match parentOf d2 element with
       | Some p => replaceChild d2 p newElement element
       | None => Ok d2
       end;
  Ok (d3, newElement).

(** An element template, the parsed form of an HTML string such as
    '<div></div>'. *)
Record HtmlTemplate := mkHtmlTemplate {
  templateTag : string;
  templateAttributes : list (string * string)
}.

(** Modelled from the spec: wrap is not part of the sources; "wrap the node
    in a container": a new element built from the template takes the place
    of the node under its parent, and the node becomes its child.  Returns
    the wrapper. *)
Definition wrap (d : Document) (n : Node) (html : HtmlTemplate) : result (Document * Node) :=
  let '(d1, wrapper) := createElement d (templateTag html) (templateAttributes html) in
  d2 ← match parentOf d1 n with
       | Some p => fst <$> insertBefore d1 p wrapper (Some n)
       | None => Ok d1
       end;
  d3 ← fst <$> appendChild d2 wrapper n;
  Ok (d3, wrapper).

(** The functions of roosterjs-editor-dom and of the editor core whose
    behaviour depends on the host (computed styles, tag tables, focus):
    insertNode is parametric in them. *)
Class EditorLib := {
  (** isBlockElement(node) *)
  isBlockElement : Document -> Node -> bool;
  (** isVoidHtmlElement(element): HR, BR and the like, which cannot have children *)
  isVoidHtmlElement : Document -> Node -> bool;
  (** getBlockElementAtNode(rootNode, node); the node may be null *)
  getBlockElementAtNode : Document -> Node -> option Node -> option BlockElement;
  (** focus(core): touches the selection state only; gives the new live
      ranges, the new window selection and the new cached range *)
  focus : Node -> option RangeRef -> Document -> list Range * option RangeRef * option RangeRef
}.

End EditorDom.

(** ** roosterjs-editor-core *)

Module EditorCore.
Import Dom EditorDom.

Record EditorCore := mkEditorCore {
  contentDiv : Node;
  cachedRange : option RangeRef
}.

(** Modelled from the spec: getLiveRange is not part of the sources; the
    live selection range of the host when it lies within the content div. *)
Definition getLiveRange (core : EditorCore) (d : Document) : option RangeRef :=
  match selection d with
  | Some r =>
      match ranges d !! r with
      | Some rg => if containsRange d (contentDiv core) rg then Some r else None
      | None => None
      end
  | None => None
  end.

Definition validBoundary (d : Document) (rootNode : Node) (bp : Boundary) : bool :=
  isInclusiveAncestor d rootNode bp.1 && Nat.leb bp.2 (nodeLength d bp.1).

(** Modelled from the spec: select is not part of the sources; the target
    becomes the window selection and true is returned, or nothing changes
    and false is returned when the target does not resolve to a valid range
    within the root. *)
Definition selectBoundaries (core : EditorCore) (d : Document) (s e : Boundary)
  : Document * bool :=
  if validBoundary d (contentDiv core) s && validBoundary d (contentDiv core) e then
    match createRange d s e with
    | Ok (d', r) => (mkDocument (nodes d') (ranges d') (Some r), true)
    | Throw _ => (d, false)
    end
  else (d, false).

(** select(core, node, positionType) *)
Definition selectNode (core : EditorCore) (d : Document) (n : Node) (pt : PositionType.t)
  : Document * bool :=
  match Position.ofNode d n pt with
  | Some p => selectBoundaries core d (Position.toBoundary p) (Position.toBoundary p)
  | None => (d, false)
  end.

(** select(core, selectionRange) *)
Definition selectRange (core : EditorCore) (d : Document) (sr : SelectionRange.t)
  : Document * bool :=
  selectBoundaries core d (Position.toBoundary (SelectionRange.start sr))
                   (Position.toBoundary (SelectionRange.end_ sr)).

Definition applyFocus `{EditorLib} (core : EditorCore) (d : Document) : EditorCore * Document :=
  let '(rs, sel, cached) := focus (contentDiv core) (cachedRange core) d in
  (mkEditorCore (contentDiv core) cached, mkDocument (nodes d) rs sel).

(** '<div></div>' *)
Definition HTML_EMPTY_DIV : HtmlTemplate := mkHtmlTemplate "DIV" [].

(** Insert a node at begin of the editor *)
Definition insertNodeAtBegin `{EditorLib}
  (core : EditorCore) (d : Document) (node : Node) (option : InsertOption) : result Document :=
  let contentDiv := contentDiv core in
  let firstBlock := getBlockElementAtNode d contentDiv (getFirstLeafNode d contentDiv) in
  '(d1, insertedNode) ←
    match firstBlock with
    | Some firstBlock =>
        let refNode := getStartNode firstBlock in
        let refParentNode := parentOf d refNode in
        if insertOnNewLine option then
          p ← deref refParentNode; insertBefore d p node (Some refNode)
        else
          match firstChild d refNode with
          | Some fc => insertBefore d refNode node (Some fc)
          | None =>
              if isText d refNode || isVoidHtmlElement d refNode then
                p ← deref refParentNode; insertBefore d p node (Some refNode)
              else appendChild d refNode node
          end
    | None => appendChild d contentDiv node
    end;
  if insertOnNewLine option && negb (isBlockElement d1 insertedNode)
  then fst <$> wrap d1 insertedNode HTML_EMPTY_DIV
  else Ok d1.

(** Insert a node at end of the editor *)
Definition insertNodeAtEnd `{EditorLib}
  (core : EditorCore) (d : Document) (node : Node) (option : InsertOption) : result Document :=
  let contentDiv := contentDiv core in
  let lastBlock := getBlockElementAtNode d contentDiv (getLastLeafNode d contentDiv) in
  '(d1, insertedNode) ←
    match lastBlock with
    | Some lastBlock =>
        let refNode := getEndNode lastBlock in
        let refParentNode := parentOf d refNode in
        if insertOnNewLine option then
          p ← deref refParentNode; insertBefore d p node (nextSibling d refNode)
        else
          match lastChild d refNode with
          | Some _ => appendChild d refNode node
          | None =>
              if isText d refNode || isVoidHtmlElement d refNode then
                p ← deref refParentNode; insertBefore d p node (nextSibling d refNode)
              else appendChild d refNode node
          end
    | None => appendChild d contentDiv node
    end;
  if insertOnNewLine option && negb (isBlockElement d1 insertedNode)
  then fst <$> wrap d1 insertedNode HTML_EMPTY_DIV
  else Ok d1.

(** Insert node at selection *)
Definition insertNodeAtSelection `{EditorLib}
  (core : EditorCore) (d : Document) (node : Node) (option : InsertOption) : result Document :=
  match (match getLiveRange core d with
         | Some r => Some r
         | None => cachedRange core
         end) with
  | Some rawRange =>
      rg ← range d rawRange;
      d ← (if replaceSelection option && negb (collapsed rg)
           then rangeDeleteContents d rawRange else Ok d);
      rg ← range d rawRange;
      let clonedRange := SelectionRange.ofRange rg in
      let blockElement := getBlockElementAtNode d (contentDiv core) (Some (startContainer rg)) in
      '(d, rawRange) ←
        match blockElement with
        | Some blockElement =>
            let endNode := getEndNode blockElement in
            if insertOnNewLine option then
              d ← rangeSetEndAfter d rawRange endNode;
              d ← rangeCollapse d rawRange false;
              Ok (d, rawRange)
            else if bool_decide (getTagOfNode d endNode = "P") then
              let rangeCache := SelectionRange.normalize d (SelectionRange.ofRange rg) in
              '(d, div) ← changeElementTag d endNode "div";
              let start := Position.node (SelectionRange.start rangeCache) in
              let end_ := Position.node (SelectionRange.end_ rangeCache) in
              if negb (bool_decide (start = div)) && negb (bool_decide (end_ = div))
                 && contains d (contentDiv core) start && contains d (contentDiv core) end_
              then SelectionRange.getRange d rangeCache
              else Ok (d, rawRange)
            else Ok (d, rawRange)
        | None => Ok (d, rawRange)
        end;
      let nodeForCursor := if isFragment d node then lastChild d node else Some node in
      d ← rangeInsertNode d rawRange node;
      match (if updateCursor option then nodeForCursor else None) with
      | Some nodeForCursor => Ok (selectNode core d nodeForCursor PositionType.After).1
      | None => Ok (selectRange core d clonedRange).1
      end
  | None => Ok d
  end.

(** The range insertNodeAtSelection works on: getLiveRange(core) || core.cachedRange *)
Definition resolveRange (core : EditorCore) (d : Document) : option RangeRef :=
  match getLiveRange core d with
  | Some r => Some r
  | None => cachedRange core
  end.

(** The block [if (blockElement) { ... }] of insertNodeAtSelection, which
    adjusts the insertion point, on its own; [insertNodeAtSelection_steps]
    relates it to the function. *)
Definition adjustInsertionPoint `{EditorLib}
  (core : EditorCore) (d : Document) (rawRange : RangeRef) (rg : Range) (option : InsertOption)
  : result (Document * RangeRef) :=
  match getBlockElementAtNode d (contentDiv core) (Some (startContainer rg)) with
  | Some blockElement =>
      let endNode := getEndNode blockElement in
      if insertOnNewLine option then
        d ← rangeSetEndAfter d rawRange endNode;
        d ← rangeCollapse d rawRange false;
        Ok (d, rawRange)
      else if bool_decide (getTagOfNode d endNode = "P") then
        let rangeCache := SelectionRange.normalize d (SelectionRange.ofRange rg) in
        '(d, div) ← changeElementTag d endNode "div";
        let start := Position.node (SelectionRange.start rangeCache) in
        let end_ := Position.node (SelectionRange.end_ rangeCache) in
        if negb (bool_decide (start = div)) && negb (bool_decide (end_ = div))
           && contains d (contentDiv core) start && contains d (contentDiv core) end_
        then SelectionRange.getRange d rangeCache
        else Ok (d, rawRange)
      else Ok (d, rawRange)
  | None => Ok (d, rawRange)
  end.

(** nodeForCursor of insertNodeAtSelection *)
Definition nodeForCursor (d : Document) (node : Node) : option Node :=
  if isFragment d node then lastChild d node else Some node.



Definition insertNode `{EditorLib}
  (core : EditorCore) (d : Document) (node : Node) (option : option InsertOption)
  : result (EditorCore * Document * bool) :=
  let option := match option with
                | Some o => o
                | None => mkInsertOption ContentPosition.SelectionStart true true false
                end in
  let '(core, d) := if updateCursor option then applyFocus core d else (core, d) in
  d ← match position option with
      | ContentPosition.Begin => insertNodeAtBegin core d node option
      | ContentPosition.End => insertNodeAtEnd core d node option
      | ContentPosition.SelectionStart => insertNodeAtSelection core d node option
      | ContentPosition.Outside =>
          p ← deref (parentOf d (contentDiv core));
          fst <$> insertBefore d p node (nextSibling d (contentDiv core))
      end;
  Ok (core, d, true).

End EditorCore.

(** ** A reference host: tag tables, block resolution, focus, serialization *)

Module Host.
Import Dom EditorDom EditorCore.

(** Modelled from the spec: the tag tables of isBlockElement and
    isVoidHtmlElement are not part of the sources; block-level and void
    HTML tags. *)
Definition BLOCK_ELEMENT_TAGS : list string :=
  ["ADDRESS"; "ARTICLE"; "ASIDE"; "BLOCKQUOTE"; "DD"; "DIV"; "DL"; "DT"; "FIELDSET";
   "FIGCAPTION"; "FIGURE"; "FOOTER"; "FORM"; "H1"; "H2"; "H3"; "H4"; "H5"; "H6"; "HEADER";
   "HR"; "LI"; "MAIN"; "NAV"; "OL"; "P"; "PRE"; "SECTION"; "TABLE"; "TD"; "TH"; "TR"; "UL"].

Definition VOID_ELEMENT_TAGS : list string :=
  ["AREA"; "BASE"; "BR"; "COL"; "EMBED"; "HR"; "IMG"; "INPUT"; "LINK"; "META"; "PARAM";
   "SOURCE"; "TRACK"; "WBR"].

Definition hostIsBlockElement (d : Document) (n : Node) : bool :=
  bool_decide (getTagOfNode d n ∈ BLOCK_ELEMENT_TAGS).

Definition hostIsVoidHtmlElement (d : Document) (n : Node) : bool :=
  bool_decide (getTagOfNode d n ∈ VOID_ELEMENT_TAGS).

(** The nearest inclusive ancestor of [n] that is a block element or the root. *)
Fixpoint blockContextFuel (fuel : nat) (d : Document) (rootNode n : Node) : Node :=
  if bool_decide (n = rootNode) || hostIsBlockElement d n then n
  else match fuel with
       | 0 => n
       | S f =>
           match parentOf d n with
           | Some p => blockContextFuel f d rootNode p
           | None => n
           end
       end.

(** The child of [container] on the way down to [n]. *)
Fixpoint childTowardsFuel (fuel : nat) (d : Document) (container n : Node) : Node :=
  match parentOf d n with
  | Some p =>
      if bool_decide (p = container) then n
      else match fuel with
           | 0 => n
           | S f => childTowardsFuel f d container p
           end
  | None => n
  end.

Definition isBr (d : Document) (n : Node) : bool := bool_decide (getTagOfNode d n = "BR").

(** Extend a run of siblings to the left: stop at a block or after a BR. *)
Fixpoint runLeft (d : Document) (revBefore : list Node) (cur : Node) : Node :=
  match revBefore with
  | [] => cur
  | x :: r => if hostIsBlockElement d x || isBr d x then cur else runLeft d r x
  end.

(** Extend a run of siblings to the right: stop on a BR or before a block. *)
Fixpoint runRight (d : Document) (after : list Node) (cur : Node) : Node :=
  if isBr d cur then cur
  else match after with
       | [] => cur
       | x :: r => if hostIsBlockElement d x then cur else runRight d r x
       end.

(** Modelled from the spec: getBlockElementAtNode is not part of the
    sources; null for a node outside the root, else the maximal run of
    siblings around the node bounded by block-level structure, given by its
    start and end node; a run that fills a block container other than the
    root is that container itself. *)
Definition hostGetBlockElementAtNode (d : Document) (rootNode : Node) (node : option Node)
  : option BlockElement :=
  match node with
  | None => None
  | Some n =>
      if negb (contains d rootNode n) then None
      else
        let fuel := length (nodes d) in
        let container := blockContextFuel fuel d rootNode n in
        if bool_decide (container = n) then Some (mkBlockElement n n)
        else
          let c := childTowardsFuel fuel d container n in
          let siblings := childrenOf d container in
          let i := indexIn siblings c in
          let startNode := runLeft d (rev (take i siblings)) c in
          let endNode := runRight d (drop (S i) siblings) c in
          if bool_decide (head siblings = Some startNode)
             && bool_decide (last siblings = Some endNode)
             && negb (bool_decide (container = rootNode))
          then Some (mkBlockElement container container)
          else Some (mkBlockElement startNode endNode)
  end.

(** Modelled from the spec: focus is not part of the sources; "the
    selection is restored to where it was before": without a live range in
    the editor the cached range becomes the selection again, and the cache
    is cleared. *)
Definition hostFocus (contentDiv : Node) (cached : option RangeRef) (d : Document)
  : list Range * option RangeRef * option RangeRef :=
  match getLiveRange (mkEditorCore contentDiv cached) d, cached with
  | None, Some r => (ranges d, Some r, None)
  | _, _ => (ranges d, selection d, None)
  end.

#[global] Instance hostLib : EditorLib := {
  isBlockElement := hostIsBlockElement;
  isVoidHtmlElement := hostIsVoidHtmlElement;
  getBlockElementAtNode := hostGetBlockElementAtNode;
  focus := hostFocus
}.

(** *** Serialization: the markup of the content, as getContent reports it *)

Definition lowerAscii (c : ascii) : ascii :=
  let n := nat_of_ascii c in
  if Nat.leb 65 n && Nat.leb n 90 then ascii_of_nat (n + 32) else c.

Fixpoint toLowerCase (s : string) : string :=
  match s with
  | EmptyString => EmptyString
  | String c r => String (lowerAscii c) (toLowerCase r)
  end.

Definition quote : string := String (ascii_of_nat 34) EmptyString.

Definition attributesHTML (attrs : list (string * string)) : string :=
  foldr (fun kv acc => " " +:+ kv.1 +:+ "=" +:+ quote +:+ kv.2 +:+ quote +:+ acc)
        EmptyString attrs.

Fixpoint outerHTMLFuel (fuel : nat) (d : Document) (n : Node) : string :=
  match nodes d !! n with
  | None => EmptyString
  | Some nd =>
      let inner :=
        match fuel with
        | 0 => EmptyString
        | S f => foldr (fun c acc => outerHTMLFuel f d c +:+ acc) EmptyString (childNodes nd)
        end in
      match nodeType nd with
      | Text => nodeValue nd
      | DocumentFragment => inner
      | Element =>
          let tag := toLowerCase (tagName nd) in
          if bool_decide (tagName nd ∈ VOID_ELEMENT_TAGS)
          then "<" +:+ tag +:+ attributesHTML (attributes nd) +:+ ">"
          else "<" +:+ tag +:+ attributesHTML (attributes nd) +:+ ">" +:+ inner
               +:+ "</" +:+ tag +:+ ">"
      end
  end.

(** element.innerHTML *)
Definition innerHTML (d : Document) (n : Node) : string :=
  foldr (fun c acc => outerHTMLFuel (length (nodes d)) d c +:+ acc) EmptyString
        (childrenOf d n).

End Host.

(** ** Concrete documents *)

Module Examples.
Import Dom EditorDom EditorCore Host.

Definition element (tag : string) (parent : option Node) (children : list Node) : NodeData :=
  mkNodeData Element tag EmptyString [] parent children.

Definition text (data : string) (parent : option Node) : NodeData :=
  mkNodeData Text EmptyString data [] parent [].

Definition fragment (children : list Node) : NodeData :=
  mkNodeData DocumentFragment EmptyString EmptyString [] None children.

(** The editor: node 1 is the content div, under the body (node 0). *)
Definition editor : EditorCore := mkEditorCore 1 None.

(** Content <div>hello</div>; node 4 is a text node "X" outside the tree. *)
Definition divHello : Document :=
  mkDocument
    [element "BODY" None [1]; element "DIV" (Some 0) [2]; element "DIV" (Some 1) [3];
     text "hello" (Some 2); text "X" None]
    [] None.

(** The same content with the text "ell" of "hello" selected. *)
Definition divHelloSelected : Document :=
  mkDocument (nodes divHello) [mkRange 3 1 3 4] (Some 0).

(** An empty content div; node 2 is a text node "X" outside the tree. *)
Definition emptyRoot : Document :=
  mkDocument [element "BODY" None [1]; element "DIV" (Some 0) []; text "X" None] [] None.

(** Content <div>hello</div>; node 4 is a document fragment holding the
    text nodes "X" and "Y", node 7 is an empty document fragment; the
    caret sits in "hello" after "he". *)
Definition divHelloFragments : Document :=
  mkDocument
    [element "BODY" None [1]; element "DIV" (Some 0) [2]; element "DIV" (Some 1) [3];
     text "hello" (Some 2); fragment [5; 6]; text "X" (Some 4); text "Y" (Some 4);
     fragment []]
    [mkRange 3 2 3 2] (Some 0).

(** Content <p class='note'>hello</p> with the caret after "he"; node 4
    is a text node "X". *)
Definition paragraphNote : Document :=
  mkDocument
    [element "BODY" None [1]; element "DIV" (Some 0) [2];
     mkNodeData Element "P" EmptyString [("class", "note")] (Some 1) [3];
     text "hello" (Some 2); text "X" None]
    [mkRange 3 2 3 2] (Some 0).

(** Content <p></p> with the caret inside the empty paragraph; node 3 is
    a text node "X". *)
Definition paragraphEmpty : Document :=
  mkDocument
    [element "BODY" None [1]; element "DIV" (Some 0) [2]; element "P" (Some 1) [];
     text "X" None]
    [mkRange 2 0 2 0] (Some 0).

(** Content <div>hello</div> with the caret in "hello" after "he"; node 4
    is a text node "X" outside the tree. *)
Definition divHelloCaret : Document :=
  mkDocument (nodes divHello) [mkRange 3 2 3 2] (Some 0).

(** The same content with the caret in the div, after the text node. *)
Definition divHelloCaretInDiv : Document :=
  mkDocument (nodes divHello) [mkRange 2 1 2 1] (Some 0).

(** Content hello<br>world, directly in the root; node 5 is a text node
    "X" outside the tree. *)
Definition helloBrWorld : Document :=
  mkDocument
    [element "BODY" None [1]; element "DIV" (Some 0) [2; 3; 4]; text "hello" (Some 1);
     element "BR" (Some 1) []; text "world" (Some 1); text "X" None]
    [] None.

(** Content <div>hello</div><div>mid</div><div>world</div>, selected from
    after "he" to before "ld"; node 8 is a text node "X" outside the tree. *)
Definition threeDivsSelected : Document :=
  mkDocument
    [element "BODY" None [1]; element "DIV" (Some 0) [2; 4; 6];
     element "DIV" (Some 1) [3]; text "hello" (Some 2);
     element "DIV" (Some 1) [5]; text "mid" (Some 4);
     element "DIV" (Some 1) [7]; text "world" (Some 6);
     text "X" None]
    [mkRange 3 2 7 3] (Some 0).

(** An empty content div; node 2 is a document fragment holding the
    text nodes "X" and "Y". *)
Definition emptyRootFragment : Document :=
  mkDocument
    [element "BODY" None [1]; element "DIV" (Some 0) []; fragment [3; 4];
     text "X" (Some 2); text "Y" (Some 2)]
    [] None.



(** An editor whose root (node 0) is not in a document; node 1 is a text
    node "X". *)
Definition detachedEditor : EditorCore := mkEditorCore 0 None.

Definition detachedRoot : Document :=
  mkDocument [element "DIV" None []; text "X" None] [] None.

End Examples.

(** ** The current-editor holder (getCurrentEditor / setCurrentEditor) *)

Module CurrentEditor.

(** An editor object, by reference. *)
Definition IEditor := nat.

(** What the module does to the world: calls of dispose() and writes of
    the module-level variable [editor], in program order. *)
Inductive Effect :=
| Dispose (e : IEditor)
| Assign (e : option IEditor).

Record State := mkState {
  editor : option IEditor;         (* let editor: IEditor;  (undefined at first) *)
  effects : list Effect
}.

Definition initial : State := mkState None [].

Definition getCurrentEditor (s : State) : option IEditor := editor s.

(** editor.dispose() *)
Definition dispose (e : IEditor) (s : State) : State :=
  mkState (editor s) (effects s ++ [Dispose e]).

Definition setCurrentEditor (newEditor : option IEditor) (s : State) : State :=
  let s := match editor s with
           | Some e => dispose e s
           | None => s
           end in
  mkState newEditor (effects s ++ [Assign newEditor]).

(** The editors dispose() was called on, in call order. *)
Definition disposed (s : State) : list IEditor :=
  omap (fun ef => match ef with Dispose e => Some e | Assign _ => None end) (effects s).

(** A sequence of calls of setCurrentEditor. *)
Definition setCurrentEditors (es : list (option IEditor)) (s : State) : State :=
  foldl (fun s e => setCurrentEditor e s) s es.

End CurrentEditor.

(** ** logEvent (coreAPI/logEvent.ts) *)

Module Log.
Import EditorCore.

(** The console: the lines written by console.log, oldest first. *)
Definition Console := list string.

(** console.log(`[RoosterJS][${source}]${content}`) *)
Definition logEvent (core : EditorCore) (source content : string) (console : Console)
  : Console :=
  console ++ ["[RoosterJS][" +:+ source +:+ "]" +:+ content].

(** The character [c] occurs in [s]. *)
Fixpoint occursIn (c : ascii) (s : string) : bool :=
  match s with
  | EmptyString => false
  | String x r => bool_decide (x = c) || occursIn c r
  end.

End Log.

(** ** IEditor.addUndoSnapshot *)

Module UndoSnapshot.

Definition Content := string.
Definition Data := string.

(** A callback passed to addUndoSnapshot: it edits the content, calls
    addUndoSnapshot again (with or without a callback of its own), and
    returns a data object. *)
Inductive Callback :=
| Return (data : Data)
| Edit (f : Content -> Content) (k : Callback)
| Nested (callback : Callback) (changeSource : option string) (k : Callback)
| NestedWithoutCallback (changeSource : option string) (k : Callback).

Inductive Event :=
| SnapshotTaken (c : Content)
| CallbackStarted
| CallbackReturned (data : Data)
| ContentChanged (source : string) (data : option Data) (c : Content).

(** The undo transaction state: Idle is depth 0, InTransaction(n) is depth n. *)
Record State := mkState {
  content : Content;
  depth : nat;
  events : list Event
}.

Definition emit (e : Event) (s : State) : State :=
  mkState (content s) (depth s) (events s ++ [e]).

Definition setDepth (n : nat) (s : State) : State :=
  mkState (content s) n (events s).

Definition edit (f : Content -> Content) (s : State) : State :=
  mkState (f (content s)) (depth s) (events s).

(** Modelled from the spec: the implementation of addUndoSnapshot is not
    part of the sources (IEditor only declares it).  Idle: capture a
    snapshot, run the callback if present, capture a snapshot, go back to
    Idle and, only if a change source was supplied, emit one content-changed
    notification carrying the callback's return value.  In a transaction:
    run the callback, capture nothing, emit nothing. *)
Definition addUndoSnapshotWith (run : option (State -> State * Data))
  (changeSource : option string) (s : State) : State :=
  let runCallback (s : State) : State * option Data :=
    match run with
    | Some f =>
        let '(s', v) := f (emit CallbackStarted s) in
        (emit (CallbackReturned v) s', Some v)
    | None => (s, None)
    end in
  match depth s with
  | 0 =>
      let s1 := setDepth 1 (emit (SnapshotTaken (content s)) s) in
      let '(s2, data) := runCallback s1 in
      let s3 := setDepth 0 (emit (SnapshotTaken (content s2)) s2) in
      match changeSource with
      | Some source => emit (ContentChanged source data (content s3)) s3
      | None => s3
      end
  | S _ => (runCallback s).1
  end.

Fixpoint runCallback (cb : Callback) (s : State) : State * Data :=
  match cb with
  | Return v => (s, v)
  | Edit f k => runCallback k (edit f s)
  | Nested cb' changeSource k =>
      runCallback k (addUndoSnapshotWith (Some (runCallback cb')) changeSource s)
  | NestedWithoutCallback changeSource k =>
      runCallback k (addUndoSnapshotWith None changeSource s)
  end.

Definition addUndoSnapshot (callback : option Callback) (changeSource : option string)
  (s : State) : State :=
  addUndoSnapshotWith (runCallback <$> callback) changeSource s.

(** What a callback returns, and what it does to the content. *)
Fixpoint returnValue (cb : Callback) : Data :=
  match cb with
  | Return v => v
  | Edit _ k => returnValue k
  | Nested _ _ k => returnValue k
  | NestedWithoutCallback _ k => returnValue k
  end.

Fixpoint finalContent (cb : Callback) (c : Content) : Content :=
  match cb with
  | Return _ => c
  | Edit f k => finalContent k (f c)
  | Nested cb' _ k => finalContent k (finalContent cb' c)
  | NestedWithoutCallback _ k => finalContent k c
  end.

Definition isCallbackEvent (e : Event) : bool :=
  match e with
  | CallbackStarted | CallbackReturned _ => true
  | SnapshotTaken _ | ContentChanged _ _ _ => false
  end.

End UndoSnapshot.

(** * Properties *)

Import Dom EditorDom EditorCore.

Section DomFacts.

Ltac destruct_lookups :=
  repeat match goal with
         | |- context [nodes ?d !! ?x] => destruct (nodes d !! x) as [[]|] eqn:?
         end.

Lemma parentOf_remove d n x :
  parentOf (remove d n) x = if decide (x = n) then None else parentOf d x.
Proof.
  unfold remove. destruct (parentOf d n) as [p|] eqn:E.
  - unfold parentOf in *. simpl. rewrite !list_lookup_alter.
    repeat case_decide; subst; destruct_lookups; simpl in *; first [reflexivity | congruence].
  - destruct (decide (x = n)) as [->|]; auto.
Qed.

Lemma childrenOf_remove d n q :
  childrenOf (remove d n) q =
  if decide (parentOf d n = Some q) then filter (fun c => c <> n) (childrenOf d q)
  else childrenOf d q.
Proof.
  unfold remove. destruct (parentOf d n) as [p|] eqn:E.
  - unfold childrenOf. simpl. rewrite !list_lookup_alter.
    repeat case_decide; simplify_eq; destruct_lookups; simpl in *; first [reflexivity | congruence].
  - case_decide; [discriminate|reflexivity].
Qed.

Lemma staticOf_remove d n x : staticOf (remove d n) x = staticOf d x.
Proof.
  unfold staticOf, remove. destruct (parentOf d n); [|reflexivity]. simpl.
  rewrite !list_lookup_alter. repeat case_decide; subst; destruct_lookups; reflexivity.
Qed.

Lemma typeOf_staticOf d d' x : staticOf d x = staticOf d' x -> typeOf d x = typeOf d' x.
Proof.
  unfold staticOf, typeOf, static.
  destruct (nodes d !! x), (nodes d' !! x); simpl; intros; simplify_eq; congruence.
Qed.

Lemma valueOf_staticOf d d' x : staticOf d x = staticOf d' x -> valueOf d x = valueOf d' x.
Proof.
  unfold staticOf, valueOf, static.
  destruct (nodes d !! x), (nodes d' !! x); simpl; intros; simplify_eq; congruence.
Qed.

Lemma getTagOfNode_staticOf d d' x :
  staticOf d x = staticOf d' x -> getTagOfNode d x = getTagOfNode d' x.
Proof.
  unfold staticOf, getTagOfNode, static.
  destruct (nodes d !! x), (nodes d' !! x); simpl; intros; simplify_eq; try congruence.
  repeat match goal with H : _ = _ |- _ => rewrite H end. reflexivity.
Qed.

Lemma isFragment_staticOf d d' x : staticOf d x = staticOf d' x -> isFragment d x = isFragment d' x.
Proof. intros H. unfold isFragment. now rewrite (typeOf_staticOf _ _ _ H). Qed.

Lemma isText_staticOf d d' x : staticOf d x = staticOf d' x -> isText d x = isText d' x.
Proof. intros H. unfold isText. now rewrite (typeOf_staticOf _ _ _ H). Qed.

Lemma typeOf_remove d n x : typeOf (remove d n) x = typeOf d x.
Proof. apply typeOf_staticOf, staticOf_remove. Qed.

Lemma length_nodes_remove d n : length (nodes (remove d n)) = length (nodes d).
Proof.
  unfold remove. destruct (parentOf d n); [|reflexivity]. simpl. now rewrite !length_alter.
Qed.

Lemma wf_remove d n : wf d -> wf (remove d n).
Proof.
  intros [W1 W2 W3 W4]. split.
  - intros p c. rewrite childrenOf_remove, parentOf_remove.
    case_decide as Hp.
    + rewrite list_elem_of_filter. intros [Hc Hin]. rewrite decide_False by done. auto.
    + intros Hin. case_decide as Hc; [subst; apply W1 in Hin; congruence | auto].
  - intros c p. rewrite childrenOf_remove, parentOf_remove.
    case_decide as Hc; [discriminate|]. intros Hp.
    case_decide; [apply list_elem_of_filter; auto | auto].
  - intros p. rewrite childrenOf_remove. case_decide; [apply NoDup_filter|]; auto.
  - intros x. rewrite (isFragment_staticOf _ d) by apply staticOf_remove.
    rewrite parentOf_remove. case_decide; auto.
Qed.

Lemma foldr_alter_lookup {A} (f : A -> A) (ns : list nat) (s : list A) x :
  (forall a, f (f a) = f a) ->
  foldr (fun n acc => alter f n acc) s ns !! x
  = if decide (x ∈ ns) then f <$> s !! x else s !! x.
Proof.
  intros Hf. induction ns as [|n ns IH]; cbn [foldr].
  - destruct (decide (x ∈ [])) as [H|_]; [by apply elem_of_nil in H|done].
  - destruct (decide (n = x)) as [->|Hx].
    + rewrite list_lookup_alter_eq, IH.
      destruct (decide (x ∈ x :: ns)) as [_|Hn]; [|exfalso; apply Hn; left].
      case_decide; [|reflexivity]. destruct (s !! x); simpl; [now rewrite Hf|reflexivity].
    + rewrite list_lookup_alter_ne, IH by done.
      destruct (decide (x ∈ ns)) as [Hin|Hin]; destruct (decide (x ∈ n :: ns)) as [Hin'|Hin'];
        try reflexivity.
      * exfalso. apply Hin'. now right.
      * exfalso. apply elem_of_cons in Hin' as [?|?]; congruence.
Qed.

Lemma parentOf_attach d ns p i x :
  parentOf (attach d ns p i) x
  = if decide (x ∈ ns) then (match nodes d !! x with Some _ => Some p | None => None end)
    else parentOf d x.
Proof.
  unfold parentOf, attach. simpl. rewrite foldr_alter_lookup by reflexivity.
  rewrite list_lookup_alter. repeat case_decide; subst; destruct_lookups; done.
Qed.

Lemma childrenOf_attach d ns p i q :
  childrenOf (attach d ns p i) q
  = if decide (q = p) then
      match nodes d !! p with Some _ => insertAt i ns (childrenOf d p) | None => [] end
    else childrenOf d q.
Proof.
  unfold childrenOf, attach. simpl. rewrite foldr_alter_lookup by reflexivity.
  rewrite list_lookup_alter. repeat case_decide; subst; destruct_lookups; done.
Qed.

Lemma staticOf_attach d ns p i x : staticOf (attach d ns p i) x = staticOf d x.
Proof.
  unfold staticOf, attach. simpl. rewrite foldr_alter_lookup by reflexivity.
  rewrite list_lookup_alter. repeat case_decide; subst; destruct_lookups; done.
Qed.

Lemma elem_of_insertAt {A} (i : nat) (xs l : list A) x :
  x ∈ insertAt i xs l <-> x ∈ xs \/ x ∈ l.
Proof.
  unfold insertAt. rewrite !elem_of_app.
  assert (x ∈ l <-> x ∈ take i l \/ x ∈ drop i l) as ->
    by (rewrite <- elem_of_app, take_drop; done).
  tauto.
Qed.

Lemma NoDup_insertAt {A} (i : nat) (xs l : list A) :
  NoDup xs -> NoDup l -> (forall x, x ∈ xs -> x ∉ l) -> NoDup (insertAt i xs l).
Proof.
  intros Hxs Hl Hd. unfold insertAt.
  rewrite <- (take_drop i l) in Hl. apply NoDup_app in Hl as (H1 & H2 & H3).
  apply NoDup_app. split; [auto|]. split.
  - intros x Hx. rewrite elem_of_app. intros [Hx'|Hx'].
    + apply (Hd x Hx'). rewrite <- (take_drop i l). apply elem_of_app. now left.
    + now apply (H2 x).
  - apply NoDup_app. split; [auto|]. split; [|auto].
    intros x Hx Hx'. apply (Hd x Hx). rewrite <- (take_drop i l). apply elem_of_app. now right.
Qed.

Lemma wf_attach d ns p i :
  wf d -> is_Some (nodes d !! p) ->
  (forall n, n ∈ ns -> parentOf d n = None /\ is_Some (nodes d !! n)) ->
  (forall n, n ∈ ns -> isFragment d n = false) ->
  NoDup ns ->
  wf (attach d ns p i).
Proof.
  intros [W1 W2 W3 W4] [pd Hp] Hns Hnf Hnd. split.
  - intros q c. rewrite childrenOf_attach, parentOf_attach. rewrite Hp.
    case_decide as Hq.
    + subst q. rewrite elem_of_insertAt. intros [Hc|Hc].
      * rewrite decide_True by done. destruct (Hns c Hc) as [_ [? ->]]. reflexivity.
      * case_decide as Hc'; [|auto].
        destruct (Hns c Hc') as [Hn _]. apply W1 in Hc. congruence.
    + intros Hc. case_decide as Hc'; [|auto].
      destruct (Hns c Hc') as [Hn _]. apply W1 in Hc. congruence.
  - intros c q. rewrite childrenOf_attach, parentOf_attach. rewrite Hp.
    case_decide as Hc.
    + destruct (Hns c Hc) as [_ [? ->]]. intros [= <-]. rewrite decide_True by done.
      apply elem_of_insertAt. now left.
    + intros Hq. apply W2 in Hq. case_decide; [subst; apply elem_of_insertAt; now right|auto].
  - intros q. rewrite childrenOf_attach. rewrite Hp. case_decide; [|auto]. subst.
    apply NoDup_insertAt; auto.
    intros x Hx Hx'. destruct (Hns x Hx) as [Hn _]. apply W1 in Hx'. congruence.
  - intros x. rewrite (isFragment_staticOf _ d) by apply staticOf_attach.
    rewrite parentOf_attach. intros Hx. case_decide as Hin; [|auto].
    rewrite (Hnf x Hin) in Hx. discriminate.
Qed.

Lemma is_Some_staticOf d x : is_Some (nodes d !! x) <-> is_Some (staticOf d x).
Proof. unfold staticOf. now rewrite fmap_is_Some. Qed.

Lemma parentOf_same_nodes d d' x : nodes d = nodes d' -> parentOf d x = parentOf d' x.
Proof. unfold parentOf. now intros ->. Qed.

Lemma childrenOf_same_nodes d d' x : nodes d = nodes d' -> childrenOf d x = childrenOf d' x.
Proof. unfold childrenOf. now intros ->. Qed.


Lemma wf_same_nodes d d' : nodes d = nodes d' -> wf d -> wf d'.
Proof.
  intros H [W1 W2 W3 W4].
  split; unfold isFragment, typeOf, parentOf, childrenOf in *; rewrite <- H; auto.
Qed.

Lemma parentOf_exists d c p : parentOf d c = Some p -> is_Some (nodes d !! c).
Proof. unfold parentOf. destruct (nodes d !! c); [eauto|discriminate]. Qed.

Lemma childrenOf_exists d p c : c ∈ childrenOf d p -> is_Some (nodes d !! p).
Proof.
  unfold childrenOf. destruct (nodes d !! p); [eauto|]. intros H. by apply elem_of_nil in H.
Qed.

Lemma parentOf_foldl_remove ns : forall d x,
  parentOf (foldl remove d ns) x = if decide (x ∈ ns) then None else parentOf d x.
Proof.
  induction ns as [|n ns IH]; intros d x; cbn [foldl].
  - destruct (decide (x ∈ [])) as [H|_]; [by apply elem_of_nil in H|done].
  - rewrite IH, parentOf_remove.
    destruct (decide (x ∈ n :: ns)) as [H|H]; rewrite elem_of_cons in H;
      destruct (decide (x ∈ ns)), (decide (x = n)); try done; tauto.
Qed.

Lemma staticOf_foldl_remove ns : forall d x, staticOf (foldl remove d ns) x = staticOf d x.
Proof.
  induction ns as [|n ns IH]; intros d x; cbn [foldl]; [done|].
  now rewrite IH, staticOf_remove.
Qed.

Lemma wf_foldl_remove ns : forall d, wf d -> wf (foldl remove d ns).
Proof.
  induction ns as [|n ns IH]; intros d Hd; cbn [foldl]; [done|]. apply IH, wf_remove, Hd.
Qed.

Lemma childrenOf_foldl_remove_other ns : forall d q,
  (forall n, n ∈ ns -> parentOf d n <> Some q) ->
  childrenOf (foldl remove d ns) q = childrenOf d q.
Proof.
  induction ns as [|n ns IH]; intros d q Hns; cbn [foldl]; [done|].
  rewrite IH.
  - rewrite childrenOf_remove. rewrite decide_False; [done|]. apply Hns. left.
  - intros x Hx. rewrite parentOf_remove. case_decide; [done|]. apply Hns. now right.
Qed.

Lemma childrenOf_foldl_remove_all d f :
  wf d -> childrenOf (foldl remove d (childrenOf d f)) f = [].
Proof.
  intros Hd. pose proof (wf_foldl_remove (childrenOf d f) d Hd) as Hd1.
  destruct (childrenOf (foldl remove d (childrenOf d f)) f) as [|c l] eqn:E; [done|].
  exfalso.
  assert (Hc : c ∈ childrenOf (foldl remove d (childrenOf d f)) f) by (rewrite E; left).
  apply (wf_child_parent _ Hd1) in Hc. rewrite parentOf_foldl_remove in Hc.
  case_decide as Hin; [done|]. apply Hin. now apply (wf_parent_child _ Hd).
Qed.

(** Creating a node *)
Lemma parentOf_createElement d t a x : parentOf (createElement d t a).1 x = parentOf d x.
Proof.
  unfold parentOf, createElement. simpl.
  destruct (decide (x < length (nodes d))) as [H|H].
  - now rewrite lookup_app_l.
  - rewrite lookup_app_r by lia. rewrite (lookup_ge_None_2 (nodes d)) by lia.
    destruct (x - length (nodes d)) as [|k]; done.
Qed.

Lemma childrenOf_createElement d t a x : childrenOf (createElement d t a).1 x = childrenOf d x.
Proof.
  unfold childrenOf, createElement. simpl.
  destruct (decide (x < length (nodes d))) as [H|H].
  - now rewrite lookup_app_l.
  - rewrite lookup_app_r by lia. rewrite (lookup_ge_None_2 (nodes d)) by lia.
    destruct (x - length (nodes d)) as [|k]; done.
Qed.

Lemma staticOf_createElement d t a x :
  staticOf (createElement d t a).1 x
  = if decide (x = length (nodes d)) then Some (Element, t, EmptyString, a) else staticOf d x.
Proof.
  unfold staticOf, createElement. simpl.
  destruct (decide (x < length (nodes d))) as [H|H].
  - rewrite lookup_app_l by done. rewrite decide_False by lia. done.
  - rewrite lookup_app_r by lia. case_decide as Hx.
    + subst. now rewrite Nat.sub_diag.
    + rewrite (lookup_ge_None_2 (nodes d)) by lia.
      destruct (x - length (nodes d)) as [|k] eqn:E; [lia|done].
Qed.

Lemma wf_createElement d t a : wf d -> wf (createElement d t a).1.
Proof.
  intros [W1 W2 W3 W4]. split; [| | |intros n Hn; rewrite parentOf_createElement;
    destruct (decide (n < length (nodes d))) as [Hlt|Hge];
    [apply W4; revert Hn; unfold isFragment, typeOf, createElement; simpl;
     now rewrite lookup_app_l by done
    |unfold parentOf; now rewrite lookup_ge_None_2 by lia]].
  - intros p c. rewrite childrenOf_createElement, parentOf_createElement. auto.
  - intros c p. rewrite childrenOf_createElement, parentOf_createElement. auto.
  - intros p. rewrite childrenOf_createElement. auto.
Qed.

Lemma parentOf_createTextNode d v x : parentOf (createTextNode d v).1 x = parentOf d x.
Proof.
  unfold parentOf, createTextNode. simpl.
  destruct (decide (x < length (nodes d))) as [H|H].
  - now rewrite lookup_app_l.
  - rewrite lookup_app_r by lia. rewrite (lookup_ge_None_2 (nodes d)) by lia.
    destruct (x - length (nodes d)) as [|k]; done.
Qed.

Lemma childrenOf_createTextNode d v x : childrenOf (createTextNode d v).1 x = childrenOf d x.
Proof.
  unfold childrenOf, createTextNode. simpl.
  destruct (decide (x < length (nodes d))) as [H|H].
  - now rewrite lookup_app_l.
  - rewrite lookup_app_r by lia. rewrite (lookup_ge_None_2 (nodes d)) by lia.
    destruct (x - length (nodes d)) as [|k]; done.
Qed.

Lemma wf_createTextNode d v : wf d -> wf (createTextNode d v).1.
Proof.
  intros [W1 W2 W3 W4]. split; [| | |intros n Hn; rewrite parentOf_createTextNode;
    destruct (decide (n < length (nodes d))) as [Hlt|Hge];
    [apply W4; revert Hn; unfold isFragment, typeOf, createTextNode; simpl;
     now rewrite lookup_app_l by done
    |unfold parentOf; now rewrite lookup_ge_None_2 by lia]].
  - intros p c. rewrite childrenOf_createTextNode, parentOf_createTextNode. auto.
  - intros c p. rewrite childrenOf_createTextNode, parentOf_createTextNode. auto.
  - intros p. rewrite childrenOf_createTextNode. auto.
Qed.

(** Insertion *)
Lemma staticOf_insert d node p child x : staticOf (insert d node p child) x = staticOf d x.
Proof.
  unfold insert. case_bool_decide; [done|].
  destruct child; rewrite staticOf_attach; destruct (isFragment d node);
    try done; apply staticOf_foldl_remove.
Qed.

Lemma wf_insert d node p child :
  wf d -> is_Some (nodes d !! p) ->
  (isFragment d node = false -> parentOf d node = None /\ is_Some (nodes d !! node)) ->
  wf (insert d node p child).
Proof.
  intros Hd Hp Hnode. unfold insert. case_bool_decide as Hcount; [done|].
  destruct (isFragment d node) eqn:F.
  - assert (wf (foldl remove d (childrenOf d node))) as Hd1 by now apply wf_foldl_remove.
    assert (is_Some (nodes (foldl remove d (childrenOf d node)) !! p)) as Hp1.
    { apply is_Some_staticOf. rewrite staticOf_foldl_remove. now apply is_Some_staticOf. }
    assert (forall n, n ∈ childrenOf d node ->
              parentOf (foldl remove d (childrenOf d node)) n = None
              /\ is_Some (nodes (foldl remove d (childrenOf d node)) !! n)) as Hns.
    { intros n Hn. split.
      - rewrite parentOf_foldl_remove. now rewrite decide_True.
      - apply is_Some_staticOf. rewrite staticOf_foldl_remove. apply is_Some_staticOf.
        eapply parentOf_exists, (wf_child_parent _ Hd), Hn. }
    pose proof (wf_nodup _ Hd node) as Hnd.
    assert (forall n, n ∈ childrenOf d node ->
              isFragment (foldl remove d (childrenOf d node)) n = false) as Hnf.
    { intros n Hn. rewrite (isFragment_staticOf _ d) by apply staticOf_foldl_remove.
      destruct (isFragment d n) eqn:Fn; [|done].
      apply (wf_fragment _ Hd) in Fn. apply (wf_child_parent _ Hd) in Hn. congruence. }
    destruct child; apply wf_attach; auto.
    eapply wf_same_nodes; [|exact Hd1]. reflexivity.
  - destruct (Hnode eq_refl) as [Hn He].
    assert (forall n, n ∈ [node] -> parentOf d n = None /\ is_Some (nodes d !! n)) as Hns.
    { intros n Hin. apply list_elem_of_singleton in Hin. now subst. }
    assert (forall n, n ∈ [node] -> isFragment d n = false) as Hnf.
    { intros n Hin. apply list_elem_of_singleton in Hin. now subst. }
    destruct child; apply wf_attach; auto; try apply NoDup_singleton.
    eapply wf_same_nodes; [|exact Hd]. reflexivity.
Qed.


Lemma childrenOf_insert_single d node p child q :
  isFragment d node = false -> is_Some (nodes d !! p) ->
  childrenOf (insert d node p child) q
  = if decide (q = p) then insertAt (insertIndex d p child) [node] (childrenOf d p)
    else childrenOf d q.
Proof.
  intros F [pd Hp]. unfold insert. rewrite F. simpl.
  destruct child; rewrite childrenOf_attach; simpl; rewrite Hp; reflexivity.
Qed.

Lemma parentOf_insert_single d node p child x :
  isFragment d node = false -> is_Some (nodes d !! node) ->
  parentOf (insert d node p child) x = if decide (x = node) then Some p else parentOf d x.
Proof.
  intros F [nd Hn]. unfold insert. rewrite F. simpl.
  destruct child; rewrite parentOf_attach; simpl;
    (destruct (decide (x ∈ [node])) as [Hin|Hin];
     [apply list_elem_of_singleton in Hin; subst; rewrite Hn, decide_True by done; done
     |rewrite decide_False; [done|intros ->; apply Hin; left]]).
Qed.

(** Inversion of successful monadic steps *)
Lemma bind_Ok {A B} (m : result A) (f : A -> result B) b :
  m ≫= f = Ok b -> exists a, m = Ok a /\ f a = Ok b.
Proof. destruct m as [a|e]; simpl; [eauto|discriminate]. Qed.

Lemma fmap_Ok {A B} (g : A -> B) (m : result A) b :
  g <$> m = Ok b -> exists a, m = Ok a /\ b = g a.
Proof. destruct m as [a|e]; simpl; [intros [= <-]; eauto|discriminate]. Qed.

Lemma deref_Ok {A} (o : option A) a : deref o = Ok a -> o = Some a.
Proof. destruct o; simpl; congruence. Qed.

Lemma range_Ok d r rg : range d r = Ok rg -> ranges d !! r = Some rg.
Proof. unfold range. destruct (ranges d !! r); congruence. Qed.

(** Validity of an insertion and what a successful pre-insert does *)
Lemma validity_Ok d node p child :
  ensurePreInsertionValidity d node p child = Ok tt ->
  is_Some (nodes d !! p) /\ is_Some (nodes d !! node)
  /\ typeOf d p <> Some Text
  /\ isInclusiveAncestor d node p = false
  /\ (forall c, child = Some c -> parentOf d c = Some p).
Proof.
  unfold ensurePreInsertionValidity, typeOf.
  destruct (nodes d !! p) as [pd|] eqn:Hp; simpl; [|discriminate].
  destruct (nodes d !! node) as [nd|] eqn:Hn; simpl; [|destruct (nodeType pd); discriminate].
  destruct (nodeType pd) eqn:Tp; try discriminate;
    (destruct (isInclusiveAncestor d node p) eqn:Ha; [discriminate|]);
    (destruct child as [c|]; [case_bool_decide; [|discriminate]|]);
    intros _; repeat split; eauto; try congruence; intros ? [= <-]; auto.
Qed.

Lemma preInsert_Ok d node p child d' :
  preInsert d node p child = Ok d' ->
  ensurePreInsertionValidity d node p child = Ok tt
  /\ d' = insert (remove d node) node p
             (if bool_decide (child = Some node) then nextSibling d node else child).
Proof.
  unfold preInsert. intros H. apply bind_Ok in H as ([] & Hv & H). injection H as <-. auto.
Qed.

Lemma wf_preInsert d node p child d' : wf d -> preInsert d node p child = Ok d' -> wf d'.
Proof.
  intros Hd H. apply preInsert_Ok in H as [Hv ->].
  apply validity_Ok in Hv as (Hp & Hn & _).
  apply wf_insert.
  - now apply wf_remove.
  - apply is_Some_staticOf. rewrite staticOf_remove. now apply is_Some_staticOf.
  - intros _. split.
    + rewrite parentOf_remove. now rewrite decide_True.
    + apply is_Some_staticOf. rewrite staticOf_remove. now apply is_Some_staticOf.
Qed.

Lemma staticOf_preInsert d node p child d' x :
  preInsert d node p child = Ok d' -> staticOf d' x = staticOf d x.
Proof.
  intros H. apply preInsert_Ok in H as [_ ->]. now rewrite staticOf_insert, staticOf_remove.
Qed.

Lemma wf_insertBefore d p node child d' n :
  wf d -> insertBefore d p node child = Ok (d', n) -> wf d'.
Proof.
  unfold insertBefore. intros Hd H. apply bind_Ok in H as (d1 & H1 & [= <- <-]).
  eauto using wf_preInsert.
Qed.

Lemma wf_appendChild d p node d' n : wf d -> appendChild d p node = Ok (d', n) -> wf d'.
Proof.
  unfold appendChild. intros Hd H. apply bind_Ok in H as (d1 & H1 & [= <- <-]).
  eauto using wf_preInsert.
Qed.

Lemma replaceChild_Ok d p node child d' :
  replaceChild d p node child = Ok d' ->
  is_Some (nodes d !! p) /\ is_Some (nodes d !! node)
  /\ isInclusiveAncestor d node p = false
  /\ parentOf d child = Some p
  /\ d' = insert (remove (remove d node) child) node p
             (if bool_decide (nextSibling d child = Some node) then nextSibling d node
              else nextSibling d child).
Proof.
  unfold replaceChild, typeOf.
  destruct (nodes d !! p) as [pd|] eqn:Hp; simpl; [|discriminate].
  destruct (nodes d !! node) as [nd|] eqn:Hn; simpl; [|destruct (nodeType pd); discriminate].
  destruct (isInclusiveAncestor d node p) eqn:Ha; [destruct (nodeType pd); discriminate|].
  case_bool_decide as Hc; simpl; [|destruct (nodeType pd); discriminate].
  destruct (nodeType pd); try discriminate; intros [= <-]; repeat split; eauto.
Qed.

Lemma wf_replaceChild d p node child d' : wf d -> replaceChild d p node child = Ok d' -> wf d'.
Proof.
  intros Hd H. apply replaceChild_Ok in H as (Hp & Hn & _ & _ & ->).
  apply wf_insert.
  - auto using wf_remove.
  - apply is_Some_staticOf. rewrite !staticOf_remove. now apply is_Some_staticOf.
  - intros _. split.
    + rewrite !parentOf_remove. case_decide; [done|]. now rewrite decide_True.
    + apply is_Some_staticOf. rewrite !staticOf_remove. now apply is_Some_staticOf.
Qed.

(** Text data *)
Lemma replaceData_Ok d n o c s d' :
  replaceData d n o c s = Ok d' ->
  (forall x, parentOf d' x = parentOf d x)
  /\ (forall x, childrenOf d' x = childrenOf d x)
  /\ (forall x, x <> n -> staticOf d' x = staticOf d x)
  /\ (forall x, typeOf d' x = typeOf d x)
  /\ length (nodes d') = length (nodes d).
Proof.
  unfold replaceData. destruct (_ <? _); [discriminate|]. intros [= <-].
  unfold parentOf, childrenOf, staticOf, typeOf. simpl.
  repeat split; intros; rewrite ?length_alter; try done;
    rewrite list_lookup_alter; case_decide; subst; destruct_lookups; done.
Qed.

Lemma wf_same_shape d d' :
  (forall x, parentOf d' x = parentOf d x) -> (forall x, childrenOf d' x = childrenOf d x) ->
  (forall x, typeOf d' x = typeOf d x) ->
  wf d -> wf d'.
Proof.
  intros Hp Hc Ht [W1 W2 W3 W4].
  split; unfold isFragment; intros *; rewrite ?Hp, ?Hc, ?Ht; auto.
Qed.

Lemma wf_replaceData d n o c s d' : wf d -> replaceData d n o c s = Ok d' -> wf d'.
Proof.
  intros Hd H. apply replaceData_Ok in H as (Hp & Hc & _ & Ht & _). eauto using wf_same_shape.
Qed.

Lemma wf_splitText d n o d' n' : wf d -> splitText d n o = Ok (d', n') -> wf d'.
Proof.
  unfold splitText. intros Hd. destruct (_ <? _); [discriminate|].
  destruct (createTextNode d _) as [d1 newNode] eqn:Hc.
  assert (d1 = (createTextNode d (substring o (String.length (valueOf d n) - o) (valueOf d n))).1
          /\ newNode = length (nodes d)) as [Hd1 Hnew].
  { unfold createTextNode in *. now injection Hc as <- <-. }
  intros H. apply bind_Ok in H as (d3 & H3 & [= <- <-]).
  eapply wf_replaceData; [|exact H3].
  assert (wf d1) as Hwf1 by (subst d1; now apply wf_createTextNode).
  destruct (parentOf d1 n) as [parent|] eqn:Hpar; [|done].
  eapply wf_same_nodes; [|apply (wf_insert d1 newNode parent (nextSibling d1 n))]; auto.
  - eapply childrenOf_exists, (wf_parent_child _ Hwf1), Hpar.
  - intros _. subst d1 newNode. split.
    + rewrite parentOf_createTextNode. unfold parentOf.
      now rewrite (lookup_ge_None_2 (nodes d)).
    + unfold createTextNode. simpl. rewrite lookup_app_r, Nat.sub_diag by done. eauto.
Qed.

(** Range methods leave the tree alone or go through the mutation algorithms *)
Lemma wf_rangeSetEndAfter d r n d' : wf d -> rangeSetEndAfter d r n = Ok d' -> wf d'.
Proof.
  unfold rangeSetEndAfter. intros Hd H. apply bind_Ok in H as (rg & _ & H).
  destruct (parentOf d n); [|discriminate]. injection H as <-.
  eapply wf_same_nodes; [|exact Hd]. reflexivity.
Qed.

Lemma wf_rangeCollapse d r b d' : wf d -> rangeCollapse d r b = Ok d' -> wf d'.
Proof.
  unfold rangeCollapse. intros Hd H. apply bind_Ok in H as (rg & _ & [= <-]).
  eapply wf_same_nodes; [|exact Hd]. reflexivity.
Qed.

Lemma wf_createRange d s e d' r : wf d -> createRange d s e = Ok (d', r) -> wf d'.
Proof.
  unfold createRange. intros Hd. destruct (_ || _); [discriminate|]. intros [= <- <-].
  eapply wf_same_nodes; [|exact Hd]. reflexivity.
Qed.

Lemma wf_rangeDeleteContents d r d' : wf d -> rangeDeleteContents d r = Ok d' -> wf d'.
Proof.
  unfold rangeDeleteContents. intros Hd H. apply bind_Ok in H as (rg & _ & H).
  destruct (collapsed rg); [now injection H as <-|].
  destruct (_ && _); [eauto using wf_replaceData|].
  apply bind_Ok in H as (d1 & H1 & H). apply bind_Ok in H as (d3 & H3 & [= <-]).
  apply (wf_same_nodes d3); [reflexivity|].
  assert (wf d1) as Hd1.
  { match type of H1 with (if ?b then _ else _) = _ => destruct b end;
      [eauto using wf_replaceData|now injection H1 as <-]. }
  match type of H3 with
  | (if _ then _ else Ok ?d2) = _ => assert (wf d2) as Hd2 by now apply wf_foldl_remove
  end.
  match type of H3 with (if ?b then _ else _) = _ => destruct b end;
    [eauto using wf_replaceData|now injection H3 as <-].
Qed.

Lemma wf_rangeInsertNode d r node d' : wf d -> rangeInsertNode d r node = Ok d' -> wf d'.
Proof.
  unfold rangeInsertNode. intros Hd H. apply bind_Ok in H as (rg & _ & H).
  destruct (_ || _); [discriminate|].
  apply bind_Ok in H as (parent & _ & H). apply bind_Ok in H as ([] & _ & H).
  apply bind_Ok in H as ([d1 ref] & H1 & H).
  apply bind_Ok in H as (d3 & H3 & H). apply bind_Ok in H as (rg3 & _ & [= <-]).
  assert (wf d1) as Hd1.
  { match type of H1 with (if ?b then _ else _) = _ => destruct b end;
      [|now injection H1 as <- _].
    apply bind_Ok in H1 as ([d0 n0] & H0 & [= <- _]). eauto using wf_splitText. }
  assert (wf d3) as Hd3 by (eapply wf_preInsert; [|exact H3]; now apply wf_remove).
  destruct (collapsed rg3); [|done]. eapply wf_same_nodes; [|exact Hd3]. reflexivity.
Qed.

(** roosterjs-editor-dom helpers *)
Lemma wf_foldlM_appendChild p l : forall d d',
  wf d -> foldlM (fun acc c => fst <$> appendChild acc p c) d l = Ok d' -> wf d'.
Proof.
  induction l as [|c l IH]; intros d d' Hd H; simpl in H.
  - now injection H as <-.
  - apply bind_Ok in H as (d1 & H1 & H). apply fmap_Ok in H1 as ([d0 n0] & H0 & ->).
    eapply IH; [|exact H]. eauto using wf_appendChild.
Qed.

Lemma wf_changeElementTag d e t d' n : wf d -> changeElementTag d e t = Ok (d', n) -> wf d'.
Proof.
  unfold changeElementTag. intros Hd.
  destruct (createElement d _ _) as [d1 ne] eqn:Hc.
  assert (wf d1) as Hd1.
  { unfold createElement in Hc. injection Hc as <- <-. now apply (wf_createElement d). }
  intros H. apply bind_Ok in H as (d2 & H2 & H). apply bind_Ok in H as (d3 & H3 & [= <- <-]).
  assert (wf d2) as Hd2 by eauto using wf_foldlM_appendChild.
  destruct (parentOf d2 e); [eauto using wf_replaceChild|now injection H3 as <-].
Qed.

Lemma wf_wrap d n t d' w : wf d -> wrap d n t = Ok (d', w) -> wf d'.
Proof.
  unfold wrap. intros Hd.
  destruct (createElement d _ _) as [d1 ne] eqn:Hc.
  assert (wf d1) as Hd1.
  { unfold createElement in Hc. injection Hc as <- <-. now apply (wf_createElement d). }
  intros H. apply bind_Ok in H as (d2 & H2 & H). apply bind_Ok in H as (d3 & H3 & [= <- <-]).
  assert (wf d2) as Hd2.
  { destruct (parentOf d1 n); [|now injection H2 as <-].
    apply fmap_Ok in H2 as ([da na] & Ha & ->). eauto using wf_insertBefore. }
  apply fmap_Ok in H3 as ([db nb] & Hb & ->). eauto using wf_appendChild.
Qed.

Lemma nodes_selectBoundaries core d s e :
  nodes (selectBoundaries core d s e).1 = nodes d.
Proof.
  unfold selectBoundaries. destruct (_ && _); [|done].
  destruct (createRange d s e) as [[d' r]|] eqn:H; [|done].
  unfold createRange in H. destruct (_ || _); [discriminate|]. now injection H as <- <-.
Qed.

Lemma nodes_selectNode core d n pt : nodes (selectNode core d n pt).1 = nodes d.
Proof.
  unfold selectNode. destruct (Position.ofNode d n pt); [apply nodes_selectBoundaries|done].
Qed.

Lemma nodes_selectRange core d sr : nodes (selectRange core d sr).1 = nodes d.
Proof. apply nodes_selectBoundaries. Qed.

End DomFacts.

Ltac destruct_if_in H :=
  match type of H with
  | (if ?b then _ else _) = _ => destruct b eqn:?
  | (match ?b with Some _ => _ | None => _ end) = _ => destruct b eqn:?
  end.

Section InsertNodeFacts.
Context `{lib : EditorLib}.

Theorem wf_insertNodeAtSelection core d node opt d' :
  wf d -> insertNodeAtSelection core d node opt = Ok d' -> wf d'.
Proof.
  unfold insertNodeAtSelection. intros Hd H.
  destruct (match getLiveRange core d with Some r => Some r | None => cachedRange core end)
    as [rawRange|]; [|now injection H as <-].
  apply bind_Ok in H as (rg0 & _ & H). apply bind_Ok in H as (d1 & H1 & H).
  apply bind_Ok in H as (rg & _ & H). apply bind_Ok in H as ([d2 r2] & H2 & H).
  apply bind_Ok in H as (d3 & H3 & H).
  assert (wf d1) as Hd1.
  { destruct_if_in H1; [eauto using wf_rangeDeleteContents|now injection H1 as <-]. }
  assert (wf d2) as Hd2.
  { destruct_if_in H2; [|now injection H2 as <- _].
    destruct_if_in H2.
    - apply bind_Ok in H2 as (da & Ha & H2). apply bind_Ok in H2 as (db & Hb & [= <- _]).
      eauto using wf_rangeSetEndAfter, wf_rangeCollapse.
    - destruct_if_in H2; [|now injection H2 as <- _].
      apply bind_Ok in H2 as ([da div] & Ha & H2).
      assert (wf da) by eauto using wf_changeElementTag.
      destruct_if_in H2; [|now injection H2 as <- _].
      unfold SelectionRange.getRange in H2. eauto using wf_createRange. }
  assert (wf d3) as Hd3 by eauto using wf_rangeInsertNode.
  destruct_if_in H; injection H as <-;
    (eapply wf_same_nodes; [|exact Hd3]); symmetry;
    [apply nodes_selectNode|apply nodes_selectRange].
Qed.

End InsertNodeFacts.

Section StringFacts.

Lemma substring_zero_length (s : string) : forall n, substring n 0 s = EmptyString.
Proof. induction s as [|c s IH]; intros [|n]; simpl; auto. Qed.

Lemma append_empty_r (s : string) : s +:+ EmptyString = s.
Proof.
  induction s as [|c s IH]; [done|].
  change (String c s +:+ EmptyString) with (String c (s +:+ EmptyString)). now rewrite IH.
Qed.

Lemma substring_all (s : string) : substring 0 (String.length s) s = s.
Proof. induction s as [|c s IH]; simpl; [done|]. now rewrite IH. Qed.

(** The two halves of a string cut at [o] give the string back. *)
Lemma substring_split (s : string) : forall o,
  o <= String.length s ->
  substring 0 o s +:+ substring o (String.length s - o) s = s.
Proof.
  induction s as [|c s IH]; intros [|o] Ho.
  - reflexivity.
  - simpl in Ho. lia.
  - now rewrite substring_zero_length, Nat.sub_0_r, substring_all.
  - simpl in Ho.
    change (String c (substring 0 o s +:+ substring o (String.length s - o) s) = String c s).
    f_equal. apply IH. lia.
Qed.

Lemma length_append (a b : string) :
  String.length (a +:+ b) = String.length a + String.length b.
Proof.
  induction a as [|c a IH]; [reflexivity|].
  change (S (String.length (a +:+ b)) = S (String.length a + String.length b)). now rewrite IH.
Qed.

Lemma length_substring (s : string) : forall n m,
  n + m <= String.length s -> String.length (substring n m s) = m.
Proof.
  induction s as [|c s IH]; intros [|n] [|m] H; simpl in *; try lia; try reflexivity.
  - f_equal. apply (IH 0 m). lia.
  - apply (IH n 0). lia.
  - apply (IH n (S m)). lia.
Qed.

Lemma substring_append_prefix (a b : string) : substring 0 (String.length a) (a +:+ b) = a.
Proof.
  induction a as [|c a IH]; [apply substring_zero_length|].
  change (String c (substring 0 (String.length a) (a +:+ b)) = String c a). now rewrite IH.
Qed.

Lemma substring_append_suffix (a b : string) :
  substring (String.length a) (String.length b) (a +:+ b) = b.
Proof.
  induction a as [|c a IH]; [apply substring_all|]. exact IH.
Qed.

End StringFacts.

Section AncestorFacts.

Lemma isInclusiveAncestorFuel_sound fuel d a : forall n,
  isInclusiveAncestorFuel fuel d a n = true -> Ancestor d a n.
Proof.
  induction fuel as [|f IH]; intros n; simpl; case_decide; subst;
    try (intros _; constructor); try discriminate.
  destruct (parentOf d n) as [p|] eqn:E; [|discriminate].
  intros Hp. eapply Ancestor_parent; eauto.
Qed.

Lemma not_Ancestor_check d a n : ~ Ancestor d a n -> isInclusiveAncestor d a n = false.
Proof.
  intros H. destruct (isInclusiveAncestor d a n) eqn:E; [|done].
  exfalso. apply H. eapply isInclusiveAncestorFuel_sound, E.
Qed.

Lemma Ancestor_transfer d d' a n :
  (forall x, x <> a -> Ancestor d' x n -> parentOf d' x = parentOf d x) ->
  Ancestor d' a n -> Ancestor d a n.
Proof.
  intros Hsame H. induction H as [|n p Hp H IH]; [constructor|].
  destruct (decide (n = a)) as [->|Hne]; [constructor|].
  apply Ancestor_parent with p.
  - rewrite <- Hsame; [done|done|constructor].
  - apply IH. intros x Hx Hanc. apply Hsame; [done|]. eapply Ancestor_parent; eauto.
Qed.

Lemma Ancestor_childless d a n :
  (forall x, parentOf d x <> Some a) -> Ancestor d a n -> a = n.
Proof.
  intros Hno H. induction H as [|n p Hp H IH]; [done|].
  subst. exfalso. eapply Hno, Hp.
Qed.

Lemma wf_parent_lt d x p : wf d -> parentOf d x = Some p -> p < length (nodes d).
Proof.
  intros Hd Hp. apply lookup_lt_is_Some.
  eapply childrenOf_exists, (wf_parent_child _ Hd), Hp.
Qed.

Lemma remove_detached d n : parentOf d n = None -> remove d n = d.
Proof. unfold remove. now intros ->. Qed.

Lemma preInsert_success d p node child :
  is_Some (nodes d !! p) -> typeOf d p <> Some Text ->
  is_Some (nodes d !! node) ->
  ~ Ancestor d node p ->
  (forall c, child = Some c -> parentOf d c = Some p) ->
  preInsert d node p child
  = Ok (insert (remove d node) node p
          (if bool_decide (child = Some node) then nextSibling d node else child)).
Proof.
  intros [pd Hp] Tp [nd Hn] Hanc Hc.
  unfold preInsert, ensurePreInsertionValidity, typeOf in *.
  rewrite Hp, Hn in *. simpl in *.
  rewrite (not_Ancestor_check _ _ _ Hanc).
  destruct (nodeType pd); try congruence;
    (destruct child as [c|]; [rewrite (bool_decide_eq_true_2 (parentOf d c = Some p)) by auto|]);
    reflexivity.
Qed.

Lemma insertBefore_fresh d p node child :
  is_Some (nodes d !! p) -> typeOf d p <> Some Text ->
  is_Some (nodes d !! node) ->
  parentOf d node = None ->
  ~ Ancestor d node p ->
  (forall c, child = Some c -> parentOf d c = Some p) ->
  insertBefore d p node child = Ok (insert d node p child, node).
Proof.
  intros [pd Hp] Tp [nd Hn] Hpar Hanc Hc.
  unfold insertBefore, preInsert, ensurePreInsertionValidity, typeOf in *.
  rewrite Hp, Hn in *. simpl in *.
  rewrite (not_Ancestor_check _ _ _ Hanc).
  assert (child <> Some node) as Hcn.
  { intros ->. specialize (Hc node eq_refl). congruence. }
  rewrite (bool_decide_eq_false_2 _ Hcn), (remove_detached _ _ Hpar).
  destruct (nodeType pd); try congruence;
    (destruct child as [c|]; [rewrite bool_decide_eq_true_2 by auto|]); reflexivity.
Qed.

Lemma appendChild_fresh d p node :
  is_Some (nodes d !! p) -> typeOf d p <> Some Text ->
  is_Some (nodes d !! node) ->
  parentOf d node = None ->
  ~ Ancestor d node p ->
  appendChild d p node = Ok (insert d node p None, node).
Proof.
  intros. apply (insertBefore_fresh d p node None); auto. discriminate.
Qed.

(** List facts used to locate a node among its siblings *)
Lemma indexIn_app_r l1 l2 (n : nat) : n ∉ l1 -> indexIn (l1 ++ n :: l2) n = length l1.
Proof.
  induction l1 as [|x l1 IH]; simpl; intros Hn.
  - now rewrite decide_True.
  - rewrite decide_False by (intros ->; apply Hn; left).
    rewrite IH; [done|]. intros H. apply Hn. now right.
Qed.

Lemma filter_ne_notin (l : list nat) n : n ∉ l -> filter (fun c => c <> n) l = l.
Proof.
  induction l as [|x l IH]; intros Hn; [done|].
  rewrite filter_cons_True by (intros ->; apply Hn; left).
  rewrite IH; [done|]. intros H. apply Hn. now right.
Qed.

Lemma insertAt_app {A} (l1 l2 xs : list A) : insertAt (length l1) xs (l1 ++ l2) = l1 ++ xs ++ l2.
Proof. unfold insertAt. now rewrite take_app_length, drop_app_length. Qed.

Lemma NoDup_app_cons_notin (l1 l2 : list nat) n :
  NoDup (l1 ++ n :: l2) -> (n ∉ l1) /\ (n ∉ l2).
Proof.
  intros H. apply NoDup_app in H as (_ & H1 & H2). apply NoDup_cons in H2 as [H2 _].
  split; [|done]. intros Hin. apply (H1 n Hin). left.
Qed.

Lemma typeOf_of_static d x t tg v a :
  staticOf d x = Some (t, tg, v, a) -> typeOf d x = Some t.
Proof.
  unfold staticOf, typeOf, static. destruct (nodes d !! x); simpl; [|done].
  now intros [= -> _ _ _].
Qed.

Lemma getTagOfNode_of_static d x tg v a :
  staticOf d x = Some (Element, tg, v, a) -> getTagOfNode d x = toUpperCase tg.
Proof.
  unfold staticOf, getTagOfNode, static. destruct (nodes d !! x); simpl; [|done].
  now intros [= -> -> _ _].
Qed.

(** wrap on a node that sits under a parent: a new DIV takes the node's
    place and holds the node as its only child. *)
Lemma wrap_attached d n p :
  wf d -> parentOf d n = Some p -> typeOf d p <> Some Text -> ~ Ancestor d n p ->
  isFragment d n = false ->
  let w := length (nodes d) in
  exists d3,
    wrap d n HTML_EMPTY_DIV = Ok (d3, w)
    /\ staticOf d3 w = Some (Element, "DIV"%string, EmptyString, [])
    /\ childrenOf d3 w = [n]
    /\ parentOf d3 n = Some w
    /\ parentOf d3 w = Some p
    /\ (forall l1 l2, childrenOf d p = l1 ++ n :: l2 -> childrenOf d3 p = l1 ++ w :: l2)
    /\ (forall q, q <> p -> q <> w -> childrenOf d3 q = childrenOf d q)
    /\ (forall x, x <> n -> x <> w -> parentOf d3 x = parentOf d x)
    /\ (forall x, x <> w -> staticOf d3 x = staticOf d x).
Proof.
  intros Hd Hpar Tp Hanc Hfrag w.
  pose proof (wf_parent_lt _ _ _ Hd Hpar) as Hplt.
  assert (n < length (nodes d)) as Hnlt
    by (apply lookup_lt_is_Some; eauto using parentOf_exists).
  set (d1 := (createElement d "DIV" []).1).
  assert (wf d1) as Hd1 by now apply wf_createElement.
  assert (forall x, parentOf d1 x = parentOf d x) as P1 by apply parentOf_createElement.
  assert (forall x, childrenOf d1 x = childrenOf d x) as C1 by apply childrenOf_createElement.
  assert (forall x, staticOf d1 x
            = if decide (x = w) then Some (Element, "DIV"%string, EmptyString, [])
              else staticOf d x) as S1 by apply staticOf_createElement.
  assert (forall x, parentOf d x <> Some w) as Hfresh.
  { intros x Hx. apply (wf_parent_lt _ _ _ Hd) in Hx. unfold w in Hx. lia. }
  assert (parentOf d w = None) as Hw.
  { unfold parentOf. now rewrite lookup_ge_None_2. }
  (* first step: the wrapper goes in front of the node *)
  assert (insertBefore d1 p w (Some n) = Ok (insert d1 w p (Some n), w)) as Hib.
  { apply insertBefore_fresh.
    - apply is_Some_staticOf. rewrite S1. rewrite decide_False by lia.
      apply is_Some_staticOf, lookup_lt_is_Some, Hplt.
    - rewrite (typeOf_staticOf d1 d); [done|]. rewrite S1. now rewrite decide_False by lia.
    - apply is_Some_staticOf. rewrite S1. rewrite decide_True by done. eauto.
    - now rewrite P1.
    - intros Ha. apply Ancestor_childless in Ha; [unfold w in Ha; lia|].
      intros x. rewrite P1. apply Hfresh.
    - intros c [= <-]. now rewrite P1. }
  set (d2 := insert d1 w p (Some n)) in *.
  assert (isFragment d1 w = false) as Fw.
  { pose proof (S1 w) as Sw. rewrite decide_True in Sw by done.
    unfold isFragment. now rewrite (typeOf_of_static _ _ _ _ _ _ Sw). }
  assert (is_Some (nodes d1 !! p)) as Ep.
  { apply is_Some_staticOf. rewrite S1. rewrite decide_False by lia.
    apply is_Some_staticOf, lookup_lt_is_Some, Hplt. }
  assert (is_Some (nodes d1 !! w)) as Ew.
  { apply is_Some_staticOf. rewrite S1. rewrite decide_True by done. eauto. }
  assert (forall x, parentOf d2 x = if decide (x = w) then Some p else parentOf d x) as P2.
  { intros x. unfold d2. rewrite parentOf_insert_single by done. now rewrite P1. }
  assert (forall q, childrenOf d2 q
            = if decide (q = p) then insertAt (indexIn (childrenOf d p) n) [w] (childrenOf d p)
              else childrenOf d q) as C2.
  { intros q. unfold d2. rewrite childrenOf_insert_single by done. simpl. now rewrite !C1. }
  assert (forall x, staticOf d2 x = staticOf d1 x) as S2 by (intros; apply staticOf_insert).
  (* second step: the node moves into the wrapper *)
  assert (~ Ancestor d2 n w) as Hanc2.
  { intros Ha. inversion Ha as [|? p' Hp' Ha']; subst; [unfold w in *; lia|].
    rewrite P2, decide_True in Hp' by done. injection Hp' as <-.
    apply Hanc. eapply Ancestor_transfer; [|exact Ha'].
    intros x Hx Hax. rewrite P2. case_decide as Hxw; [|done]. subst x. exfalso.
    apply Ancestor_childless in Hax; [unfold w in *; lia|].
    intros y. rewrite P2. case_decide; [intros [= ->]; unfold w in *; lia|apply Hfresh]. }
  assert (preInsert d2 n w None = Ok (insert (remove d2 n) n w None)) as Hpi.
  { rewrite preInsert_success; auto.
    - apply is_Some_staticOf. rewrite S2. now apply is_Some_staticOf.
    - rewrite (typeOf_staticOf d2 d1) by apply S2.
      pose proof (S1 w) as Sw. rewrite decide_True in Sw by done.
      now rewrite (typeOf_of_static _ _ _ _ _ _ Sw).
    - apply is_Some_staticOf. rewrite S2, S1. rewrite decide_False by (unfold w; lia).
      apply is_Some_staticOf, lookup_lt_is_Some, Hnlt.
    - discriminate. }
  set (d3 := insert (remove d2 n) n w None) in *.
  assert (isFragment (remove d2 n) n = false) as Fn.
  { rewrite (isFragment_staticOf _ d); [done|].
    rewrite staticOf_remove, S2, S1. now rewrite decide_False by (unfold w; lia). }
  assert (is_Some (nodes (remove d2 n) !! w)) as Ew3.
  { apply is_Some_staticOf. rewrite staticOf_remove, S2. now apply is_Some_staticOf. }
  assert (is_Some (nodes (remove d2 n) !! n)) as En3.
  { apply is_Some_staticOf. rewrite staticOf_remove, S2, S1.
    rewrite decide_False by (unfold w; lia). apply is_Some_staticOf, lookup_lt_is_Some, Hnlt. }
  assert (parentOf d2 n = Some p) as Pn2.
  { rewrite P2. now rewrite decide_False by (unfold w; lia). }
  exists d3. repeat split.
  - unfold wrap. change (createElement d (templateTag HTML_EMPTY_DIV)
                           (templateAttributes HTML_EMPTY_DIV))
      with (d1, w). cbv beta iota. rewrite P1, Hpar. rewrite Hib. simpl.
    unfold appendChild. rewrite Hpi. reflexivity.
  - unfold d3. rewrite staticOf_insert, staticOf_remove, S2, S1. now rewrite decide_True.
  - unfold d3. rewrite childrenOf_insert_single by done. rewrite decide_True by done.
    simpl. rewrite childrenOf_remove, Pn2.
    rewrite decide_False by (intros [= ->]; unfold w in *; lia).
    rewrite C2. rewrite decide_False by (unfold w in *; lia).
    assert (childrenOf d w = []) as ->.
    { unfold childrenOf. now rewrite lookup_ge_None_2. }
    reflexivity.
  - unfold d3. rewrite parentOf_insert_single by done. now rewrite decide_True.
  - unfold d3. rewrite parentOf_insert_single by done.
    rewrite decide_False by (unfold w; lia). rewrite parentOf_remove.
    rewrite decide_False by (unfold w; lia). rewrite P2. now rewrite decide_True.
  - intros l1 l2 Hl. unfold d3. rewrite childrenOf_insert_single by done.
    rewrite decide_False by (unfold w; lia).
    rewrite childrenOf_remove, Pn2, decide_True by done.
    rewrite C2, decide_True by done. rewrite Hl.
    pose proof (wf_nodup _ Hd p) as Hnd. rewrite Hl in Hnd.
    apply NoDup_app_cons_notin in Hnd as [Hn1 Hn2].
    rewrite indexIn_app_r by done. rewrite insertAt_app. simpl.
    rewrite filter_app, filter_cons_True by (unfold w; lia).
    rewrite filter_cons_False by (intros H; now apply H).
    now rewrite !filter_ne_notin.
  - intros q Hqp Hqw. unfold d3. rewrite childrenOf_insert_single by done.
    rewrite decide_False by done. rewrite childrenOf_remove, Pn2.
    rewrite decide_False by congruence. rewrite C2. now rewrite decide_False.
  - intros x Hxn Hxw. unfold d3. rewrite parentOf_insert_single by done.
    rewrite decide_False by done. rewrite parentOf_remove, decide_False by done.
    rewrite P2. now rewrite decide_False.
  - intros x Hxw. unfold d3. rewrite staticOf_insert, staticOf_remove, S2, S1.
    now rewrite decide_False.
Qed.

Lemma length_foldr_alter {A} (f : A -> A) (ns : list nat) (s : list A) :
  length (foldr (fun n acc => alter f n acc) s ns) = length s.
Proof. induction ns as [|n ns IH]; simpl; [done|]. now rewrite length_alter. Qed.

Lemma length_nodes_attach d ns p i : length (nodes (attach d ns p i)) = length (nodes d).
Proof. unfold attach. simpl. now rewrite length_foldr_alter, length_alter. Qed.

Lemma length_nodes_foldl_remove ns : forall d,
  length (nodes (foldl remove d ns)) = length (nodes d).
Proof.
  induction ns as [|n ns IH]; intros d; simpl; [done|]. now rewrite IH, length_nodes_remove.
Qed.

Lemma length_nodes_insert d node p child :
  length (nodes (insert d node p child)) = length (nodes d).
Proof.
  unfold insert. case_bool_decide; [done|].
  destruct child; rewrite length_nodes_attach; simpl;
    destruct (isFragment d node); try done; apply length_nodes_foldl_remove.
Qed.

Lemma lookup_after (before after : list nat) x :
  (before ++ x :: after) !! S (length before) = head after.
Proof.
  rewrite lookup_app_r by lia. replace (S (length before) - length before) with 1 by lia.
  now destruct after.
Qed.

Lemma nextSibling_split d p x before after :
  wf d -> childrenOf d p = before ++ x :: after -> nextSibling d x = head after.
Proof.
  intros Hd Hl.
  assert (parentOf d x = Some p) as Hp.
  { apply (wf_child_parent _ Hd). rewrite Hl. apply elem_of_app. right. left. }
  pose proof (wf_nodup _ Hd p) as Hnd. rewrite Hl in Hnd.
  apply NoDup_app_cons_notin in Hnd as [H1 _].
  unfold nextSibling. rewrite Hp, Hl. rewrite indexIn_app_r by done. apply lookup_after.
Qed.

Lemma insertIndex_after d p x before after :
  wf d -> childrenOf d p = before ++ x :: after ->
  insertIndex d p (head after) = S (length before).
Proof.
  intros Hd Hl. pose proof (wf_nodup _ Hd p) as Hnd. rewrite Hl in Hnd.
  unfold insertIndex. rewrite Hl. destruct after as [|c after]; simpl.
  - rewrite length_app. simpl. lia.
  - replace (before ++ x :: c :: after) with ((before ++ [x]) ++ c :: after)
      by now rewrite <- app_assoc.
    rewrite indexIn_app_r; [rewrite length_app; simpl; lia|].
    replace (before ++ x :: c :: after) with ((before ++ [x]) ++ c :: after) in Hnd
      by now rewrite <- app_assoc.
    now apply NoDup_app_cons_notin in Hnd as [H1 _].
Qed.

Lemma insertAt_length {A} (xs l : list A) : insertAt (length l) xs l = l ++ xs.
Proof. unfold insertAt. now rewrite firstn_all, drop_all, app_nil_r. Qed.

(** Appending a document fragment moves its children to the end of the
    parent's children and leaves the fragment empty. *)
Lemma insert_fragment_append d f p :
  wf d -> isFragment d f = true -> is_Some (nodes d !! p) -> p <> f ->
  childrenOf (insert d f p None) p = childrenOf d p ++ childrenOf d f
  /\ childrenOf (insert d f p None) f = []
  /\ (forall c, c ∈ childrenOf d f -> parentOf (insert d f p None) c = Some p)
  /\ (forall q, q <> p -> q <> f -> childrenOf (insert d f p None) q = childrenOf d q)
  /\ (forall x, x ∉ childrenOf d f -> parentOf (insert d f p None) x = parentOf d x).
Proof.
  intros Hd F Ep Hpf. unfold insert. rewrite F.
  case_bool_decide as Hcount.
  { apply length_zero_iff_nil in Hcount. rewrite Hcount, app_nil_r.
    repeat split; auto. intros c Hc. by apply elem_of_nil in Hc. }
  set (ns := childrenOf d f) in *. set (d0 := foldl remove d ns).
  assert (forall n, n ∈ ns -> parentOf d n = Some f) as Hns
    by (intros n Hn; now apply (wf_child_parent _ Hd)).
  assert (forall q, q <> f -> childrenOf d0 q = childrenOf d q) as C0.
  { intros q Hq. apply childrenOf_foldl_remove_other. intros n Hn. rewrite (Hns n Hn).
    congruence. }
  assert (childrenOf d0 f = []) as C0f by now apply childrenOf_foldl_remove_all.
  assert (is_Some (nodes d0 !! p)) as [pd Ep0].
  { apply is_Some_staticOf. unfold d0. rewrite staticOf_foldl_remove.
    now apply is_Some_staticOf. }
  repeat split.
  - rewrite childrenOf_attach, decide_True, Ep0 by done.
    rewrite insertAt_length. now rewrite C0.
  - rewrite childrenOf_attach, decide_False by congruence. exact C0f.
  - intros c Hc. rewrite parentOf_attach, decide_True by done.
    assert (is_Some (nodes d0 !! c)) as [cd ->]; [|done].
    apply is_Some_staticOf. unfold d0. rewrite staticOf_foldl_remove.
    apply is_Some_staticOf. eapply parentOf_exists, Hns, Hc.
  - intros q Hqp Hqf. rewrite childrenOf_attach, decide_False by done. now apply C0.
  - intros x Hx. rewrite parentOf_attach, decide_False by done.
    unfold d0. rewrite parentOf_foldl_remove. now rewrite decide_False.
Qed.

(** wrap on a parentless, empty document fragment attaches nothing: the
    new DIV stays out of the tree and stays empty. *)
Lemma wrap_empty_fragment d f :
  wf d -> isFragment d f = true -> parentOf d f = None -> childrenOf d f = [] ->
  wrap d f HTML_EMPTY_DIV = Ok ((createElement d "DIV" []).1, length (nodes d)).
Proof.
  intros Hd F Hpar Hch.
  assert (f < length (nodes d)) as Hlt.
  { apply lookup_lt_is_Some. unfold isFragment, typeOf in F.
    destruct (nodes d !! f); [eauto|]. simpl in F. discriminate. }
  set (w := length (nodes d)). set (d1 := (createElement d "DIV" []).1).
  assert (forall x, staticOf d1 x
            = if decide (x = w) then Some (Element, "DIV"%string, EmptyString, [])
              else staticOf d x) as S1 by apply staticOf_createElement.
  assert (parentOf d1 w = None) as Pw.
  { unfold d1. rewrite parentOf_createElement. unfold parentOf.
    now rewrite lookup_ge_None_2. }
  assert (appendChild d1 w f = Ok (insert d1 f w None, f)) as Ha.
  { apply appendChild_fresh.
    - apply is_Some_staticOf. rewrite S1, decide_True by done. eauto.
    - pose proof (S1 w) as Sw. rewrite decide_True in Sw by done.
      now rewrite (typeOf_of_static _ _ _ _ _ _ Sw).
    - apply is_Some_staticOf. rewrite S1, decide_False by (unfold w; lia).
      apply is_Some_staticOf, lookup_lt_is_Some, Hlt.
    - unfold d1. now rewrite parentOf_createElement.
    - intros H. inversion H; subst; [unfold w in *; lia|congruence]. }
  unfold wrap.
  change (createElement d (templateTag HTML_EMPTY_DIV) (templateAttributes HTML_EMPTY_DIV))
    with (d1, w). cbv beta iota.
  unfold d1 at 1. rewrite parentOf_createElement, Hpar. simpl. fold d1. rewrite Ha. simpl.
  unfold insert.
  assert (isFragment d1 f = true) as ->.
  { rewrite (isFragment_staticOf d1 d); [done|]. rewrite S1.
    now rewrite decide_False by (unfold w; lia). }
  unfold d1 at 1 2. rewrite childrenOf_createElement, Hch. reflexivity.
Qed.

Lemma not_Ancestor_leaf d n x :
  wf d -> childrenOf d n = [] -> n <> x -> ~ Ancestor d n x.
Proof.
  intros Hd Hch Hne Ha. apply Hne. eapply Ancestor_childless; [|exact Ha].
  intros y Hy. apply (wf_parent_child _ Hd) in Hy. rewrite Hch in Hy.
  by apply elem_of_nil in Hy.
Qed.

(** A decidable check of well-formedness, for concrete documents. *)
Lemma wfb_sound d : wfb d = true -> wf d.
Proof.
  unfold wfb. rewrite andb_true_iff, !forallb_forall.
  intros [H1 H2].
  assert (forall p, p < length (nodes d) ->
            (forall c, c ∈ childrenOf d p -> parentOf d c = Some p)
            /\ NoDup (childrenOf d p)) as Hp.
  { intros p Hlt. specialize (H1 p). rewrite in_seq in H1.
    specialize (H1 ltac:(lia)). apply andb_true_iff in H1 as [Ha Hb].
    rewrite forallb_forall in Ha. split.
    - intros c Hc. apply list_elem_of_In in Hc. apply Ha in Hc.
      now apply bool_decide_eq_true_1 in Hc.
    - now apply bool_decide_eq_true_1 in Hb. }
  assert (forall c, c < length (nodes d) ->
            (forall p, parentOf d c = Some p -> c ∈ childrenOf d p)
            /\ (isFragment d c = true -> parentOf d c = None)) as Hc.
  { intros c Hlt. specialize (H2 c). rewrite in_seq in H2.
    specialize (H2 ltac:(lia)). apply andb_true_iff in H2 as [Ha Hb]. split.
    - intros p Hpar. rewrite Hpar in Ha. now apply bool_decide_eq_true_1 in Ha.
    - intros F. rewrite F in Hb. simpl in Hb. now apply bool_decide_eq_true_1 in Hb. }
  assert (forall x, length (nodes d) <= x -> nodes d !! x = None) as Hout
    by (intros; now apply lookup_ge_None_2).
  split.
  - intros p c Hin. destruct (decide (p < length (nodes d))) as [Hlt|Hge].
    + now apply (Hp p Hlt).
    + unfold childrenOf in Hin. rewrite Hout in Hin by lia. by apply elem_of_nil in Hin.
  - intros c p Hpar. destruct (decide (c < length (nodes d))) as [Hlt|Hge].
    + now apply (Hc c Hlt).
    + unfold parentOf in Hpar. rewrite Hout in Hpar by lia. discriminate.
  - intros p. destruct (decide (p < length (nodes d))) as [Hlt|Hge].
    + now apply (Hp p Hlt).
    + unfold childrenOf. rewrite Hout by lia. constructor.
  - intros n F. destruct (decide (n < length (nodes d))) as [Hlt|Hge].
    + now apply (Hc n Hlt).
    + unfold parentOf. now rewrite Hout by lia.
Qed.

(** Moving the children of [e], one appendChild at a time, to the end of
    the children of [n]. *)
Lemma move_children n e : forall l acc acc',
  wf acc -> n <> e -> parentOf acc n = None ->
  childrenOf acc e = l ->
  foldlM (fun a c => fst <$> appendChild a n c) acc l = Ok acc' ->
  wf acc'
  /\ childrenOf acc' n = childrenOf acc n ++ l
  /\ childrenOf acc' e = []
  /\ parentOf acc' n = None
  /\ (forall c, c ∈ l -> parentOf acc' c = Some n)
  /\ (forall x, x ∉ l -> parentOf acc' x = parentOf acc x)
  /\ (forall q, q <> n -> q <> e -> childrenOf acc' q = childrenOf acc q)
  /\ (forall x, staticOf acc' x = staticOf acc x).
Proof.
  induction l as [|c l IH]; intros acc acc' Hwf Hne Hpn Hl H; simpl in H.
  - injection H as <-. rewrite app_nil_r. split; [exact Hwf|]. repeat split; auto.
    intros c Hc. by apply elem_of_nil in Hc.
  - apply bind_Ok in H as (a1 & H1 & H). apply fmap_Ok in H1 as ([a1' c'] & H1 & ->).
    unfold appendChild in H1. apply bind_Ok in H1 as (a2 & H2 & [= <- <-]).
    pose proof (wf_preInsert _ _ _ _ _ Hwf H2) as Hwf1.
    apply preInsert_Ok in H2 as [Hv ->]. simpl in *.
    apply validity_Ok in Hv as (En & Ec & _ & _ & _).
    assert (parentOf acc c = Some e) as Pc.
    { apply (wf_child_parent _ Hwf). rewrite Hl. left. }
    assert (c <> n) as Hcn by congruence.
    assert (isFragment acc c = false) as Fc.
    { destruct (isFragment acc c) eqn:F; [|done].
      apply (wf_fragment _ Hwf) in F. congruence. }
    pose proof (wf_nodup _ Hwf e) as Hnd. rewrite Hl in Hnd.
    apply NoDup_cons in Hnd as [Hcl Hnd].
    set (a1 := insert (remove acc c) c n None) in *.
    assert (isFragment (remove acc c) c = false) as Fc'
      by now rewrite (isFragment_staticOf _ acc) by apply staticOf_remove.
    assert (is_Some (nodes (remove acc c) !! n)) as En'.
    { apply is_Some_staticOf. rewrite staticOf_remove. now apply is_Some_staticOf. }
    assert (is_Some (nodes (remove acc c) !! c)) as Ec'.
    { apply is_Some_staticOf. rewrite staticOf_remove. now apply is_Some_staticOf. }
    assert (forall x, parentOf a1 x = if decide (x = c) then Some n else parentOf acc x) as P1.
    { intros x. unfold a1. rewrite parentOf_insert_single by done.
      rewrite parentOf_remove. now case_decide. }
    assert (forall q, childrenOf a1 q
              = if decide (q = n) then childrenOf acc n ++ [c]
                else if decide (q = e) then l else childrenOf acc q) as C1.
    { intros q. unfold a1. rewrite childrenOf_insert_single by done. simpl.
      rewrite !childrenOf_remove, Pc.
      rewrite (decide_False (P := Some e = Some n)) by congruence.
      rewrite insertAt_length. case_decide; [done|].
      case_decide as Hq.
      - injection Hq as <-. rewrite decide_True by done. rewrite Hl.
        rewrite filter_cons_False by (intros Hf; now apply Hf).
        now apply filter_ne_notin.
      - rewrite decide_False by congruence. done. }
    destruct (IH a1 acc' Hwf1 Hne) as (W & Cn & Ce & Pn & Pl & Px & Cq & Sx); auto.
    { rewrite P1. now rewrite decide_False by congruence. }
    { rewrite C1. rewrite decide_False by congruence. now rewrite decide_True. }
    split; [exact W|]. repeat split; auto.
    + rewrite Cn, C1. rewrite decide_True by done. now rewrite <- app_assoc.
    + intros x Hx. apply elem_of_cons in Hx as [->|Hx]; [|now apply Pl].
      rewrite Px by done. rewrite P1. now rewrite decide_True.
    + intros x Hx. rewrite Px by (intros Hin; apply Hx; now right).
      rewrite P1. rewrite decide_False; [done|]. intros ->. apply Hx. left.
    + intros q Hq1 Hq2. rewrite Cq by done. rewrite C1. now rewrite !decide_False.
    + intros x. rewrite Sx. unfold a1. now rewrite staticOf_insert, staticOf_remove.
Qed.

Lemma isInclusiveAncestor_refl d n : isInclusiveAncestor d n n = true.
Proof.
  unfold isInclusiveAncestor. destruct (length (nodes d)); simpl; now rewrite decide_True.
Qed.

Lemma insertIndex_head d p (l1 l2 : list nat) :
  childrenOf d p = l1 ++ l2 -> NoDup (l1 ++ l2) ->
  insertIndex d p (head l2) = length l1.
Proof.
  intros Hl Hnd. unfold insertIndex. rewrite Hl. destruct l2 as [|c l2]; simpl.
  - now rewrite app_nil_r.
  - apply indexIn_app_r. now apply NoDup_app_cons_notin in Hnd as [H _].
Qed.

(** changeElementTag: the new element takes the place, the attributes and
    the children of the element, which is left empty and out of the tree. *)
Lemma changeElementTag_Ok d e t d1 n :
  wf d -> is_Some (nodes d !! e) ->
  changeElementTag d e t = Ok (d1, n) ->
  n = length (nodes d)
  /\ wf d1
  /\ staticOf d1 n
     = Some (Element, toUpperCase t, EmptyString,
             match nodes d !! e with Some nd => attributes nd | None => [] end)
  /\ childrenOf d1 n = childrenOf d e
  /\ childrenOf d1 e = []
  /\ parentOf d1 n = parentOf d e
  /\ parentOf d1 e = None
  /\ (forall c, c ∈ childrenOf d e -> parentOf d1 c = Some n)
  /\ (forall p l1 l2, parentOf d e = Some p -> childrenOf d p = l1 ++ e :: l2 ->
        childrenOf d1 p = l1 ++ n :: l2)
  /\ (forall x, x <> n -> staticOf d1 x = staticOf d x).
Proof.
  intros Hd Ee H. unfold changeElementTag in H.
  set (attrs := match nodes d !! e with Some nd => attributes nd | None => [] end) in *.
  set (dc := (createElement d (toUpperCase t) attrs).1) in *.
  set (w := length (nodes d)) in *.
  change (createElement d (toUpperCase t) attrs) with (dc, w) in H. cbv beta iota in H.
  apply bind_Ok in H as (dm & Hm & H). apply bind_Ok in H as (d3 & H3 & [= <- <-]).
  assert (e < w) as Helt by now apply lookup_lt_is_Some.
  assert (wf dc) as Hdc by now apply wf_createElement.
  assert (forall x, parentOf dc x = parentOf d x) as Pc by apply parentOf_createElement.
  assert (forall x, childrenOf dc x = childrenOf d x) as Cc by apply childrenOf_createElement.
  assert (forall x, staticOf dc x
            = if decide (x = w) then Some (Element, toUpperCase t, EmptyString, attrs)
              else staticOf d x) as Sc by apply staticOf_createElement.
  assert (parentOf d w = None) as Pw by (unfold parentOf; now rewrite lookup_ge_None_2).
  assert (childrenOf d w = []) as Cw by (unfold childrenOf; now rewrite lookup_ge_None_2).
  destruct (move_children w e (childrenOf dc e) dc dm) as (Wm & Cn & Ce & Pn & Pl & Px & Cq & Sx);
    auto; [lia|now rewrite Pc|].
  rewrite !Cc in *. rewrite Cw in Cn. simpl in Cn.
  assert (forall x, x <> w -> staticOf dm x = staticOf d x) as Sm.
  { intros x Hx. rewrite Sx, Sc. now rewrite decide_False. }
  assert (staticOf dm w = Some (Element, toUpperCase t, EmptyString, attrs)) as Smw.
  { rewrite Sx, Sc. now rewrite decide_True. }
  destruct (decide (e ∈ childrenOf d e)) as [Hin|Hnin].
  { (* an element that is its own child: the replacement is refused *)
    exfalso. rewrite (Pl e Hin) in H3. apply replaceChild_Ok in H3 as (_ & _ & Ha & _).
    now rewrite isInclusiveAncestor_refl in Ha. }
  assert (parentOf dm e = parentOf d e) as Pe by (rewrite Px, Pc; auto).
  rewrite Pe in H3. destruct (parentOf d e) as [p|] eqn:Hpe.
  - apply replaceChild_Ok in H3 as (Ep & En & Ha & _ & ->).
    assert (p <> w) as Hpw.
    { intros ->. now rewrite isInclusiveAncestor_refl in Ha. }
    assert (p <> e) as Hpe'.
    { intros ->. apply Hnin. now apply (wf_parent_child _ Hd). }
    assert (childrenOf dm p = childrenOf d p) as Cp by (rewrite Cq, Cc; auto).
    rewrite (remove_detached dm w Pn).
    assert (nextSibling dm e <> Some w) as Hns.
    { unfold nextSibling. rewrite Pe. intros Hl. apply list_elem_of_lookup_2 in Hl.
      apply (wf_child_parent _ Wm) in Hl. congruence. }
    rewrite (bool_decide_eq_false_2 _ Hns).
    set (dr := remove dm e).
    assert (wf dr) as Wr by now apply wf_remove.
    assert (isFragment dr w = false) as Fw.
    { unfold isFragment. unfold dr.
      rewrite (typeOf_staticOf _ dm) by apply staticOf_remove.
      now rewrite (typeOf_of_static _ _ _ _ _ _ Smw). }
    assert (is_Some (nodes dr !! p)) as Epr.
    { apply is_Some_staticOf. unfold dr. rewrite staticOf_remove. now apply is_Some_staticOf. }
    assert (is_Some (nodes dr !! w)) as Ewr.
    { apply is_Some_staticOf. unfold dr. rewrite staticOf_remove, Smw. eauto. }
    split; [done|]. split.
    { apply wf_insert; auto. intros _. split; [|done].
      unfold dr. rewrite parentOf_remove. case_decide; [done|exact Pn]. }
    repeat split.
    + rewrite staticOf_insert. unfold dr. now rewrite staticOf_remove.
    + rewrite childrenOf_insert_single, decide_False by (done || congruence).
      unfold dr. rewrite childrenOf_remove, Pe.
      now rewrite decide_False by congruence.
    + rewrite childrenOf_insert_single, decide_False by (done || congruence).
      unfold dr. rewrite childrenOf_remove, Pe.
      now rewrite decide_False by congruence.
    + rewrite parentOf_insert_single by done. now rewrite decide_True.
    + rewrite parentOf_insert_single, decide_False by (done || lia).
      unfold dr. rewrite parentOf_remove. now rewrite decide_True.
    + intros c Hc. rewrite parentOf_insert_single by done.
      assert (c <> w) as Hcw.
      { intros ->. apply (wf_child_parent _ Hd) in Hc. congruence. }
      rewrite decide_False by done. unfold dr. rewrite parentOf_remove.
      rewrite decide_False by congruence. now apply Pl.
    + intros p' l1 l2 [= <-] Hl.
      rewrite childrenOf_insert_single, decide_True by done.
      pose proof (wf_nodup _ Hd p) as Hnd. rewrite Hl in Hnd.
      pose proof (NoDup_app_cons_notin _ _ _ Hnd) as [Hn1 Hn2].
      assert (childrenOf dr p = l1 ++ l2) as Cr.
      { unfold dr. rewrite childrenOf_remove, Pe, decide_True by done.
        rewrite Cp, Hl, filter_app.
        rewrite filter_cons_False by (intros Hf; now apply Hf).
        now rewrite !filter_ne_notin. }
      assert (nextSibling dm e = head l2) as ->.
      { apply (nextSibling_split dm p e l1 l2 Wm). now rewrite Cp. }
      rewrite (insertIndex_head dr p l1 l2 Cr).
      * rewrite Cr. now rewrite insertAt_app.
      * rewrite <- Cr. apply (wf_nodup _ Wr).
    + intros x Hx. rewrite staticOf_insert. unfold dr. rewrite staticOf_remove.
      now apply Sm.
  - injection H3 as <-. split; [done|]. split; [done|].
    repeat split; auto. intros p l1 l2 Hp. discriminate.
Qed.

(** Counting occurrences in a well-formed tree *)
Lemma sum_list_with_zero {A} (f : A -> nat) (l : list A) :
  (forall x, x ∈ l -> f x = 0) -> sum_list_with f l = 0.
Proof.
  induction l as [|x l IH]; intros H; simpl; [done|].
  rewrite (H x) by left. rewrite IH; [done|]. intros y Hy. apply H. now right.
Qed.

Lemma sum_list_with_one {A} (f : A -> nat) (l : list A) : forall p x,
  l !! p = Some x -> f x = 1 ->
  (forall i y, i <> p -> l !! i = Some y -> f y = 0) ->
  sum_list_with f l = 1.
Proof.
  induction l as [|a l IH]; intros p x Hp Hx Hz; [done|]. simpl.
  destruct p as [|p]; simpl in Hp.
  - injection Hp as ->. rewrite Hx. rewrite sum_list_with_zero; [done|].
    intros y Hy. apply list_elem_of_lookup_1 in Hy as [i Hi].
    apply (Hz (S i) y); [lia|done].
  - rewrite (Hz 0 a) by (done || lia). simpl. apply (IH p x); auto.
    intros i y Hi Hy. apply (Hz (S i) y); [lia|done].
Qed.

Lemma filter_eq_length (l : list nat) n :
  NoDup l -> length (filter (fun c => c = n) l) = if decide (n ∈ l) then 1 else 0.
Proof.
  induction l as [|x l IH]; intros Hnd.
  - rewrite decide_False; [done|]. apply not_elem_of_nil.
  - apply NoDup_cons in Hnd as [Hx Hnd]. specialize (IH Hnd).
    destruct (decide (x = n)) as [->|Hne].
    + rewrite filter_cons_True by done. simpl. rewrite IH.
      rewrite decide_False by done. now rewrite decide_True by left.
    + rewrite filter_cons_False by done. rewrite IH.
      destruct (decide (n ∈ l)) as [Hin|Hin].
      * now rewrite decide_True by now right.
      * rewrite decide_False; [done|]. intros H. apply elem_of_cons in H as [?|?]; congruence.
Qed.

(** A node under a parent occurs exactly once among all child lists. *)
Lemma occurrences_attached d n p : wf d -> parentOf d n = Some p -> occurrences d n = 1.
Proof.
  intros Hd Hp. unfold occurrences.
  pose proof (wf_parent_child _ Hd _ _ Hp) as Hin.
  destruct (nodes d !! p) as [pd|] eqn:Ep.
  2: { unfold childrenOf in Hin. rewrite Ep in Hin. by apply elem_of_nil in Hin. }
  apply (sum_list_with_one _ _ p pd Ep).
  - pose proof (wf_nodup _ Hd p) as Hnd. unfold childrenOf in Hin, Hnd. rewrite Ep in Hin, Hnd.
    rewrite filter_eq_length by done. now rewrite decide_True.
  - intros i y Hi Ey.
    pose proof (wf_nodup _ Hd i) as Hnd. unfold childrenOf in Hnd. rewrite Ey in Hnd.
    rewrite filter_eq_length by done. rewrite decide_False; [done|].
    intros Hc. assert (n ∈ childrenOf d i) as Hc' by (unfold childrenOf; now rewrite Ey).
    apply (wf_child_parent _ Hd) in Hc'. congruence.
Qed.

Lemma occurrences_same_nodes d d' n : nodes d = nodes d' -> occurrences d n = occurrences d' n.
Proof. unfold occurrences. now intros ->. Qed.

(** A document fragment's children all end up under the parent. *)
Lemma parentOf_insert_fragment d f p child c :
  wf d -> isFragment d f = true -> c ∈ childrenOf d f ->
  parentOf (insert d f p child) c = Some p.
Proof.
  intros Hd F Hc. unfold insert. rewrite F.
  case_bool_decide as Hcount.
  { apply length_zero_iff_nil in Hcount. rewrite Hcount in Hc. by apply elem_of_nil in Hc. }
  assert (is_Some (nodes (foldl remove d (childrenOf d f)) !! c)) as [cd Ec].
  { apply is_Some_staticOf. rewrite staticOf_foldl_remove. apply is_Some_staticOf.
    eapply parentOf_exists, (wf_child_parent _ Hd), Hc. }
  destruct child; rewrite parentOf_attach, decide_True by done; simpl; now rewrite Ec.
Qed.

Lemma staticOf_createTextNode_lt d v x :
  x < length (nodes d) -> staticOf (createTextNode d v).1 x = staticOf d x.
Proof.
  intros H. unfold staticOf, createTextNode. simpl. now rewrite lookup_app_l.
Qed.

(** splitText leaves the nodes that existed before where they were, but
    for the children of the parent of the split node. *)
Lemma splitText_Ok d n o d' n' :
  wf d ->
  splitText d n o = Ok (d', n') ->
  (forall x, x < length (nodes d) -> typeOf d' x = typeOf d x)
  /\ (forall q, parentOf d n <> Some q -> childrenOf d' q = childrenOf d q)
  /\ (forall x, x < length (nodes d) -> parentOf d' x = parentOf d x).
Proof.
  intros Hd. unfold splitText. destruct (_ <? _); [discriminate|].
  set (v := substring o (String.length (valueOf d n) - o) (valueOf d n)).
  set (d1 := (createTextNode d v).1). set (w := length (nodes d)).
  change (createTextNode d v) with (d1, w). cbv beta iota.
  intros H. apply bind_Ok in H as (d3 & H3 & [= <- <-]).
  apply replaceData_Ok in H3 as (P3 & C3 & _ & T3 & _).
  assert (forall x, parentOf d1 x = parentOf d x) as P1 by apply parentOf_createTextNode.
  assert (forall x, childrenOf d1 x = childrenOf d x) as C1 by apply childrenOf_createTextNode.
  assert (forall x, x < w -> staticOf d1 x = staticOf d x) as S1
    by (intros; now apply staticOf_createTextNode_lt).
  assert (isFragment d1 w = false) as Fw.
  { unfold isFragment, typeOf, d1, createTextNode. simpl.
    now rewrite lookup_app_r, Nat.sub_diag by done. }
  assert (is_Some (nodes d1 !! w)) as Ew.
  { unfold d1, createTextNode. simpl. rewrite lookup_app_r, Nat.sub_diag by done. eauto. }
  rewrite P1 in P3, C3, T3. destruct (parentOf d n) as [parent|] eqn:Hp.
  - repeat split.
    + intros x Hx. rewrite T3.
      change (typeOf (insert d1 w parent (nextSibling d1 n)) x = typeOf d x).
      rewrite (typeOf_staticOf _ d1) by apply staticOf_insert.
      now rewrite (typeOf_staticOf d1 d) by now apply S1.
    + intros q Hq. rewrite C3.
      change (childrenOf (insert d1 w parent (nextSibling d1 n)) q = childrenOf d q).
      assert (is_Some (nodes d1 !! parent)) as Ep.
      { apply lookup_lt_is_Some. unfold d1, createTextNode. simpl.
        rewrite length_app. pose proof (wf_parent_lt _ _ _ Hd Hp). lia. }
      rewrite childrenOf_insert_single by done.
      rewrite decide_False by congruence. apply C1.
    + intros x Hx. rewrite P3.
      change (parentOf (insert d1 w parent (nextSibling d1 n)) x = parentOf d x).
      rewrite parentOf_insert_single by done.
      rewrite decide_False by (unfold w; lia). apply P1.
  - repeat split; intros; rewrite ?T3, ?C3, ?P3, ?P1, ?C1; auto.
    now rewrite (typeOf_staticOf d1 d) by now apply S1.
Qed.

(** Range.insertNode puts every node of the inserted content under one parent. *)
Lemma rangeInsertNode_content d r node d' :
  wf d -> rangeInsertNode d r node = Ok d' ->
  exists parent, forall c, c ∈ insertedContent d node -> parentOf d' c = Some parent.
Proof.
  intros Hd H. unfold rangeInsertNode in H. apply bind_Ok in H as (rg & _ & H).
  destruct_if_in H; [discriminate|].
  apply bind_Ok in H as (parent & Hpar & H). apply bind_Ok in H as ([] & Hv & H).
  apply bind_Ok in H as ([d1 ref] & H1 & H).
  apply bind_Ok in H as (d3 & H3 & H). apply bind_Ok in H as (rg3 & _ & H).
  exists parent.
  apply validity_Ok in Hv as (Ep & En & _ & Hanc & _).
  assert (node <> parent) as Hnp.
  { intros ->. now rewrite isInclusiveAncestor_refl in Hanc. }
  assert (node < length (nodes d)) as Hlt by now apply lookup_lt_is_Some.
  assert (wf d1 /\ typeOf d1 node = typeOf d node /\ childrenOf d1 node = childrenOf d node
          /\ is_Some (nodes d1 !! node)) as (Hd1 & T1 & C1 & E1).
  { destruct (isText d (startContainer rg)) eqn:Tx.
    - apply bind_Ok in H1 as ([d0 n0] & H0 & [= <- _]).
      destruct (splitText_Ok _ _ _ _ _ Hd H0) as (T0 & C0 & P0).
      assert (typeOf d0 node = typeOf d node) as T by now apply T0.
      split; [eauto using wf_splitText|]. split; [done|]. split.
      + apply C0. apply deref_Ok in Hpar. congruence.
      + unfold typeOf in T. destruct (nodes d0 !! node); [eauto|].
        destruct En as [nd En]. rewrite En in T. discriminate.
    - injection H1 as <- _. auto. }
  assert (nodes d' = nodes d3) as Hn' by (destruct (collapsed rg3); now injection H as <-).
  apply preInsert_Ok in H3 as [_ ->].
  set (dz := remove (remove d1 node) node) in *.
  assert (wf dz) as Hdz by (unfold dz; auto using wf_remove).
  assert (forall x, staticOf dz x = staticOf d1 x) as Sz
    by (intros; unfold dz; now rewrite !staticOf_remove).
  assert (isFragment dz node = isFragment d node) as Fz.
  { rewrite (isFragment_staticOf dz d1) by apply Sz. unfold isFragment. now rewrite T1. }
  intros c Hc. rewrite (parentOf_same_nodes _ _ c Hn').
  unfold insertedContent in Hc. destruct (isFragment d node) eqn:F.
  - apply parentOf_insert_fragment; auto.
    assert (parentOf d1 node = None) as Pn.
    { apply (wf_fragment _ Hd1). unfold isFragment. rewrite T1. exact F. }
    unfold dz. rewrite !(remove_detached d1 node Pn). now rewrite C1.
  - apply list_elem_of_singleton in Hc. subst c.
    rewrite parentOf_insert_single, decide_True; auto.
    apply is_Some_staticOf. rewrite Sz. now apply is_Some_staticOf.
Qed.

(** Range.deleteContents *)
Lemma spliceString_min v o c s :
  spliceString v o (Nat.min c (String.length v - o)) s = spliceString v o c s.
Proof.
  unfold spliceString.
  now replace (Nat.min (Nat.min c (String.length v - o)) (String.length v - o))
    with (Nat.min c (String.length v - o)) by lia.
Qed.

Lemma valueOf_replaceData d n o c s d' :
  replaceData d n o c s = Ok d' -> is_Some (nodes d !! n) ->
  valueOf d' n = spliceString (valueOf d n) o c s.
Proof.
  unfold replaceData. destruct (_ <? _); [discriminate|]. intros [= <-] [nd E].
  rewrite spliceString_min. unfold valueOf at 1. simpl.
  rewrite list_lookup_alter_eq, E. reflexivity.
Qed.

Lemma isText_exists d n : isText d n = true -> is_Some (nodes d !! n).
Proof.
  unfold isText, typeOf. destruct (nodes d !! n); [eauto|]. simpl. discriminate.
Qed.

Lemma length_ranges_remove d n : length (ranges (remove d n)) = length (ranges d).
Proof.
  unfold remove. destruct (parentOf d n); [|done]. simpl. now rewrite !length_map.
Qed.

Lemma length_ranges_foldl_remove ns : forall d,
  length (ranges (foldl remove d ns)) = length (ranges d).
Proof.
  induction ns as [|n ns IH]; intros d; simpl; [done|]. now rewrite IH, length_ranges_remove.
Qed.

Lemma length_ranges_replaceData d n o c s d' :
  replaceData d n o c s = Ok d' -> length (ranges d') = length (ranges d).
Proof.
  unfold replaceData. destruct (_ <? _); [discriminate|]. intros [= <-]. simpl.
  now rewrite !length_map.
Qed.

Lemma lexCompare_app p : forall a b, lexCompare (p ++ a) (p ++ b) = lexCompare a b.
Proof.
  induction p as [|x p IH]; intros a b; simpl; [done|]. now rewrite Nat.compare_refl.
Qed.

Lemma validRange_same_container d rg :
  validRange d rg -> startContainer rg = endContainer rg -> collapsed rg = false ->
  startOffset rg < endOffset rg /\ endOffset rg <= nodeLength d (startContainer rg).
Proof.
  intros (_ & He & Hc) Heq Hncol. rewrite <- Heq in He. split; [|done].
  unfold compareBoundary, rangeStart, rangeEnd in Hc. simpl in Hc.
  rewrite <- Heq, lexCompare_app in Hc. simpl in Hc.
  destruct (Nat.compare_spec (startOffset rg) (endOffset rg)) as [E|E|E]; [|done|done].
  exfalso. unfold collapsed, boundaryEqb, rangeStart, rangeEnd in Hncol.
  apply bool_decide_eq_false_1 in Hncol. apply Hncol. now rewrite Heq, E.
Qed.

Lemma valueOf_setRange r f d x : valueOf (setRange r f d) x = valueOf d x.
Proof. reflexivity. Qed.

Lemma parentOf_setRange r f d x : parentOf (setRange r f d) x = parentOf d x.
Proof. reflexivity. Qed.

Lemma rangeDeleteContents_Ok d r rg d1 :
  range d r = Ok rg -> collapsed rg = false -> validRange d rg ->
  rangeDeleteContents d r = Ok d1 ->
  selectionDeleted d rg d1
  /\ exists rg1, range d1 r = Ok rg1 /\ collapsed rg1 = true.
Proof.
  intros Hr Hncol Hvalid H. unfold rangeDeleteContents in H. rewrite Hr in H. simpl in H.
  rewrite Hncol in H. unfold selectionDeleted.
  pose proof (range_Ok _ _ _ Hr) as Hlook.
  assert (r < length (ranges d)) as Hrlt by (apply lookup_lt_is_Some; eauto).
  destruct (bool_decide (startContainer rg = endContainer rg) && isText d (startContainer rg))
    eqn:Hsame.
  - (* the selection lies within one Text node *)
    apply andb_true_iff in Hsame as [Heq Htext]. apply bool_decide_eq_true_1 in Heq.
    split; [apply (valueOf_replaceData _ _ _ _ _ _ H), isText_exists, Htext|].
    destruct (validRange_same_container _ _ Hvalid Heq Hncol) as [Hlt Hle].
    unfold nodeLength in Hle. rewrite Htext in Hle.
    unfold replaceData in H. destruct (_ <? _); [discriminate|]. injection H as <-.
    exists (collapsedAt (rangeStart rg)). split; [|apply bool_decide_eq_true_2; done].
    unfold range, mapBoundaries. simpl. rewrite !list_lookup_fmap, Hlook. simpl. f_equal.
    destruct rg as [sc so ec eo]. unfold rangeStart, rangeEnd, withStart, withEnd, collapsedAt.
    simpl in *. subst ec.
    rewrite (bool_decide_eq_true_2 (sc = sc)) by done. simpl.
    replace (so <? so) with false by (symmetry; apply Nat.ltb_ge; lia). simpl.
    replace (so <? eo) with true by (symmetry; apply Nat.ltb_lt; lia).
    replace (eo <=? so + Nat.min (eo - so) (String.length (valueOf d sc) - so)) with true
      by (symmetry; apply Nat.leb_le; lia). simpl.
    rewrite (bool_decide_eq_true_2 (sc = sc)) by done. simpl.
    replace (so + Nat.min (eo - so) (String.length (valueOf d sc) - so) <? so) with false
      by (symmetry; apply Nat.ltb_ge; lia). reflexivity.
  - (* the general case *)
    apply bind_Ok in H as (da & Ha & H). apply bind_Ok in H as (db & Hb & [= <-]).
    set (l := nodesToRemove d rg) in *.
    assert ((forall x, parentOf da x = parentOf d x)
            /\ (forall x, typeOf da x = typeOf d x)
            /\ (forall x, x <> startContainer rg -> staticOf da x = staticOf d x)
            /\ length (ranges da) = length (ranges d)) as (Pa & Ta & Sa & La).
    { destruct_if_in Ha; [|injection Ha as <-; auto].
      pose proof (length_ranges_replaceData _ _ _ _ _ _ Ha).
      apply replaceData_Ok in Ha as (P & _ & S & T & _). auto. }
    assert ((forall x, parentOf db x = parentOf (foldl remove da l) x)
            /\ (forall x, x <> endContainer rg ->
                   staticOf db x = staticOf (foldl remove da l) x)
            /\ length (ranges db) = length (ranges d)) as (Pb & Sb & Lb).
    { destruct_if_in Hb.
      - pose proof (length_ranges_replaceData _ _ _ _ _ _ Hb) as L.
        rewrite length_ranges_foldl_remove, La in L.
        apply replaceData_Ok in Hb as (P & _ & S & T & _). auto.
      - injection Hb as <-. rewrite length_ranges_foldl_remove. auto. }
    split; [split; [|split]|].
    + intros n Hn. rewrite parentOf_setRange, Pb, parentOf_foldl_remove.
      now rewrite decide_True.
    + intros Htext. rewrite valueOf_setRange.
      rewrite Htext in Ha.
      assert (startContainer rg <> endContainer rg) as Hne.
      { intros Heq. rewrite Htext, andb_true_r in Hsame.
        now apply bool_decide_eq_false_1 in Hsame. }
      rewrite (valueOf_staticOf db (foldl remove da l)) by now apply Sb.
      rewrite (valueOf_staticOf _ da) by apply staticOf_foldl_remove.
      apply (valueOf_replaceData _ _ _ _ _ _ Ha), isText_exists, Htext.
    + intros Htext. rewrite valueOf_setRange.
      assert (isText (foldl remove da l) (endContainer rg) = true) as Htext'.
      { unfold isText. rewrite (typeOf_staticOf _ da) by apply staticOf_foldl_remove.
        rewrite Ta. exact Htext. }
      rewrite Htext' in Hb.
      rewrite (valueOf_replaceData _ _ _ _ _ _ Hb) by now apply isText_exists.
      rewrite (valueOf_staticOf _ da) by apply staticOf_foldl_remove.
      destruct (isText d (startContainer rg)) eqn:Hst; [|now injection Ha as <-].
      assert (endContainer rg <> startContainer rg) as Hne.
      { intros Heq. rewrite andb_true_r in Hsame.
        apply bool_decide_eq_false_1 in Hsame. congruence. }
      now rewrite (valueOf_staticOf da d) by now apply Sa.
    + assert (is_Some (ranges db !! r)) as [x Hx] by (apply lookup_lt_is_Some; lia).
      eexists. split.
      * unfold range, setRange. simpl. rewrite list_lookup_alter_eq, Hx. reflexivity.
      * apply bool_decide_eq_true_2. reflexivity.
Qed.

(** The steps of Range.deleteContents amount to the deletion of the
    contents of the range. *)
Lemma selectionDeleted_removed d rg d1 :
  validRange d rg -> collapsed rg = false ->
  selectionDeleted d rg d1 -> selectionRemoved d rg d1.
Proof.
  intros Hvalid Hncol. unfold selectionDeleted, selectionRemoved.
  destruct (bool_decide (startContainer rg = endContainer rg) && isText d (startContainer rg))
    eqn:Hsame.
  - apply andb_true_iff in Hsame as [Heq Htext]. apply bool_decide_eq_true_1 in Heq.
    destruct (validRange_same_container _ _ Hvalid Heq Hncol) as [Hlt Hle].
    unfold nodeLength in Hle. rewrite Htext in Hle.
    intros ->. unfold spliceString. rewrite Nat.min_l by lia.
    now replace (startOffset rg + (endOffset rg - startOffset rg)) with (endOffset rg) by lia.
  - destruct Hvalid as (Hso & Heo & _). intros (Hnodes & Hstart & Hend).
    split; [|split].
    + intros n Hn (Hroot & Hafter & Hbefore) Hparent. apply Hnodes.
      unfold nodesToRemove. apply list_elem_of_In, filter_In.
      split; [now apply list_elem_of_In|].
      apply andb_true_iff. split.
      * unfold contained, isAfter, isBefore, rangeStart, rangeEnd.
        now rewrite !bool_decide_eq_true_2.
      * apply negb_true_iff. destruct (parentOf d n) as [q|] eqn:Hq; [|done].
        destruct (contained d rg q) eqn:Hc; [|done]. exfalso.
        apply (Hparent q eq_refl). unfold contained, isAfter, isBefore in Hc.
        apply andb_true_iff in Hc as [Hc H3]. apply andb_true_iff in Hc as [H1 H2].
        apply bool_decide_eq_true_1 in H1, H2, H3. done.
    + intros Htext. rewrite (Hstart Htext). unfold nodeLength in *. rewrite Htext in *.
      unfold spliceString. rewrite Nat.min_id.
      replace (startOffset rg + (String.length (valueOf d (startContainer rg)) - startOffset rg))
        with (String.length (valueOf d (startContainer rg))) by lia.
      rewrite Nat.sub_diag, substring_zero_length. apply append_empty_r.
    + intros Htext. rewrite (Hend Htext). unfold nodeLength in *. rewrite Htext in *.
      unfold spliceString. rewrite Nat.sub_0_r, Nat.min_l by lia.
      now rewrite substring_zero_length.
Qed.

End AncestorFacts.

Section BeginEnd.
Context `{lib : EditorLib}.

(** The wrapping after the last block, where it works: inserting a
    parentless node that is not a document fragment and not block-level at
    End with insertOnNewLine = true, into a root whose last block is a
    child [div] of the root, succeeds and leaves, right after [div], a new
    empty-attribute DIV whose only child is the inserted node; [div] and
    every other node keep their children. *)
Theorem insert_on_new_line_after_last_block
  (core : EditorCore) (d : Document) (node : Node) (opt : InsertOption)
  (b : BlockElement) (before after : list Node) :
  let root := contentDiv core in
  let div := getEndNode b in
  let w := length (nodes d) in
  wf d ->
  typeOf d root = Some Element ->
  getBlockElementAtNode d root (getLastLeafNode d root) = Some b ->
  childrenOf d root = before ++ div :: after ->
  insertOnNewLine opt = true ->
  is_Some (nodes d !! node) ->
  parentOf d node = None ->
  isFragment d node = false ->
  ~ Ancestor d node root ->
  isBlockElement (insert d node root (head after)) node = false ->
  exists d',
    insertNodeAtEnd core d node opt = Ok d'
    /\ childrenOf d' root = before ++ div :: w :: after
    /\ staticOf d' w = Some (Element, "DIV"%string, EmptyString, [])
    /\ childrenOf d' w = [node]
    /\ parentOf d' node = Some w
    /\ (forall q, q <> root -> q <> w -> childrenOf d' q = childrenOf d q)
    /\ (forall x, x <> w -> staticOf d' x = staticOf d x).
Proof.
  intros root div w Hd Troot Hb Hl Hnl En Hpar Hfrag Hanc Hblock.
  assert (parentOf d div = Some root) as Pdiv.
  { apply (wf_child_parent _ Hd). rewrite Hl. apply elem_of_app. right. left. }
  assert (is_Some (nodes d !! root)) as Er by (eapply childrenOf_exists, (wf_parent_child _ Hd), Pdiv).
  assert (typeOf d root <> Some Text) as Tr by (rewrite Troot; discriminate).
  pose proof (nextSibling_split _ _ _ _ _ Hd Hl) as Hns.
  assert (insertBefore d root node (head after)
          = Ok (insert d node root (head after), node)) as Hib.
  { apply insertBefore_fresh; auto. intros c Hc. apply (wf_child_parent _ Hd).
    rewrite Hl. apply elem_of_app. right. right.
    destruct after as [|c' after']; simpl in Hc; [discriminate|]. injection Hc as ->. left. }
  set (d1 := insert d node root (head after)) in *.
  assert (wf d1) as Hd1 by (apply wf_insert; auto).
  assert (forall x, parentOf d1 x = if decide (x = node) then Some root else parentOf d x) as P1
    by (intros; apply parentOf_insert_single; auto).
  assert (forall x, staticOf d1 x = staticOf d x) as S1 by (intros; apply staticOf_insert).
  assert (childrenOf d1 root = (before ++ [div]) ++ node :: after) as C1.
  { unfold d1. rewrite childrenOf_insert_single, decide_True by done.
    rewrite (insertIndex_after _ _ _ _ _ Hd Hl), Hl.
    replace (before ++ div :: after) with ((before ++ [div]) ++ after)
      by now rewrite <- app_assoc.
    replace (S (length before)) with (length (before ++ [div]))
      by (rewrite length_app; simpl; lia).
    now rewrite insertAt_app. }
  destruct (wrap_attached d1 node root) as (d3 & Hw & Sw & Cw & Pn & Pw & Cr & Cq & Px & Sx); auto.
  { now rewrite P1, decide_True. }
  { now rewrite (typeOf_staticOf d1 d) by apply S1. }
  { intros Ha. apply Hanc. eapply Ancestor_transfer; [|exact Ha].
    intros x Hx _. rewrite P1. now rewrite decide_False. }
  { now rewrite (isFragment_staticOf d1 d) by apply S1. }
  assert (length (nodes d1) = w) as Hlen by apply length_nodes_insert.
  rewrite Hlen in *.
  exists d3. repeat split; auto.
  - unfold insertNodeAtEnd. fold root. rewrite Hb. fold div. rewrite Hnl, Pdiv. simpl.
    rewrite Hns, Hib. simpl. fold d1. rewrite Hblock. simpl. now rewrite Hw.
  - rewrite (Cr _ _ C1). now rewrite <- app_assoc.
  - intros q Hq Hqw. rewrite Cq by done. unfold d1.
    rewrite childrenOf_insert_single by done. now rewrite decide_False.
  - intros x Hx. now rewrite Sx, S1.
Qed.

(** The fallback of Begin and End: an insertion into a root for which no
    block element is found (the empty root) does not fail for a parentless
    node: the node is appended to the root's children (a document fragment
    contributes its children, unwrapped), and with insertOnNewLine a
    single node that is not block-level is then wrapped in a new DIV that
    takes its place. *)
Theorem insert_into_root_without_block
  (atBegin : bool) (core : EditorCore) (d : Document) (node : Node) (opt : InsertOption) :
  let root := contentDiv core in
  let w := length (nodes d) in
  wf d ->
  typeOf d root = Some Element ->
  getBlockElementAtNode d root
    (if atBegin then getFirstLeafNode d root else getLastLeafNode d root) = None ->
  is_Some (nodes d !! node) ->
  parentOf d node = None ->
  ~ Ancestor d node root ->
  exists d',
    (if atBegin then insertNodeAtBegin core d node opt else insertNodeAtEnd core d node opt)
    = Ok d'
    /\ (forall q, q <> root -> q <> w -> q <> node -> childrenOf d' q = childrenOf d q)
    /\ if insertOnNewLine opt && negb (isBlockElement (insert d node root None) node)
          && negb (isFragment d node)
       then childrenOf d' root = childrenOf d root ++ [w]
            /\ staticOf d' w = Some (Element, "DIV"%string, EmptyString, [])
            /\ childrenOf d' w = [node]
            /\ parentOf d' node = Some w
       else childrenOf d' root = childrenOf d root ++ insertedContent d node
            /\ (forall c, c ∈ insertedContent d node -> parentOf d' c = Some root).
Proof.
  intros root w Hd Troot Hb En Hpar Hanc.
  assert (is_Some (nodes d !! root)) as Er.
  { unfold typeOf in Troot. destruct (nodes d !! root); [eauto|discriminate]. }
  assert (typeOf d root <> Some Text) as Tr by (rewrite Troot; discriminate).
  assert (appendChild d root node = Ok (insert d node root None, node)) as Ha
    by now apply appendChild_fresh.
  set (d1 := insert d node root None) in *.
  assert (forall x, staticOf d1 x = staticOf d x) as S1 by (intros; apply staticOf_insert).
  assert (length (nodes d1) = w) as Hlen by apply length_nodes_insert.
  assert ((if atBegin then insertNodeAtBegin core d node opt
           else insertNodeAtEnd core d node opt)
          = if insertOnNewLine opt && negb (isBlockElement d1 node)
            then fst <$> wrap d1 node HTML_EMPTY_DIV else Ok d1) as ->.
  { destruct atBegin; unfold insertNodeAtBegin, insertNodeAtEnd; fold root;
      rewrite Hb, Ha; reflexivity. }
  destruct (isFragment d node) eqn:F.
  - (* a document fragment: its children go to the end of the root *)
    assert (root <> node) as Hne.
    { intros <-. unfold isFragment in F. rewrite Troot in F. discriminate. }
    destruct (insert_fragment_append d node root Hd F Er Hne) as (Cr & Cf & Pc & Cq & Px).
    fold d1 in Cr, Cf, Pc, Cq, Px.
    rewrite andb_false_r. unfold insertedContent. rewrite F.
    destruct (insertOnNewLine opt && negb (isBlockElement d1 node)).
    + assert (wf d1) as Hd1 by (apply wf_insert; auto; congruence).
      rewrite (wrap_empty_fragment d1 node); auto.
      * exists (createElement d1 "DIV" []).1. split; [reflexivity|].
        repeat split; intros; rewrite ?childrenOf_createElement, ?parentOf_createElement;
          auto.
      * now rewrite (isFragment_staticOf d1 d) by apply S1.
      * rewrite Px; [done|]. intros Hin. apply (wf_child_parent _ Hd) in Hin. congruence.
    + exists d1. repeat split; auto.
  - (* a single node: it becomes the last child of the root *)
    assert (forall x, parentOf d1 x = if decide (x = node) then Some root else parentOf d x)
      as P1 by (intros; apply parentOf_insert_single; auto).
    assert (forall q, childrenOf d1 q
              = if decide (q = root) then childrenOf d root ++ [node] else childrenOf d q) as C1.
    { intros q. unfold d1. rewrite childrenOf_insert_single by done. simpl.
      now rewrite insertAt_length. }
    rewrite andb_true_r. unfold insertedContent. rewrite F.
    destruct (insertOnNewLine opt && negb (isBlockElement d1 node)).
    + assert (wf d1) as Hd1 by (apply wf_insert; auto).
      destruct (wrap_attached d1 node root)
        as (d3 & Hw & Sw & Cw & Pn & Pw & Cr & Cq & Px & Sx); auto.
      { now rewrite P1, decide_True. }
      { now rewrite (typeOf_staticOf d1 d) by apply S1. }
      { intros Ha'. apply Hanc. eapply Ancestor_transfer; [|exact Ha'].
        intros x Hx _. rewrite P1. now rewrite decide_False. }
      { now rewrite (isFragment_staticOf d1 d) by apply S1. }
      rewrite Hlen in *. rewrite Hw. simpl. exists d3. repeat split; auto.
      * intros q Hq Hqw _. rewrite Cq by done. rewrite C1. now rewrite decide_False.
      * rewrite (Cr (childrenOf d root) []); [done|]. rewrite C1. now rewrite decide_True.
    + exists d1. repeat split.
      * intros q Hq _ _. rewrite C1. now rewrite decide_False.
      * rewrite C1. now rewrite decide_True.
      * intros c Hc. apply list_elem_of_singleton in Hc. subst.
        rewrite P1. now rewrite decide_True.
Qed.

End BeginEnd.

(** ** insertNode on concrete documents *)

Section Scenarios.
Import Host Examples.

(** C6: for a root whose content is <div>hello</div>, inserting a text
    node "X" at Begin with insertOnNewLine = false (whatever the other
    options) puts the text node before the first child inside the block:
    the content becomes <div>Xhello</div>. *)
Theorem insert_text_at_begin_of_div_hello (cursor replace : bool) :
  innerHTML divHello (contentDiv editor) = "<div>hello</div>"
  /\ exists core' d',
       insertNode editor divHello 4
         (Some (mkInsertOption ContentPosition.Begin cursor replace false))
       = Ok (core', d', true)
       /\ innerHTML d' (contentDiv editor) = "<div>Xhello</div>"
       /\ childrenOf d' 2 = [4; 3]
       /\ parentOf d' 4 = Some 2.
Proof.
  split; [vm_compute; reflexivity|].
  destruct cursor, replace; eexists _, _;
    (split; [vm_compute; reflexivity|]); repeat split; vm_compute; reflexivity.
Qed.

(** The wrapping after the last block on <div>hello</div> and the text node "X": the
    content becomes <div>hello</div><div>X</div>. *)
Lemma insert_on_new_line_after_last_block_witness :
  exists d',
    insertNodeAtEnd editor divHello 4
      (mkInsertOption ContentPosition.End false false true) = Ok d'
    /\ childrenOf d' 1 = [2; 5]
    /\ staticOf d' 5 = Some (Element, "DIV", EmptyString, [])
    /\ childrenOf d' 5 = [4]
    /\ innerHTML d' 1 = "<div>hello</div><div>X</div>".
Proof.
  destruct (insert_on_new_line_after_last_block (lib := hostLib) editor divHello 4
              (mkInsertOption ContentPosition.End false false true)
              (mkBlockElement 2 2) [] [])
    as (d' & Hrun & Hroot & Hdiv & Hwrapped & _ & _ & _).
  - apply wfb_sound. vm_compute. reflexivity.
  - reflexivity.
  - vm_compute. reflexivity.
  - reflexivity.
  - reflexivity.
  - vm_compute. eauto.
  - reflexivity.
  - reflexivity.
  - apply not_Ancestor_leaf; [apply wfb_sound; vm_compute; reflexivity|reflexivity|discriminate].
  - vm_compute. reflexivity.
  - exists d'. repeat split; try assumption.
    assert (Ok d' = insertNodeAtEnd editor divHello 4
                      (mkInsertOption ContentPosition.End false false true)) as E
      by (symmetry; exact Hrun).
    vm_compute in E. injection E as ->. vm_compute. reflexivity.
Defined.

(** The fallback of Begin and End on an empty root and the text node "X", at
    Begin: "X" becomes the only child of the root. *)
Lemma insert_into_root_without_block_witness :
  exists d',
    insertNodeAtBegin editor emptyRoot 2
      (mkInsertOption ContentPosition.Begin false false false) = Ok d'
    /\ childrenOf d' 1 = [2]
    /\ parentOf d' 2 = Some 1.
Proof.
  destruct (insert_into_root_without_block (lib := hostLib) true editor emptyRoot 2
              (mkInsertOption ContentPosition.Begin false false false))
    as (d' & Hrun & _ & Hroot & Hparent).
  - apply wfb_sound. vm_compute. reflexivity.
  - reflexivity.
  - vm_compute. reflexivity.
  - vm_compute. eauto.
  - reflexivity.
  - apply not_Ancestor_leaf; [apply wfb_sound; vm_compute; reflexivity|reflexivity|discriminate].
  - exists d'. split; [exact Hrun|]. split; [exact Hroot|].
    apply Hparent. left.
Defined.

(** C8, at the failing input: a document fragment holding the text nodes
    "X" and "Y" inserted at End with insertOnNewLine = true into
    <div>hello</div>.  insertBefore returns the fragment, emptied by the
    insertion, and wrap is applied to it: "X" and "Y" end up as children of
    the root, in no block, and the new DIV (node 8) stays empty and outside
    the tree. *)
Theorem fragment_on_new_line_is_not_wrapped :
  isFragment divHelloFragments 4 = true
  /\ isBlockElement divHelloFragments 4 = false
  /\ exists core' d',
       insertNode editor divHelloFragments 4
         (Some (mkInsertOption ContentPosition.End false false true))
       = Ok (core', d', true)
       /\ innerHTML d' (contentDiv editor) = "<div>hello</div>XY"
       /\ childrenOf d' (contentDiv editor) = [2; 5; 6]
       /\ parentOf d' 5 = Some (contentDiv editor)
       /\ parentOf d' 6 = Some (contentDiv editor)
       /\ staticOf d' 8 = Some (Element, "DIV", EmptyString, [])
       /\ childrenOf d' 8 = []
       /\ parentOf d' 8 = None.
Proof.
  split; [reflexivity|]. split; [reflexivity|].
  eexists _, _. split; [vm_compute; reflexivity|].
  repeat split; vm_compute; reflexivity.
Qed.

End Scenarios.

(** ** The return value of insertNode *)

Section ReturnValue.
Context `{lib : EditorLib}.

(** Whenever insertNode returns, it returns true. *)
Lemma insertNode_returns_true core d node opt core' d' b :
  insertNode core d node opt = Ok (core', d', b) -> b = true.
Proof.
  unfold insertNode. destruct (if updateCursor _ then _ else _) as [c1 d1].
  intros H. apply bind_Ok in H as (d2 & _ & [= _ _ <-]). reflexivity.
Qed.

(** C1, at the failing input: a SelectionStart insertion without focus
    (updateCursor = false) when neither a live range nor a cached range
    exists changes nothing, and insertNode still returns true. *)
Theorem insertNode_without_range_returns_true core d node opt :
  position opt = ContentPosition.SelectionStart ->
  updateCursor opt = false ->
  getLiveRange core d = None ->
  cachedRange core = None ->
  insertNode core d node (Some opt) = Ok (core, d, true).
Proof.
  intros Hpos Hcur Hlive Hcached. unfold insertNode. rewrite Hcur, Hpos.
  unfold insertNodeAtSelection. rewrite Hlive, Hcached. reflexivity.
Qed.

End ReturnValue.

Section ReturnValueWitness.
Import Host Examples.

Lemma insertNode_without_range_returns_true_witness :
  insertNode editor divHello 4
    (Some (mkInsertOption ContentPosition.SelectionStart false true false))
  = Ok (editor, divHello, true).
Proof.
  apply (insertNode_without_range_returns_true (lib := hostLib) editor divHello 4
           (mkInsertOption ContentPosition.SelectionStart false true false));
    reflexivity.
Defined.

End ReturnValueWitness.

(** ** Insertion at the selection *)

Section Select.







End Select.

Section Selection.
Context `{lib : EditorLib}.

(** insertNodeAtSelection, step by step: resolve the range, delete the
    selection if asked to, clone the range, adjust the insertion point,
    insert, and select. *)
Lemma insertNodeAtSelection_steps core d node opt r d' :
  resolveRange core d = Some r ->
  insertNodeAtSelection core d node opt = Ok d' ->
  exists rg0 d1 rg d2 r2 d3,
    range d r = Ok rg0
    /\ (if replaceSelection opt && negb (collapsed rg0) then rangeDeleteContents d r else Ok d)
       = Ok d1
    /\ range d1 r = Ok rg
    /\ adjustInsertionPoint core d1 r rg opt = Ok (d2, r2)
    /\ rangeInsertNode d2 r2 node = Ok d3
    /\ d' = match (if updateCursor opt then nodeForCursor d2 node else None) with
            | Some c => (selectNode core d3 c PositionType.After).1
            | None => (selectRange core d3 (SelectionRange.ofRange rg)).1
            end.
Proof.
  unfold resolveRange, insertNodeAtSelection. intros -> H.
  apply bind_Ok in H as (rg0 & H0 & H). apply bind_Ok in H as (d1 & H1 & H).
  apply bind_Ok in H as (rg & Hrg & H). apply bind_Ok in H as ([d2 r2] & H2 & H).
  apply bind_Ok in H as (d3 & H3 & H).
  exists rg0, d1, rg, d2, r2, d3. repeat split; auto.
  unfold nodeForCursor. destruct_if_in H; now injection H as <-.
Qed.

Lemma wf_adjustInsertionPoint core d r rg opt d2 r2 :
  wf d -> adjustInsertionPoint core d r rg opt = Ok (d2, r2) -> wf d2.
Proof.
  unfold adjustInsertionPoint. intros Hd H.
  destruct_if_in H; [|now injection H as <- _].
  destruct_if_in H.
  - apply bind_Ok in H as (da & Ha & H). apply bind_Ok in H as (db & Hb & [= <- _]).
    eauto using wf_rangeSetEndAfter, wf_rangeCollapse.
  - destruct_if_in H; [|now injection H as <- _].
    apply bind_Ok in H as ([da div] & Ha & H).
    assert (wf da) by eauto using wf_changeElementTag.
    destruct_if_in H; [|now injection H as <- _].
    unfold SelectionRange.getRange in H. eauto using wf_createRange.
Qed.

(** C3: a SelectionStart insertion with replaceSelection over a
    non-collapsed selection range, when it completes, first deletes the
    contents of the selection from the document it was given.  In the
    document [d1] the rest of the insertion works on, a selection inside
    one Text node has left the text before its start followed by the text
    after its end; otherwise every node of the tree that lay within the
    range (taken at the topmost level) has no parent any more, a Text node
    holding the start keeps the characters before the start offset and a
    Text node holding the end those from the end offset on; and the range
    is collapsed.  The node is inserted only afterwards, and in the
    resulting tree every inserted node (the node itself, or each child of
    a document fragment) occurs exactly once among all child lists. *)
Theorem selection_deleted_then_one_copy core d node opt r rg d' :
  wf d ->
  resolveRange core d = Some r ->
  range d r = Ok rg ->
  validRange d rg ->
  collapsed rg = false ->
  replaceSelection opt = true ->
  insertNodeAtSelection core d node opt = Ok d' ->
  exists d1 rg1 d2 r2 d3,
    rangeDeleteContents d r = Ok d1
    /\ selectionRemoved d rg d1
    /\ range d1 r = Ok rg1
    /\ collapsed rg1 = true
    /\ adjustInsertionPoint core d1 r rg1 opt = Ok (d2, r2)
    /\ rangeInsertNode d2 r2 node = Ok d3
    /\ nodes d' = nodes d3
    /\ (forall c, c ∈ insertedContent d2 node -> occurrences d' c = 1)
    /\ (isFragment d2 node = false -> occurrences d' node = 1).
Proof.
  intros Hd Hr Hrg Hvalid Hncol Hrep H.
  destruct (insertNodeAtSelection_steps _ _ _ _ _ _ Hr H)
    as (rg0 & d1 & rg1 & d2 & r2 & d3 & Hrg0 & Hdel & Hrg1 & Hadj & Hins & ->).
  rewrite Hrg in Hrg0. injection Hrg0 as <-.
  rewrite Hrep, Hncol in Hdel. simpl in Hdel.
  destruct (rangeDeleteContents_Ok _ _ _ _ Hrg Hncol Hvalid Hdel) as (Hgone & rg1' & Hrg1' & Hcol).
  apply (selectionDeleted_removed _ _ _ Hvalid Hncol) in Hgone.
  rewrite Hrg1 in Hrg1'. injection Hrg1' as <-.
  assert (wf d1) as Hd1 by eauto using wf_rangeDeleteContents.
  assert (wf d2) as Hd2 by eauto using wf_adjustInsertionPoint.
  assert (wf d3) as Hd3 by eauto using wf_rangeInsertNode.
  set (dfinal := match (if updateCursor opt then nodeForCursor d2 node else None) with
                 | Some c => (selectNode core d3 c PositionType.After).1
                 | None => (selectRange core d3 (SelectionRange.ofRange rg1)).1
                 end).
  assert (nodes dfinal = nodes d3) as Hn.
  { unfold dfinal. destruct (if updateCursor opt then _ else _);
      [apply nodes_selectNode|apply nodes_selectRange]. }
  destruct (rangeInsertNode_content _ _ _ _ Hd2 Hins) as (parent & Hparent).
  assert (forall c, c ∈ insertedContent d2 node -> occurrences dfinal c = 1) as Hone.
  { intros c Hc. rewrite (occurrences_same_nodes _ d3 c Hn).
    apply occurrences_attached with parent; auto. }
  exists d1, rg1, d2, r2, d3. repeat split; auto.
  intros Hnf. apply Hone. unfold insertedContent. rewrite Hnf. left.
Qed.


(** C2, as amended: in a SelectionStart insertion without insertOnNewLine
    that completes, when the end node [p] of the block of the range start
    is a P element, [p] is retyped before the node is inserted: a new DIV
    element [div] with the attributes and the children of [p] stands where
    [p] stood, and [p] is left empty and out of the tree.  The range
    boundaries normalized before the retyping become the insertion range
    again only when both normalized boundary nodes differ from [div] and
    are still inside the root after the retyping; otherwise the insertion
    uses the host's range as the retyping left it. *)
Theorem paragraph_retyped_before_insertion core d node opt r d' :
  wf d ->
  resolveRange core d = Some r ->
  insertOnNewLine opt = false ->
  insertNodeAtSelection core d node opt = Ok d' ->
  exists rg0 d1 rg d2 r2 d3,
    range d r = Ok rg0
    /\ (if replaceSelection opt && negb (collapsed rg0) then rangeDeleteContents d r else Ok d)
       = Ok d1
    /\ range d1 r = Ok rg
    /\ adjustInsertionPoint core d1 r rg opt = Ok (d2, r2)
    /\ rangeInsertNode d2 r2 node = Ok d3
    /\ nodes d' = nodes d3
    /\ forall b,
         getBlockElementAtNode d1 (contentDiv core) (Some (startContainer rg)) = Some b ->
         getTagOfNode d1 (getEndNode b) = "P"%string ->
         let p := getEndNode b in
         let div := length (nodes d1) in
         let cache := SelectionRange.normalize d1 (SelectionRange.ofRange rg) in
         let start := Position.node (SelectionRange.start cache) in
         let end_ := Position.node (SelectionRange.end_ cache) in
         exists dt,
           changeElementTag d1 p "div" = Ok (dt, div)
           /\ nodes d2 = nodes dt
           /\ getTagOfNode dt div = "DIV"%string
           /\ staticOf dt div
              = Some (Element, "DIV"%string, EmptyString, attributesOf d1 p)
           /\ childrenOf dt div = childrenOf d1 p
           /\ parentOf dt div = parentOf d1 p
           /\ (forall q l1 l2, parentOf d1 p = Some q -> childrenOf d1 q = l1 ++ p :: l2 ->
                 childrenOf dt q = l1 ++ div :: l2)
           /\ childrenOf dt p = []
           /\ parentOf dt p = None
           /\ if negb (bool_decide (start = div)) && negb (bool_decide (end_ = div))
                 && contains dt (contentDiv core) start && contains dt (contentDiv core) end_
              then r2 = length (ranges dt)
                   /\ ranges d2 !! r2
                      = Some (setEnd dt (Position.toBoundary (SelectionRange.end_ cache))
                                (collapsedAt (Position.toBoundary (SelectionRange.start cache))))
              else r2 = r /\ d2 = dt.
Proof.
  intros Hd Hr Hnl H.
  destruct (insertNodeAtSelection_steps _ _ _ _ _ _ Hr H)
    as (rg0 & d1 & rg & d2 & r2 & d3 & Hrg0 & Hdel & Hrg & Hadj & Hins & ->).
  exists rg0, d1, rg, d2, r2, d3. repeat split; auto.
  { destruct (if updateCursor opt then _ else _);
      [apply nodes_selectNode|apply nodes_selectRange]. }
  assert (wf d1) as Hd1.
  { destruct_if_in Hdel; [eauto using wf_rangeDeleteContents|now injection Hdel as <-]. }
  intros b Hb Htag p div cache start end_.
  unfold adjustInsertionPoint in Hadj. rewrite Hb, Hnl in Hadj. fold p in Hadj.
  rewrite (bool_decide_eq_true_2 _ Htag) in Hadj.
  apply bind_Ok in Hadj as ([dt div'] & Ht & Hadj).
  assert (is_Some (nodes d1 !! p)) as Ep.
  { destruct (nodes d1 !! p) as [pd|] eqn:E; [eauto|].
    unfold getTagOfNode in Htag. fold p in Htag. rewrite E in Htag. discriminate. }
  destruct (changeElementTag_Ok _ _ _ _ _ Hd1 Ep Ht)
    as (-> & Wt & St & Cn & Ce & Pn & Pe & _ & Cp & _).
  fold div cache start end_ in Hadj |- *.
  exists dt. split; [exact Ht|].
  assert (getTagOfNode dt div = "DIV"%string) as Tdiv.
  { unfold div. now rewrite (getTagOfNode_of_static _ _ _ _ _ St). }
  assert (staticOf dt div = Some (Element, "DIV"%string, EmptyString, attributesOf d1 p))
    as Sdiv by exact St.
  destruct_if_in Hadj.
  - unfold SelectionRange.getRange, createRange in Hadj.
    destruct_if_in Hadj; [discriminate|]. injection Hadj as <- <-.
    repeat split; auto. simpl. now rewrite lookup_app_r, Nat.sub_diag by done.
  - injection Hadj as <- <-. repeat split; auto.
Qed.

End Selection.

(** ** Insertion at the selection, on concrete documents *)

Section SelectionScenarios.
Import Host Examples.

(** The C3 theorem applied twice.  On
    <div>hello</div><div>mid</div><div>world</div> selected from after
    "he" to before "ld", with the text node "X": the deletion leaves "he"
    and "ld" in their text nodes and takes the middle div out of the tree,
    and the content becomes <div>he</div>X<div>ld</div>.  On
    <div>hello</div> with "ell" selected: the content becomes
    <div>hXo</div>.  In both there is one "X". *)
Lemma selection_deleted_then_one_copy_witness :
  (exists d1 d',
     rangeDeleteContents threeDivsSelected 0 = Ok d1
     /\ parentOf d1 4 = None
     /\ valueOf d1 3 = "he"
     /\ valueOf d1 7 = "ld"
     /\ insertNodeAtSelection editor threeDivsSelected 8
          (mkInsertOption ContentPosition.SelectionStart true true false) = Ok d'
     /\ innerHTML d' 1 = "<div>he</div>X<div>ld</div>"
     /\ occurrences d' 8 = 1)
  /\ (exists d1 d',
        rangeDeleteContents divHelloSelected 0 = Ok d1
        /\ valueOf d1 3 = "ho"
        /\ insertNodeAtSelection editor divHelloSelected 4
             (mkInsertOption ContentPosition.SelectionStart true true false) = Ok d'
        /\ innerHTML d' 1 = "<div>hXo</div>"
        /\ occurrences d' 4 = 1).
Proof.
  split.
  - destruct (insertNodeAtSelection editor threeDivsSelected 8
                (mkInsertOption ContentPosition.SelectionStart true true false))
      as [d'|e] eqn:H.
    2: { vm_compute in H. discriminate. }
    destruct (selection_deleted_then_one_copy (lib := hostLib) editor threeDivsSelected 8
                (mkInsertOption ContentPosition.SelectionStart true true false)
                0 (mkRange 3 2 7 3) d')
      as (d1 & rg1 & d2 & r2 & d3 & Hdel & Hgone & Hrg1 & _ & Hadj & _ & _ & _ & Hone).
    + apply wfb_sound. vm_compute. reflexivity.
    + vm_compute. reflexivity.
    + reflexivity.
    + split; [vm_compute; lia|]. split; [vm_compute; lia|]. vm_compute. discriminate.
    + vm_compute. reflexivity.
    + reflexivity.
    + exact H.
    + unfold selectionRemoved in Hgone. cbv zeta in Hgone.
      lazymatch type of Hgone with
      | if ?c then _ else _ => replace c with false in Hgone by (vm_compute; reflexivity)
      end.
      destruct Hgone as (Hnodes & Hstart & Hend).
      assert (parentOf d1 4 = None) as Hmid.
      { apply Hnodes.
        - apply (bool_decide_unpack _). vm_compute. exact I.
        - split; [vm_compute; reflexivity|]. split; vm_compute; reflexivity.
        - intros q Hq. vm_compute in Hq. injection Hq as <-.
          intros (_ & Hafter & _). vm_compute in Hafter. discriminate. }
      pose proof (Hstart eq_refl) as Hhe. pose proof (Hend eq_refl) as Hld.
      exists d1, d'. split; [exact Hdel|]. split; [exact Hmid|].
      split; [exact Hhe|]. split; [exact Hld|]. split; [reflexivity|].
      vm_compute in Hdel. injection Hdel as <-.
      vm_compute in Hrg1. injection Hrg1 as <-.
      vm_compute in Hadj. injection Hadj as <- <-.
      split; [|apply Hone; vm_compute; reflexivity].
      vm_compute in H. injection H as <-. vm_compute. reflexivity.
  - destruct (insertNodeAtSelection editor divHelloSelected 4
                (mkInsertOption ContentPosition.SelectionStart true true false))
      as [d'|e] eqn:H.
    2: { vm_compute in H. discriminate. }
    destruct (selection_deleted_then_one_copy (lib := hostLib) editor divHelloSelected 4
                (mkInsertOption ContentPosition.SelectionStart true true false)
                0 (mkRange 3 1 3 4) d')
      as (d1 & rg1 & d2 & r2 & d3 & Hdel & Hgone & Hrg1 & _ & Hadj & _ & _ & _ & Hone).
    + apply wfb_sound. vm_compute. reflexivity.
    + vm_compute. reflexivity.
    + reflexivity.
    + split; [vm_compute; lia|]. split; [vm_compute; lia|]. vm_compute. discriminate.
    + vm_compute. reflexivity.
    + reflexivity.
    + exact H.
    + unfold selectionRemoved in Hgone. cbv zeta in Hgone.
      lazymatch type of Hgone with
      | if ?c then _ else _ => replace c with true in Hgone by (vm_compute; reflexivity)
      end.
      exists d1, d'. split; [exact Hdel|]. split; [exact Hgone|]. split; [reflexivity|].
      vm_compute in Hdel. injection Hdel as <-.
      vm_compute in Hrg1. injection Hrg1 as <-.
      vm_compute in Hadj. injection Hadj as <- <-.
      split; [|apply Hone; vm_compute; reflexivity].
      vm_compute in H. injection H as <-. vm_compute. reflexivity.
Defined.



(** C2, as stated, fails when the caret is in an empty paragraph: the
    normalized boundary node is the P element itself, which is out of the
    tree after the retyping, so the boundaries are not carried over.  The
    text node "X" (node 3) is inserted where the host's range was left, in
    the root before the new DIV, and not in the new container (node 4). *)
Lemma empty_paragraph_range_not_remapped :
  exists d',
    insertNodeAtSelection editor paragraphEmpty 3
      (mkInsertOption ContentPosition.SelectionStart false false false) = Ok d'
    /\ getTagOfNode paragraphEmpty 2 = "P"
    /\ ranges paragraphEmpty !! 0 = Some (mkRange 2 0 2 0)
    /\ getTagOfNode d' 4 = "DIV"
    /\ childrenOf d' 4 = []
    /\ parentOf d' 3 = Some 1
    /\ innerHTML d' 1 = "X<div></div>".
Proof.
  eexists. split; [vm_compute; reflexivity|]. repeat split.
Qed.

(** The amended C2 theorem applied to <p class='note'>hello</p> with the
    caret after "he" and the text node "X": the paragraph (node 2) is
    replaced by a new DIV (node 5) holding its attribute and its children,
    the normalized boundaries are inside the root and become the insertion
    range, and the content becomes <div class='note'>heXllo</div>. *)
Lemma paragraph_retyped_before_insertion_witness :
  exists d' dt,
    insertNodeAtSelection editor paragraphNote 4
      (mkInsertOption ContentPosition.SelectionStart false false false) = Ok d'
    /\ changeElementTag paragraphNote 2 "div" = Ok (dt, 5)
    /\ getTagOfNode dt 5 = "DIV"
    /\ staticOf dt 5 = Some (Element, "DIV", EmptyString, [("class", "note")])
    /\ childrenOf dt 5 = [3]
    /\ parentOf dt 5 = Some 1
    /\ parentOf dt 2 = None
    /\ innerHTML d' 1
       = "<div class=" +:+ quote +:+ "note" +:+ quote +:+ ">heXllo</div>".
Proof.
  destruct (insertNodeAtSelection editor paragraphNote 4
              (mkInsertOption ContentPosition.SelectionStart false false false))
    as [d'|e] eqn:H.
  2: { vm_compute in H. discriminate. }
  destruct (paragraph_retyped_before_insertion (lib := hostLib) editor paragraphNote 4
              (mkInsertOption ContentPosition.SelectionStart false false false) 0 d')
    as (rg0 & d1 & rg & d2 & r2 & d3 & Hrg0 & Hdel & Hrg & _ & _ & _ & Hretyped).
  - apply wfb_sound. vm_compute. reflexivity.
  - vm_compute. reflexivity.
  - reflexivity.
  - exact H.
  - vm_compute in Hrg0. injection Hrg0 as <-.
    vm_compute in Hdel. injection Hdel as <-.
    vm_compute in Hrg. injection Hrg as <-.
    destruct (Hretyped (mkBlockElement 2 2))
      as (dt & Ht & _ & Htag & Hst & Hch & Hpar & _ & _ & Hold & _).
    + vm_compute. reflexivity.
    + vm_compute. reflexivity.
    + exists d', dt. split; [reflexivity|]. split; [exact Ht|]. split; [exact Htag|].
      split; [exact Hst|]. split; [exact Hch|]. split; [exact Hpar|]. split; [exact Hold|].
      vm_compute in H. injection H as <-. vm_compute. reflexivity.
Defined.

End SelectionScenarios.

(** ** Insertion at the begin and the end of the editor, in general *)

Section InsertContent.

Lemma insertAt_nil {A} (i : nat) (l : list A) : insertAt i [] l = l.
Proof. unfold insertAt. simpl. apply take_drop. Qed.

Lemma insertAt_0 {A} (xs l : list A) : insertAt 0 xs l = xs ++ l.
Proof. unfold insertAt. now rewrite take_0, drop_0. Qed.

Lemma childrenOf_mapBoundaries f d q : childrenOf (mapBoundaries f d) q = childrenOf d q.
Proof. reflexivity. Qed.

Lemma parentOf_mapBoundaries f d q : parentOf (mapBoundaries f d) q = parentOf d q.
Proof. reflexivity. Qed.

(** "insert node into parent before child" for a parentless node or a
    document fragment: the inserted content lands at the insertion index
    among the children of the parent, a fragment is left empty, and nothing
    else moves. *)
Lemma insert_content d node p child :
  wf d -> is_Some (nodes d !! p) -> p <> node ->
  (isFragment d node = false -> parentOf d node = None /\ is_Some (nodes d !! node)) ->
  childrenOf (insert d node p child) p
  = insertAt (insertIndex d p child) (insertedContent d node) (childrenOf d p)
  /\ (forall c, c ∈ insertedContent d node -> parentOf (insert d node p child) c = Some p)
  /\ (forall q, q <> p -> q <> node -> childrenOf (insert d node p child) q = childrenOf d q)
  /\ (forall x, x ∉ insertedContent d node -> parentOf (insert d node p child) x = parentOf d x)
  /\ childrenOf (insert d node p child) node
     = (if isFragment d node then [] else childrenOf d node).
Proof.
  intros Hd Ep Hpn Hnode. unfold insertedContent.
  destruct (isFragment d node) eqn:F.
  - unfold insert. rewrite F. case_bool_decide as Hcount.
    { apply length_zero_iff_nil in Hcount. rewrite Hcount, insertAt_nil.
      repeat split; auto. intros c Hc. by apply elem_of_nil in Hc. }
    set (ns := childrenOf d node) in *. set (d0 := foldl remove d ns).
    assert (forall n, n ∈ ns -> parentOf d n = Some node) as Hns
      by (intros n Hn; now apply (wf_child_parent _ Hd)).
    assert (forall q, q <> node -> childrenOf d0 q = childrenOf d q) as C0.
    { intros q Hq. apply childrenOf_foldl_remove_other. intros n Hn. rewrite (Hns n Hn).
      congruence. }
    assert (childrenOf d0 node = []) as C0f by now apply childrenOf_foldl_remove_all.
    assert (is_Some (nodes d0 !! p)) as [pd Ep0].
    { apply is_Some_staticOf. unfold d0. rewrite staticOf_foldl_remove.
      now apply is_Some_staticOf. }
    assert (forall c, c ∈ ns -> is_Some (nodes d0 !! c)) as Ec.
    { intros c Hc. apply is_Some_staticOf. unfold d0. rewrite staticOf_foldl_remove.
      apply is_Some_staticOf. eapply parentOf_exists, Hns, Hc. }
    destruct child as [c|]; unfold insertIndex; repeat split.
    + rewrite childrenOf_attach, decide_True by done. simpl. rewrite Ep0.
      now rewrite childrenOf_mapBoundaries, (C0 p Hpn).
    + intros x Hx. rewrite parentOf_attach, decide_True by done. simpl.
      now destruct (Ec x Hx) as [cd ->].
    + intros q Hqp Hqf. rewrite childrenOf_attach, decide_False by done. now apply C0.
    + intros x Hx. rewrite parentOf_attach, decide_False by done.
      rewrite parentOf_mapBoundaries.
      unfold d0. rewrite parentOf_foldl_remove. now rewrite decide_False.
    + rewrite childrenOf_attach, decide_False by congruence. exact C0f.
    + rewrite childrenOf_attach, decide_True by done. rewrite Ep0.
      now rewrite (C0 p Hpn).
    + intros x Hx. rewrite parentOf_attach, decide_True by done.
      now destruct (Ec x Hx) as [cd ->].
    + intros q Hqp Hqf. rewrite childrenOf_attach, decide_False by done. now apply C0.
    + intros x Hx. rewrite parentOf_attach, decide_False by done.
      unfold d0. rewrite parentOf_foldl_remove. now rewrite decide_False.
    + rewrite childrenOf_attach, decide_False by congruence. exact C0f.
  - destruct (Hnode eq_refl) as [Hpar En]. repeat split.
    + rewrite childrenOf_insert_single by done. now rewrite decide_True.
    + intros c Hc. apply list_elem_of_singleton in Hc. subst.
      rewrite parentOf_insert_single by done. now rewrite decide_True.
    + intros q Hq _. rewrite childrenOf_insert_single by done. now rewrite decide_False.
    + intros x Hx. rewrite parentOf_insert_single by done. rewrite decide_False; [done|].
      intros ->. apply Hx. left.
    + rewrite childrenOf_insert_single by done. rewrite decide_False; congruence.
Qed.

End InsertContent.

Section BeginEndInline.
Context `{lib : EditorLib}.

Lemma head_None_nil {A} (l : list A) : head l = None -> l = [].
Proof. now destruct l. Qed.

Lemma last_None_nil {A} (l : list A) : last l = None -> l = [].
Proof.
  destruct l as [|x l]; [done|]. intros H. exfalso.
  assert (is_Some (last (x :: l))) as [y Hy]; [|congruence].
  rewrite last_is_Some. discriminate.
Qed.

Lemma isText_Element d n : typeOf d n = Some Element -> isText d n = false.
Proof. unfold isText. intros ->. reflexivity. Qed.

Lemma not_Ancestor_ne d a n : ~ Ancestor d a n -> n <> a.
Proof. intros H ->. apply H. constructor. Qed.

Lemma typeOf_exists d n t : typeOf d n = Some t -> is_Some (nodes d !! n).
Proof. unfold typeOf. destruct (nodes d !! n); [eauto|discriminate]. Qed.

(** X1: an inline insertion (insertOnNewLine = false) at Begin or End,
    when the reference node of the block found (its start node at Begin,
    its end node at End) is an element that has children or can have
    them, puts the inserted content inside that element, before its first
    child at Begin and after its last child at End.  No node is created
    and nothing else moves. *)
Theorem insert_inline_inside_block
  (atBegin : bool) (core : EditorCore) (d : Document) (node : Node) (opt : InsertOption)
  (b : BlockElement) :
  let root := contentDiv core in
  let ref := if atBegin then getStartNode b else getEndNode b in
  wf d ->
  getBlockElementAtNode d root
    (if atBegin then getFirstLeafNode d root else getLastLeafNode d root) = Some b ->
  insertOnNewLine opt = false ->
  typeOf d ref = Some Element ->
  (childrenOf d ref = [] -> isVoidHtmlElement d ref = false) ->
  is_Some (nodes d !! node) ->
  parentOf d node = None ->
  ~ Ancestor d node ref ->
  exists d',
    (if atBegin then insertNodeAtBegin core d node opt else insertNodeAtEnd core d node opt)
    = Ok d'
    /\ childrenOf d' ref
       = (if atBegin then insertedContent d node ++ childrenOf d ref
          else childrenOf d ref ++ insertedContent d node)
    /\ (forall c, c ∈ insertedContent d node -> parentOf d' c = Some ref)
    /\ (forall q, q <> ref -> q <> node -> childrenOf d' q = childrenOf d q)
    /\ (forall x, x ∉ insertedContent d node -> parentOf d' x = parentOf d x)
    /\ (forall x, staticOf d' x = staticOf d x)
    /\ length (nodes d') = length (nodes d).
Proof.
  intros root ref Hd Hb Hnl Tref Hvoid En Hpar Hanc.
  assert (is_Some (nodes d !! ref)) as Er by eauto using typeOf_exists.
  assert (typeOf d ref <> Some Text) as Tr by (rewrite Tref; discriminate).
  pose proof (isText_Element _ _ Tref) as Htext.
  pose proof (not_Ancestor_ne _ _ _ Hanc) as Hne.
  set (child := if atBegin then firstChild d ref else None).
  assert ((if atBegin then insertNodeAtBegin core d node opt
           else insertNodeAtEnd core d node opt)
          = Ok (insert d node ref child)) as Hrun.
  { destruct atBegin; unfold insertNodeAtBegin, insertNodeAtEnd; fold root;
      rewrite Hb; cbv zeta; fold ref; rewrite Hnl; unfold child.
    - destruct (firstChild d ref) as [fc|] eqn:Hfc.
      + rewrite insertBefore_fresh; auto. intros c [= <-].
        apply (wf_child_parent _ Hd). unfold firstChild in Hfc.
        destruct (childrenOf d ref); [discriminate|]. injection Hfc as ->. left.
      + rewrite Htext, (Hvoid (head_None_nil _ Hfc)). simpl.
        rewrite appendChild_fresh; auto.
    - destruct (lastChild d ref) as [lc|] eqn:Hlc.
      + rewrite appendChild_fresh; auto.
      + rewrite Htext, (Hvoid (last_None_nil _ Hlc)). simpl.
        rewrite appendChild_fresh; auto. }
  destruct (insert_content d node ref child Hd Er Hne) as (Cr & Pc & Cq & Px & _).
  { intros _. auto. }
  exists (insert d node ref child). split; [exact Hrun|]. repeat split; auto.
  - rewrite Cr. unfold child. destruct atBegin.
    + unfold firstChild.
      rewrite (insertIndex_head d ref [] (childrenOf d ref)); [apply insertAt_0|done|].
      apply (wf_nodup _ Hd).
    + apply insertAt_length.
  - intros x. apply staticOf_insert.
  - apply length_nodes_insert.
Qed.

(** Insertion of a parentless node or a document fragment among the
    children of [p], right before [ref] or right after it. *)
Lemma insert_beside (atBegin : bool) d p ref before after node :
  wf d -> childrenOf d p = before ++ ref :: after -> typeOf d p = Some Element ->
  is_Some (nodes d !! node) -> parentOf d node = None -> ~ Ancestor d node p ->
  let child := if atBegin then Some ref else nextSibling d ref in
  let d1 := insert d node p child in
  insertBefore d p node child = Ok (d1, node)
  /\ childrenOf d1 p
     = (if atBegin then before ++ insertedContent d node ++ ref :: after
        else before ++ ref :: insertedContent d node ++ after)
  /\ (forall c, c ∈ insertedContent d node -> parentOf d1 c = Some p)
  /\ (forall q, q <> p -> q <> node -> childrenOf d1 q = childrenOf d q)
  /\ (forall x, x ∉ insertedContent d node -> parentOf d1 x = parentOf d x)
  /\ childrenOf d1 node = (if isFragment d node then [] else childrenOf d node).
Proof.
  intros Hd Hl Tp En Hpar Hanc child d1.
  assert (is_Some (nodes d !! p)) as Ep by eauto using typeOf_exists.
  assert (typeOf d p <> Some Text) as Tp' by (rewrite Tp; discriminate).
  pose proof (not_Ancestor_ne _ _ _ Hanc) as Hne.
  assert (parentOf d ref = Some p) as Pref.
  { apply (wf_child_parent _ Hd). rewrite Hl. apply elem_of_app. right. left. }
  pose proof (nextSibling_split _ _ _ _ _ Hd Hl) as Hns.
  pose proof (wf_nodup _ Hd p) as Hnd. rewrite Hl in Hnd.
  destruct (insert_content d node p child Hd Ep Hne) as (Cp & Pc & Cq & Px & Cn).
  { intros _. auto. }
  fold d1 in Cp, Pc, Cq, Px, Cn. repeat split; auto.
  - apply insertBefore_fresh; auto. unfold child. destruct atBegin.
    + now intros c [= <-].
    + rewrite Hns. intros c Hc. apply (wf_child_parent _ Hd). rewrite Hl.
      apply elem_of_app. right. right.
      destruct after as [|c' after']; simpl in Hc; [discriminate|]. injection Hc as ->. left.
  - rewrite Cp, Hl. unfold child. destruct atBegin.
    + unfold insertIndex. rewrite Hl, indexIn_app_r; [apply insertAt_app|].
      now apply NoDup_app_cons_notin in Hnd as [H _].
    + rewrite Hns, <- Hl, (insertIndex_after _ _ _ _ _ Hd Hl), Hl.
      replace (before ++ ref :: after) with ((before ++ [ref]) ++ after)
        by now rewrite <- app_assoc.
      replace (S (length before)) with (length (before ++ [ref]))
        by (rewrite length_app; simpl; lia).
      rewrite insertAt_app. now rewrite <- app_assoc.
Qed.

(** X2: an inline insertion at Begin or End of a parentless node or a
    document fragment that is not an ancestor of the parent of the
    reference node, when the reference node of the block found has no
    children and is a text node or a void element (BR, HR, ...), succeeds
    and puts the inserted content next to the reference node among the
    children of its parent: right before it at Begin, right after it at
    End. *)
Theorem insert_inline_beside_text_or_void
  (atBegin : bool) (core : EditorCore) (d : Document) (node : Node) (opt : InsertOption)
  (b : BlockElement) (p : Node) (before after : list Node) :
  let root := contentDiv core in
  let ref := if atBegin then getStartNode b else getEndNode b in
  wf d ->
  getBlockElementAtNode d root
    (if atBegin then getFirstLeafNode d root else getLastLeafNode d root) = Some b ->
  insertOnNewLine opt = false ->
  childrenOf d ref = [] ->
  isText d ref || isVoidHtmlElement d ref = true ->
  childrenOf d p = before ++ ref :: after ->
  typeOf d p = Some Element ->
  is_Some (nodes d !! node) ->
  parentOf d node = None ->
  ~ Ancestor d node p ->
  exists d',
    (if atBegin then insertNodeAtBegin core d node opt else insertNodeAtEnd core d node opt)
    = Ok d'
    /\ childrenOf d' p
       = (if atBegin then before ++ insertedContent d node ++ ref :: after
          else before ++ ref :: insertedContent d node ++ after)
    /\ (forall c, c ∈ insertedContent d node -> parentOf d' c = Some p)
    /\ (forall q, q <> p -> q <> node -> childrenOf d' q = childrenOf d q)
    /\ (forall x, x ∉ insertedContent d node -> parentOf d' x = parentOf d x)
    /\ (forall x, staticOf d' x = staticOf d x)
    /\ length (nodes d') = length (nodes d).
Proof.
  intros root ref Hd Hb Hnl Hleaf Hkind Hl Tp En Hpar Hanc.
  assert (parentOf d ref = Some p) as Pref.
  { apply (wf_child_parent _ Hd). rewrite Hl. apply elem_of_app. right. left. }
  destruct (insert_beside atBegin d p ref before after node Hd Hl Tp En Hpar Hanc)
    as (Hins & Cp & Pc & Cq & Px & _).
  set (child := if atBegin then Some ref else nextSibling d ref) in *.
  exists (insert d node p child). repeat split; auto.
  - destruct atBegin; unfold insertNodeAtBegin, insertNodeAtEnd; fold root;
      rewrite Hb; cbv zeta; fold ref; rewrite Hnl;
      unfold firstChild, lastChild; rewrite Hleaf; simpl; rewrite Hkind, Pref; simpl;
      unfold child in Hins; rewrite Hins; reflexivity.
  - intros x. apply staticOf_insert.
  - apply length_nodes_insert.
Qed.

(** X3: an insertion on a new line (insertOnNewLine = true) at Begin or
    End of a node that is not a document fragment, when a block is found:
    the node goes among the children of the parent of the block's
    reference node, right before the block's start node at Begin and right
    after its end node at End.  A block-level node stays there as it is; a
    node that is not block-level is replaced there by a new DIV without
    attributes whose only child is the node. *)
Theorem insert_on_new_line_beside_block
  (atBegin : bool) (core : EditorCore) (d : Document) (node : Node) (opt : InsertOption)
  (b : BlockElement) (p : Node) (before after : list Node) :
  let root := contentDiv core in
  let ref := if atBegin then getStartNode b else getEndNode b in
  let w := length (nodes d) in
  let d1 := insert d node p (if atBegin then Some ref else nextSibling d ref) in
  wf d ->
  getBlockElementAtNode d root
    (if atBegin then getFirstLeafNode d root else getLastLeafNode d root) = Some b ->
  insertOnNewLine opt = true ->
  childrenOf d p = before ++ ref :: after ->
  typeOf d p = Some Element ->
  is_Some (nodes d !! node) ->
  parentOf d node = None ->
  isFragment d node = false ->
  ~ Ancestor d node p ->
  exists d',
    (if atBegin then insertNodeAtBegin core d node opt else insertNodeAtEnd core d node opt)
    = Ok d'
    /\ (forall q, q <> p -> q <> w -> childrenOf d' q = childrenOf d q)
    /\ (forall x, x <> w -> staticOf d' x = staticOf d x)
    /\ if isBlockElement d1 node
       then childrenOf d' p
            = (if atBegin then before ++ node :: ref :: after
               else before ++ ref :: node :: after)
            /\ parentOf d' node = Some p
            /\ length (nodes d') = length (nodes d)
       else childrenOf d' p
            = (if atBegin then before ++ w :: ref :: after
               else before ++ ref :: w :: after)
            /\ staticOf d' w = Some (Element, "DIV"%string, EmptyString, [])
            /\ childrenOf d' w = [node]
            /\ parentOf d' node = Some w.
Proof.
  intros root ref w d1 Hd Hb Hnl Hl Tp En Hpar Hfrag Hanc.
  assert (parentOf d ref = Some p) as Pref.
  { apply (wf_child_parent _ Hd). rewrite Hl. apply elem_of_app. right. left. }
  assert (is_Some (nodes d !! p)) as Ep by eauto using typeOf_exists.
  destruct (insert_beside atBegin d p ref before after node Hd Hl Tp En Hpar Hanc)
    as (Hins & Cp & Pc & Cq & Px & Cn).
  fold d1 in Hins, Cp, Pc, Cq, Px, Cn.
  unfold insertedContent in Cp, Pc, Px. rewrite Hfrag in Cp, Pc, Px. simpl in Cp.
  assert (forall x, staticOf d1 x = staticOf d x) as S1 by (intros; apply staticOf_insert).
  assert (parentOf d1 node = Some p) as Pn by (apply Pc; left).
  assert ((if atBegin then insertNodeAtBegin core d node opt
           else insertNodeAtEnd core d node opt)
          = if isBlockElement d1 node then Ok d1
            else fst <$> wrap d1 node HTML_EMPTY_DIV) as ->.
  { destruct atBegin; unfold insertNodeAtBegin, insertNodeAtEnd; fold root;
      rewrite Hb; cbv zeta; fold ref; rewrite Hnl, Pref; simpl;
      fold d1 in Hins; rewrite Hins; simpl; destruct (isBlockElement d1 node); reflexivity. }
  destruct (isBlockElement d1 node).
  - exists d1. repeat split; auto.
    + intros q Hq _. destruct (decide (q = node)) as [->|Hqn]; [|now apply Cq].
      now rewrite Cn, Hfrag.
    + apply length_nodes_insert.
  - assert (wf d1) as Hd1 by (apply wf_insert; auto).
    destruct (wrap_attached d1 node p)
      as (d3 & Hw & Sw & Cw & Pn' & Pw & Cr & Cq' & Px' & Sx); auto.
    { rewrite (typeOf_staticOf d1 d) by apply S1. rewrite Tp. discriminate. }
    { intros Ha. apply Hanc. eapply Ancestor_transfer; [|exact Ha].
      intros x Hx _. apply Px. intros Hin. apply list_elem_of_singleton in Hin. done. }
    { now rewrite (isFragment_staticOf d1 d) by apply S1. }
    assert (length (nodes d1) = w) as Hlen by apply length_nodes_insert.
    rewrite Hlen in *. rewrite Hw. simpl. exists d3. repeat split; auto.
    + intros q Hq Hqw. rewrite Cq' by done.
      destruct (decide (q = node)) as [->|Hqn]; [|now apply Cq].
      now rewrite Cn, Hfrag.
    + intros x Hx. now rewrite Sx, S1.
    + destruct atBegin.
      * now apply (Cr before (ref :: after)).
      * rewrite (Cr (before ++ [ref]) after); [now rewrite <- app_assoc|].
        rewrite Cp. now rewrite <- app_assoc.
Qed.

End BeginEndInline.

Section SameNodes.

Lemma typeOf_same_nodes d d' x : nodes d = nodes d' -> typeOf d x = typeOf d' x.
Proof. unfold typeOf. now intros ->. Qed.

Lemma staticOf_same_nodes d d' x : nodes d = nodes d' -> staticOf d x = staticOf d' x.
Proof. unfold staticOf. now intros ->. Qed.

Lemma isFragment_same_nodes d d' x : nodes d = nodes d' -> isFragment d x = isFragment d' x.
Proof. unfold isFragment, typeOf. now intros ->. Qed.

Lemma insertedContent_same_nodes d d' x :
  nodes d = nodes d' -> insertedContent d x = insertedContent d' x.
Proof. unfold insertedContent, isFragment, typeOf, childrenOf. now intros ->. Qed.

Lemma Ancestor_same_nodes d d' a n : nodes d = nodes d' -> Ancestor d' a n -> Ancestor d a n.
Proof.
  intros H. apply Ancestor_transfer. intros x _ _. symmetry. now apply parentOf_same_nodes.
Qed.

End SameNodes.

Section OutsideAndInvariant.
Context `{lib : EditorLib}.

(** focus(core), called when updateCursor is set, leaves the tree and the
    root as they are. *)
Lemma focus_keeps_tree core d (opt : InsertOption) core1 d1 :
  (if updateCursor opt then applyFocus core d else (core, d)) = (core1, d1) ->
  nodes d1 = nodes d /\ contentDiv core1 = contentDiv core.
Proof.
  destruct (updateCursor opt); [|now intros [= <- <-]].
  unfold applyFocus. destruct (focus _ _ _) as [[rs sel] cached]. now intros [= <- <-].
Qed.

(** X4: an insertion at Outside of a parentless node or a document
    fragment that is not an ancestor of the root's parent puts the
    inserted content right after the editor root among the children of
    the root's parent, whatever the other options: nothing is wrapped, no
    node is created, and the children of every other node but the
    inserted one, those of the root included, stay as they are. *)
Theorem insert_outside_after_root
  (core : EditorCore) (d : Document) (node : Node) (opt : InsertOption)
  (p : Node) (before after : list Node) :
  let root := contentDiv core in
  wf d ->
  position opt = ContentPosition.Outside ->
  childrenOf d p = before ++ root :: after ->
  typeOf d p = Some Element ->
  is_Some (nodes d !! node) ->
  parentOf d node = None ->
  ~ Ancestor d node p ->
  exists core' d',
    insertNode core d node (Some opt) = Ok (core', d', true)
    /\ childrenOf d' p = before ++ root :: insertedContent d node ++ after
    /\ (forall c, c ∈ insertedContent d node -> parentOf d' c = Some p)
    /\ (forall q, q <> p -> q <> node -> childrenOf d' q = childrenOf d q)
    /\ (root <> p -> childrenOf d' root = childrenOf d root)
    /\ (forall x, x ∉ insertedContent d node -> parentOf d' x = parentOf d x)
    /\ (forall x, staticOf d' x = staticOf d x)
    /\ length (nodes d') = length (nodes d).
Proof.
  intros root Hd Hpos Hl Tp En Hpar Hanc.
  unfold insertNode. rewrite Hpos.
  destruct (if updateCursor opt then applyFocus core d else (core, d)) as [core1 dF] eqn:Hf.
  destruct (focus_keeps_tree _ _ _ _ _ Hf) as [Hn Hroot]. rewrite Hroot. fold root.
  assert (wf dF) as HdF by (apply (wf_same_nodes d); auto).
  assert (parentOf d root = Some p) as Proot.
  { apply (wf_child_parent _ Hd). rewrite Hl. apply elem_of_app. right. left. }
  destruct (insert_beside false dF p root before after node) as (Hins & Cp & Pc & Cq & Px & Cn);
    auto.
  { now rewrite (childrenOf_same_nodes _ d). }
  { now rewrite (typeOf_same_nodes _ d). }
  { now rewrite Hn. }
  { now rewrite (parentOf_same_nodes _ d). }
  { intros Ha. apply Hanc. now apply (Ancestor_same_nodes d dF). }
  rewrite (insertedContent_same_nodes dF d) in Cp, Pc, Px by done.
  rewrite (parentOf_same_nodes dF d root Hn), Proot. simpl. rewrite Hins. simpl.
  eexists _, _. split; [reflexivity|].
  assert (root <> node) as Hrn by congruence.
  repeat split; auto.
  - intros q Hq Hqn. rewrite Cq by done. now apply childrenOf_same_nodes.
  - intros Hrp. rewrite Cq by done. now apply childrenOf_same_nodes.
  - intros x Hx. rewrite Px by done. now apply parentOf_same_nodes.
  - intros x. rewrite staticOf_insert. now apply staticOf_same_nodes.
  - rewrite length_nodes_insert. now rewrite Hn.
Qed.

(** X5: an insertion at Outside when the editor root has no parent fails:
    core.contentDiv.parentNode is null and the call of insertBefore on it
    throws a TypeError, whatever the node and the other options. *)
Theorem insert_outside_detached_root_throws
  (core : EditorCore) (d : Document) (node : Node) (opt : InsertOption) :
  position opt = ContentPosition.Outside ->
  parentOf d (contentDiv core) = None ->
  insertNode core d node (Some opt) = Throw TypeError.
Proof.
  intros Hpos Hpar. unfold insertNode. rewrite Hpos.
  destruct (if updateCursor opt then applyFocus core d else (core, d)) as [core1 dF] eqn:Hf.
  destruct (focus_keeps_tree _ _ _ _ _ Hf) as [Hn Hroot]. rewrite Hroot.
  rewrite (parentOf_same_nodes dF d _ Hn), Hpar. reflexivity.
Qed.

Lemma wf_insertNodeAtBegin core d node opt d' :
  wf d -> insertNodeAtBegin core d node opt = Ok d' -> wf d'.
Proof.
  unfold insertNodeAtBegin. intros Hd H. apply bind_Ok in H as ([d1 ins] & H1 & H).
  assert (wf d1) as Hd1.
  { repeat (destruct_if_in H1);
      try (apply bind_Ok in H1 as (q & Hq & H1)); try (injection H1 as <- <-);
      eauto using wf_insertBefore, wf_appendChild, wf_preInsert. }
  destruct_if_in H; [|now injection H as <-].
  apply fmap_Ok in H as ([d2 w] & H & ->). eauto using wf_wrap.
Qed.

Lemma wf_insertNodeAtEnd core d node opt d' :
  wf d -> insertNodeAtEnd core d node opt = Ok d' -> wf d'.
Proof.
  unfold insertNodeAtEnd. intros Hd H. apply bind_Ok in H as ([d1 ins] & H1 & H).
  assert (wf d1) as Hd1.
  { repeat (destruct_if_in H1);
      try (apply bind_Ok in H1 as (q & Hq & H1)); try (injection H1 as <- <-);
      eauto using wf_insertBefore, wf_appendChild, wf_preInsert. }
  destruct_if_in H; [|now injection H as <-].
  apply fmap_Ok in H as ([d2 w] & H & ->). eauto using wf_wrap.
Qed.

(** X6: insertNode keeps the tree well formed at every position: after a
    call that completes on a well-formed tree, every child again names its
    parent and every parent its child, no node occurs twice among the
    children of a node, and document fragments have no parent. *)
Theorem insertNode_keeps_tree_well_formed
  (core : EditorCore) (d : Document) (node : Node) (opt : option InsertOption)
  (core' : EditorCore) (d' : Document) (b : bool) :
  wf d ->
  insertNode core d node opt = Ok (core', d', b) ->
  wf d'.
Proof.
  intros Hd H. unfold insertNode in H.
  set (o := match opt with Some o => o | None => _ end) in H.
  destruct (if updateCursor o then applyFocus core d else (core, d)) as [core1 dF] eqn:Hf.
  destruct (focus_keeps_tree _ _ _ _ _ Hf) as [Hn _].
  assert (wf dF) as HdF by (apply (wf_same_nodes d); auto).
  apply bind_Ok in H as (d2 & H & [= _ <- _]).
  destruct (position o).
  - eauto using wf_insertNodeAtBegin.
  - eauto using wf_insertNodeAtEnd.
  - apply bind_Ok in H as (q & _ & H). apply fmap_Ok in H as ([d3 n] & H & ->).
    eauto using wf_insertBefore.
  - eauto using wf_insertNodeAtSelection.
Qed.

End OutsideAndInvariant.

(** ** Range.insertNode at a caret, and insertion at the selection in general *)

Section RangeInsert.

Lemma length_ranges_mapBoundaries f d : length (ranges (mapBoundaries f d)) = length (ranges d).
Proof. unfold mapBoundaries. simpl. apply length_map. Qed.

Lemma length_ranges_attach d ns p i : length (ranges (attach d ns p i)) = length (ranges d).
Proof. reflexivity. Qed.

Lemma length_ranges_insert d node p child :
  length (ranges (insert d node p child)) = length (ranges d).
Proof.
  unfold insert. case_bool_decide; [done|].
  destruct child; rewrite length_ranges_attach, ?length_ranges_mapBoundaries;
    destruct (isFragment d node); auto using length_ranges_foldl_remove.
Qed.

Lemma indexIn_lookup (l : list nat) : forall i x,
  NoDup l -> l !! i = Some x -> indexIn l x = i.
Proof.
  induction l as [|y l IH]; intros i x Hnd Hi; [done|].
  apply NoDup_cons in Hnd as [Hy Hnd]. destruct i as [|i]; simpl in *.
  - injection Hi as ->. now rewrite decide_True.
  - rewrite decide_False; [f_equal; now apply IH|].
    intros ->. apply Hy. eapply list_elem_of_lookup_2, Hi.
Qed.

Lemma insertAt_lookup d p i xs :
  NoDup (childrenOf d p) ->
  insertAt (insertIndex d p (childrenOf d p !! i)) xs (childrenOf d p)
  = insertAt i xs (childrenOf d p).
Proof.
  intros Hnd. unfold insertIndex.
  destruct (childrenOf d p !! i) as [x|] eqn:E.
  - now rewrite (indexIn_lookup _ _ _ Hnd E).
  - apply lookup_ge_None in E. unfold insertAt.
    now rewrite firstn_all, drop_all, take_ge, drop_ge by lia.
Qed.

(** Range.insertNode on a range that starts in an element [p] at offset
    [i]: a parentless node or a document fragment is inserted among the
    children of [p] at index [i]; nothing is created and nothing else
    moves. *)
Lemma rangeInsertNode_at_element d r rg node :
  let p := startContainer rg in
  let i := startOffset rg in
  wf d -> range d r = Ok rg -> typeOf d p = Some Element ->
  is_Some (nodes d !! node) -> parentOf d node = None -> ~ Ancestor d node p ->
  exists d3,
    rangeInsertNode d r node = Ok d3
    /\ childrenOf d3 p = insertAt i (insertedContent d node) (childrenOf d p)
    /\ (forall c, c ∈ insertedContent d node -> parentOf d3 c = Some p)
    /\ (forall q, q <> p -> q <> node -> childrenOf d3 q = childrenOf d q)
    /\ (forall x, x ∉ insertedContent d node -> parentOf d3 x = parentOf d x)
    /\ (forall x, staticOf d3 x = staticOf d x).
Proof.
  intros p i Hd Hr Tp En Hpar Hanc.
  assert (is_Some (nodes d !! p)) as Ep by eauto using typeOf_exists.
  pose proof (not_Ancestor_ne _ _ _ Hanc) as Hne.
  pose proof (isText_Element _ _ Tp) as Htext.
  set (ref := childrenOf d p !! i).
  assert (forall c, ref = Some c -> parentOf d c = Some p) as Href.
  { intros c Hc. apply (wf_child_parent _ Hd). eapply list_elem_of_lookup_2, Hc. }
  assert (ref <> Some node) as Hrn.
  { intros Hc. apply Href in Hc. congruence. }
  set (d1 := insert d node p ref).
  assert (preInsert d node p ref = Ok d1) as Hpre.
  { rewrite preInsert_success; auto; [|rewrite Tp; discriminate].
    now rewrite (bool_decide_eq_false_2 _ Hrn), (remove_detached _ _ Hpar). }
  assert (is_Some (ranges d1 !! r)) as [rg3 Hrg3].
  { apply lookup_lt_is_Some. unfold d1. rewrite length_ranges_insert.
    apply lookup_lt_is_Some. apply range_Ok in Hr. eauto. }
  destruct (insert_content d node p ref Hd Ep Hne) as (Cp & Pc & Cq & Px & _).
  { intros _. auto. }
  fold d1 in Cp, Pc, Cq, Px.
  exists (if collapsed rg3
          then setRange r (withEnd (p, insertIndex d p ref
                                        + (if isFragment d node then nodeLength d node else 1))) d1
          else d1).
  split.
  - unfold rangeInsertNode. rewrite Hr. simpl. fold p i. rewrite Htext. simpl.
    rewrite (bool_decide_eq_false_2 (p = node)) by done. fold ref.
    assert (match ref with Some rn => deref (parentOf d rn) | None => Ok p end = Ok p) as ->.
    { destruct ref as [c|] eqn:E; [|done]. now rewrite (Href c eq_refl). }
    simpl.
    assert (ensurePreInsertionValidity d node p ref = Ok tt) as ->.
    { unfold preInsert in Hpre. destruct (ensurePreInsertionValidity d node p ref) as [[]|];
        [done|discriminate]. }
    simpl. rewrite (bool_decide_eq_false_2 _ Hrn), (remove_detached _ _ Hpar), Hpre. simpl.
    unfold range at 1. fold d1. rewrite Hrg3. simpl.
    unfold insertIndex, indexOf, nodeLength. rewrite Htext.
    destruct ref as [c|] eqn:E; [rewrite (Href c eq_refl)|]; reflexivity.
  - assert (forall x, staticOf d1 x = staticOf d x) as S1 by (intros; apply staticOf_insert).
    rewrite (insertAt_lookup d p i) in Cp by apply (wf_nodup _ Hd).
    destruct (collapsed rg3); repeat split; auto.
Qed.

Lemma valueOf_mapBoundaries f d x : valueOf (mapBoundaries f d) x = valueOf d x.
Proof. reflexivity. Qed.

(** "split a Text node" that has a parent: the new Text node [t'] becomes
    the next sibling of the node, the node keeps the characters before the
    offset and [t'] holds those from the offset on. *)
Lemma splitText_attached d t o p before after :
  wf d -> isText d t = true -> o <= String.length (valueOf d t) ->
  childrenOf d p = before ++ t :: after ->
  let t' := length (nodes d) in
  exists ds,
    splitText d t o = Ok (ds, t')
    /\ wf ds
    /\ childrenOf ds p = before ++ t :: t' :: after
    /\ parentOf ds t' = Some p
    /\ (forall q, q <> p -> childrenOf ds q = childrenOf d q)
    /\ (forall x, x <> t' -> parentOf ds x = parentOf d x)
    /\ (forall x, x <> t -> x <> t' -> staticOf ds x = staticOf d x)
    /\ (forall x, x <> t' -> typeOf ds x = typeOf d x)
    /\ typeOf ds t' = Some Text
    /\ valueOf ds t = substring 0 o (valueOf d t)
    /\ valueOf ds t' = substring o (String.length (valueOf d t) - o) (valueOf d t)
    /\ length (ranges ds) = length (ranges d).
Proof.
  intros Hd Htext Ho Hl t'.
  assert (parentOf d t = Some p) as Pt.
  { apply (wf_child_parent _ Hd). rewrite Hl. apply elem_of_app. right. left. }
  set (v := substring o (String.length (valueOf d t) - o) (valueOf d t)).
  set (d1 := (createTextNode d v).1).
  assert (forall x, parentOf d1 x = parentOf d x) as P1 by apply parentOf_createTextNode.
  assert (forall x, childrenOf d1 x = childrenOf d x) as C1 by apply childrenOf_createTextNode.
  assert (forall x, x < t' -> staticOf d1 x = staticOf d x) as S1
    by (intros; now apply staticOf_createTextNode_lt).
  assert (nodes d1 !! t' = Some (mkNodeData Text EmptyString v [] None [])) as E1.
  { unfold d1, createTextNode. simpl. now rewrite lookup_app_r, Nat.sub_diag by done. }
  assert (isFragment d1 t' = false) as Fw by (unfold isFragment, typeOf; now rewrite E1).
  assert (is_Some (nodes d1 !! t')) as Ew by (rewrite E1; eauto).
  assert (wf d1) as Hd1 by now apply wf_createTextNode.
  assert (is_Some (nodes d !! t)) as Et by now apply isText_exists.
  assert (t < t') as Htlt by now apply lookup_lt_is_Some.
  assert (p < t') as Hplt by (eapply wf_parent_lt; eauto).
  assert (is_Some (nodes d1 !! p)) as Ep.
  { apply lookup_lt_is_Some. unfold d1, createTextNode. simpl. rewrite length_app. lia. }
  set (di := insert d1 t' p (nextSibling d1 t)).
  assert (forall x, staticOf di x = staticOf d1 x) as Si by (intros; apply staticOf_insert).
  assert (valueOf di t = valueOf d t) as Vt.
  { rewrite (valueOf_staticOf di d1) by apply Si. apply valueOf_staticOf. now apply S1. }
  destruct (splitText d t o) as [[ds n']|e] eqn:Hs.
  2: { exfalso. unfold splitText in Hs.
       replace (String.length (valueOf d t) <? o) with false in Hs
         by (symmetry; apply Nat.ltb_ge; lia).
       fold v in Hs. change (createTextNode d v) with (d1, t') in Hs. cbv beta iota in Hs.
       rewrite P1, Pt in Hs. fold di in Hs. unfold replaceData in Hs.
       rewrite !valueOf_mapBoundaries, Vt in Hs.
       replace (String.length (valueOf d t) <? o) with false in Hs
         by (symmetry; apply Nat.ltb_ge; lia).
       discriminate. }
  pose proof (wf_splitText _ _ _ _ _ Hd Hs) as Hds.
  unfold splitText in Hs. destruct (_ <? _); [discriminate|].
  fold v in Hs. change (createTextNode d v) with (d1, t') in Hs. cbv beta iota in Hs.
  apply bind_Ok in Hs as (d3 & H3 & [= <- <-]).
  rewrite P1, Pt in H3. fold di in H3.
  pose proof (valueOf_replaceData _ _ _ _ _ _ H3) as V3.
  pose proof (length_ranges_replaceData _ _ _ _ _ _ H3) as L3.
  apply replaceData_Ok in H3 as (P3 & C3 & S3 & T3 & _).
  assert (childrenOf d1 p = before ++ t :: after) as Hl1 by now rewrite C1.
  assert (childrenOf di p = before ++ t :: t' :: after) as Ci.
  { unfold di. rewrite childrenOf_insert_single, decide_True by done.
    rewrite (nextSibling_split _ _ _ _ _ Hd1 Hl1).
    rewrite (insertIndex_after _ _ _ _ _ Hd1 Hl1), Hl1.
    replace (before ++ t :: after) with ((before ++ [t]) ++ after) by now rewrite <- app_assoc.
    replace (S (length before)) with (length (before ++ [t]))
      by (rewrite length_app; simpl; lia).
    rewrite insertAt_app. now rewrite <- app_assoc. }
  exists d3. split; [reflexivity|]. split; [exact Hds|]. repeat split.
  - rewrite C3. exact Ci.
  - rewrite P3. change (parentOf di t' = Some p). unfold di.
    rewrite parentOf_insert_single by done. now rewrite decide_True.
  - intros q Hq. rewrite C3. change (childrenOf di q = childrenOf d q). unfold di.
    rewrite childrenOf_insert_single by done. rewrite decide_False by done. apply C1.
  - intros x Hx. rewrite P3. change (parentOf di x = parentOf d x). unfold di.
    rewrite parentOf_insert_single by done. rewrite decide_False by done. apply P1.
  - intros x Hxt Hxw. rewrite S3 by done. change (staticOf di x = staticOf d x).
    rewrite Si. destruct (decide (x < t')) as [Hlt|Hge]; [now apply S1|].
    unfold staticOf. rewrite !lookup_ge_None_2; [done|unfold t' in *; lia|].
    unfold d1, createTextNode. simpl. rewrite length_app. simpl. unfold t' in *. lia.
  - intros x Hx. rewrite T3. change (typeOf di x = typeOf d x).
    rewrite (typeOf_staticOf di d1) by apply Si.
    destruct (decide (x < t')) as [Hlt|Hge]; [apply typeOf_staticOf; now apply S1|].
    unfold typeOf. rewrite !lookup_ge_None_2; [done|unfold t' in *; lia|].
    unfold d1, createTextNode. simpl. rewrite length_app. simpl. unfold t' in *. lia.
  - rewrite T3. change (typeOf di t' = Some Text).
    rewrite (typeOf_staticOf di d1) by apply Si. unfold typeOf. now rewrite E1.
  - rewrite V3.
    2: { apply is_Some_staticOf. change (is_Some (staticOf di t)). rewrite Si, S1 by done.
         now apply is_Some_staticOf. }
    change (spliceString (valueOf di t) o (String.length (valueOf d t) - o) EmptyString
            = substring 0 o (valueOf d t)).
    rewrite Vt. unfold spliceString. rewrite Nat.min_id.
    replace (o + (String.length (valueOf d t) - o)) with (String.length (valueOf d t)) by lia.
    rewrite Nat.sub_diag, substring_zero_length. simpl. apply append_empty_r.
  - rewrite (valueOf_staticOf d3 di); [|apply S3; lia].
    rewrite (valueOf_staticOf di d1) by apply Si. unfold valueOf. now rewrite E1.
  - rewrite L3. unfold di.
    rewrite !length_ranges_mapBoundaries, length_ranges_insert. reflexivity.
Qed.

Lemma Ancestor_inv d a n : Ancestor d a n -> a = n \/ exists c, parentOf d c = Some a.
Proof.
  induction 1 as [|n p Hp H IH]; [now left|]. right.
  destruct IH as [->|Hc]; eauto.
Qed.

Lemma childrenOf_beyond d n : length (nodes d) <= n -> childrenOf d n = [].
Proof. intros H. unfold childrenOf. now rewrite lookup_ge_None_2. Qed.

(** Range.insertNode on a range that starts inside a Text node [t] at
    offset [o]: the text is split at [o], the characters from [o] on move
    to a new Text node [t'], and the parentless node or document fragment
    is inserted between [t] and [t']. *)
Lemma rangeInsertNode_at_text d r rg node p before after :
  let t := startContainer rg in
  let o := startOffset rg in
  let t' := length (nodes d) in
  wf d -> range d r = Ok rg -> isText d t = true ->
  o <= String.length (valueOf d t) ->
  childrenOf d p = before ++ t :: after -> typeOf d p = Some Element ->
  is_Some (nodes d !! node) -> parentOf d node = None -> ~ Ancestor d node p ->
  exists d3,
    rangeInsertNode d r node = Ok d3
    /\ childrenOf d3 p = before ++ t :: insertedContent d node ++ t' :: after
    /\ (forall c, c ∈ insertedContent d node -> parentOf d3 c = Some p)
    /\ parentOf d3 t' = Some p
    /\ (forall q, q <> p -> q <> node -> childrenOf d3 q = childrenOf d q)
    /\ (forall x, x ∉ insertedContent d node -> x <> t' -> parentOf d3 x = parentOf d x)
    /\ (forall x, x <> t -> x <> t' -> staticOf d3 x = staticOf d x)
    /\ typeOf d3 t' = Some Text
    /\ valueOf d3 t = substring 0 o (valueOf d t)
    /\ valueOf d3 t' = substring o (String.length (valueOf d t) - o) (valueOf d t).
Proof.
  intros t o t' Hd Hr Htext Ho Hl Tp En Hpar Hanc.
  assert (parentOf d t = Some p) as Pt.
  { apply (wf_child_parent _ Hd). rewrite Hl. apply elem_of_app. right. left. }
  assert (is_Some (nodes d !! p)) as Ep by eauto using typeOf_exists.
  assert (node < t') as Hnlt by now apply lookup_lt_is_Some.
  assert (p < t') as Hplt by now apply lookup_lt_is_Some.
  assert (t <> node) as Htn by congruence.
  assert (p <> t) as Hpt.
  { intros ->. unfold isText in Htext. rewrite Tp in Htext. discriminate. }
  pose proof (not_Ancestor_ne _ _ _ Hanc) as Hne.
  destruct (splitText_attached d t o p before after Hd Htext Ho Hl)
    as (ds & Hs & Hds & Cs & Pw & Cqs & Pxs & Ss & Ts & Tw & Vt & Vw & Ls).
  fold t' in Hs, Cs, Pw, Pxs, Ss, Ts, Tw, Vw.
  assert (parentOf ds node = None) as Pn by (rewrite Pxs by lia; exact Hpar).
  assert (is_Some (nodes ds !! node)) as Ens.
  { apply is_Some_staticOf. rewrite Ss by (auto; lia). now apply is_Some_staticOf. }
  assert (is_Some (nodes ds !! p)) as Eps.
  { apply is_Some_staticOf. rewrite Ss by (auto; lia). now apply is_Some_staticOf. }
  assert (typeOf ds p = Some Element) as Tps by (rewrite Ts by lia; exact Tp).
  assert (~ Ancestor ds node p) as Hancs.
  { intros Ha. apply Hanc. eapply Ancestor_transfer; [|exact Ha].
    intros x Hx Hax. apply Pxs. intros ->.
    apply Ancestor_inv in Hax as [Heq|[c Hc]]; [lia|].
    apply (wf_parent_child _ Hds) in Hc. rewrite Cqs in Hc by lia.
    rewrite childrenOf_beyond in Hc by done. by apply elem_of_nil in Hc. }
  assert (insertedContent ds node = insertedContent d node) as Hcontent.
  { unfold insertedContent, isFragment. rewrite Ts by lia. now rewrite Cqs. }
  set (d1 := insert ds node p (Some t')).
  assert (preInsert ds node p (Some t') = Ok d1) as Hpre.
  { rewrite preInsert_success; auto.
    - rewrite bool_decide_eq_false_2 by (intros [= ?]; lia).
      now rewrite (remove_detached _ _ Pn).
    - rewrite Tps. discriminate.
    - now intros c [= <-]. }
  assert (preInsert d node p (Some t) = Ok (insert d node p (Some t))) as Hpre0.
  { rewrite preInsert_success; auto.
    - rewrite bool_decide_eq_false_2 by (intros [= ?]; done).
      now rewrite (remove_detached _ _ Hpar).
    - rewrite Tp. discriminate.
    - now intros c [= <-]. }
  assert (is_Some (ranges d1 !! r)) as [rg3 Hrg3].
  { apply lookup_lt_is_Some. unfold d1. rewrite length_ranges_insert, Ls.
    apply lookup_lt_is_Some. apply range_Ok in Hr. eauto. }
  destruct (insert_content ds node p (Some t') Hds Eps Hne) as (Cp & Pc & Cq & Px & _).
  { intros _. auto. }
  fold d1 in Cp, Pc, Cq, Px. rewrite Hcontent in Cp, Pc, Px.
  assert (forall x, staticOf d1 x = staticOf ds x) as S1 by (intros; apply staticOf_insert).
  exists (if collapsed rg3
          then setRange r (withEnd (p, indexOf ds t'
                                        + (if isFragment ds node then nodeLength ds node else 1))) d1
          else d1).
  split.
  - unfold rangeInsertNode. rewrite Hr. simpl. fold t o. rewrite Htext, Pt. simpl.
    rewrite ?(bool_decide_eq_false_2 (Some p = None)) by done.
    rewrite (bool_decide_eq_false_2 (t = node)) by done. simpl.
    assert (ensurePreInsertionValidity d node p (Some t) = Ok tt) as ->.
    { unfold preInsert in Hpre0.
      destruct (ensurePreInsertionValidity d node p (Some t)) as [[]|];
        [done|discriminate]. }
    simpl. rewrite Hs. simpl.
    rewrite (bool_decide_eq_false_2 (Some t' = Some node)) by (intros [= ?]; lia).
    rewrite (remove_detached _ _ Pn), Hpre. simpl.
    unfold range at 1. fold d1. rewrite Hrg3. simpl. reflexivity.
  - assert (childrenOf d1 p = before ++ t :: insertedContent d node ++ t' :: after) as Cp'.
    { rewrite Cp. unfold insertIndex. rewrite Cs.
      replace (before ++ t :: t' :: after) with ((before ++ [t]) ++ t' :: after)
        by now rewrite <- app_assoc.
      pose proof (wf_nodup _ Hds p) as Hnd. rewrite Cs in Hnd.
      replace (before ++ t :: t' :: after) with ((before ++ [t]) ++ t' :: after) in Hnd
        by now rewrite <- app_assoc.
      rewrite indexIn_app_r by now apply NoDup_app_cons_notin in Hnd as [H _].
      rewrite insertAt_app. now rewrite <- app_assoc. }
    assert (t' ∉ insertedContent d node) as Hw.
    { intros Hin. unfold insertedContent in Hin. destruct (isFragment d node).
      - apply (wf_child_parent _ Hd), parentOf_exists, lookup_lt_is_Some in Hin.
        unfold t' in Hin. lia.
      - apply list_elem_of_singleton in Hin. lia. }
    assert (forall q, q <> p -> q <> node -> childrenOf d1 q = childrenOf d q) as Cq1
      by (intros q Hq Hqn; rewrite Cq by done; apply Cqs; done).
    assert (forall x, x ∉ insertedContent d node -> x <> t' -> parentOf d1 x = parentOf d x)
      as Px1 by (intros x Hx Hxw; rewrite Px by done; apply Pxs; done).
    assert (forall x, x <> t -> x <> t' -> staticOf d1 x = staticOf d x) as Sx1
      by (intros x Hxt Hxw; rewrite S1; apply Ss; done).
    assert (parentOf d1 t' = Some p) as Pw1 by (rewrite Px by done; exact Pw).
    assert (typeOf d1 t' = Some Text) as Tw1
      by (rewrite (typeOf_staticOf d1 ds) by apply S1; exact Tw).
    assert (valueOf d1 t = substring 0 o (valueOf d t)) as Vt1
      by (rewrite (valueOf_staticOf d1 ds) by apply S1; exact Vt).
    assert (valueOf d1 t' = substring o (String.length (valueOf d t) - o) (valueOf d t))
      as Vw1 by (rewrite (valueOf_staticOf d1 ds) by apply S1; exact Vw).
    destruct (collapsed rg3); repeat split;
      first [exact Cp' | exact Pc | exact Pw1 | exact Cq1 | exact Px1 | exact Sx1
            | exact Tw1 | exact Vt1 | exact Vw1].
Qed.

End RangeInsert.

Section SelectionGeneral.
Context `{lib : EditorLib}.

Lemma valueOf_same_nodes d d' x : nodes d = nodes d' -> valueOf d x = valueOf d' x.
Proof. unfold valueOf. now intros ->. Qed.

Lemma bind_eq_Ok {A B} (m : result A) (f : A -> result B) a : m = Ok a -> m ≫= f = f a.
Proof. now intros ->. Qed.

(** insertNodeAtSelection as the sequence of its steps. *)
Lemma insertNodeAtSelection_unfold core d node opt r :
  resolveRange core d = Some r ->
  insertNodeAtSelection core d node opt
  = (rg0 ← range d r;
     d1 ← (if replaceSelection opt && negb (collapsed rg0)
           then rangeDeleteContents d r else Ok d);
     rg ← range d1 r;
     '(d2, r2) ← adjustInsertionPoint core d1 r rg opt;
     d3 ← rangeInsertNode d2 r2 node;
     match (if updateCursor opt then nodeForCursor d2 node else None) with
     | Some c => Ok (selectNode core d3 c PositionType.After).1
     | None => Ok (selectRange core d3 (SelectionRange.ofRange rg)).1
     end).
Proof. unfold resolveRange, insertNodeAtSelection. now intros ->. Qed.

(** insertNodeAtSelection when nothing is to be deleted, from its steps. *)
Lemma insertNodeAtSelection_run core d node opt r rg d2 r2 d3 :
  resolveRange core d = Some r ->
  range d r = Ok rg ->
  replaceSelection opt && negb (collapsed rg) = false ->
  adjustInsertionPoint core d r rg opt = Ok (d2, r2) ->
  rangeInsertNode d2 r2 node = Ok d3 ->
  exists d', insertNodeAtSelection core d node opt = Ok d' /\ nodes d' = nodes d3.
Proof.
  intros Hres Hr Hdel Hadj Hins.
  rewrite (insertNodeAtSelection_unfold _ _ _ _ _ Hres).
  rewrite (bind_eq_Ok _ _ _ Hr). rewrite Hdel.
  rewrite (bind_eq_Ok _ _ d eq_refl). rewrite (bind_eq_Ok _ _ _ Hr).
  rewrite (bind_eq_Ok _ _ _ Hadj). rewrite (bind_eq_Ok _ _ _ Hins).
  destruct (if updateCursor opt then _ else _); eexists; (split; [reflexivity|]);
    [apply nodes_selectNode|apply nodes_selectRange].
Qed.

(** Without insertOnNewLine, and unless the block of the range start ends
    in a P element, the insertion point stays where the range starts. *)
Lemma adjustInsertionPoint_unchanged core d r rg opt :
  insertOnNewLine opt = false ->
  (forall b, getBlockElementAtNode d (contentDiv core) (Some (startContainer rg)) = Some b ->
     getTagOfNode d (getEndNode b) <> "P"%string) ->
  adjustInsertionPoint core d r rg opt = Ok (d, r).
Proof.
  intros Hnl Hp. unfold adjustInsertionPoint.
  destruct (getBlockElementAtNode _ _ _) as [b|]; [|done].
  rewrite Hnl. now rewrite (bool_decide_eq_false_2 _ (Hp b eq_refl)).
Qed.

(** X7: a SelectionStart insertion of a parentless node or a document
    fragment that is not an ancestor of [p], with the range starting in
    an element [p] at offset [i], when nothing is to be deleted, no new
    line is asked for and no paragraph is to be retyped, succeeds and
    inserts the content among the children of [p] at index [i].  Nothing
    is removed, created or changed besides: a selection that is not
    collapsed keeps its content when replaceSelection is off. *)
Theorem insert_at_selection_in_element
  (core : EditorCore) (d : Document) (node : Node) (opt : InsertOption)
  (r : RangeRef) (rg : Range) :
  let p := startContainer rg in
  let i := startOffset rg in
  wf d ->
  resolveRange core d = Some r ->
  range d r = Ok rg ->
  replaceSelection opt && negb (collapsed rg) = false ->
  insertOnNewLine opt = false ->
  (forall b, getBlockElementAtNode d (contentDiv core) (Some p) = Some b ->
     getTagOfNode d (getEndNode b) <> "P"%string) ->
  typeOf d p = Some Element ->
  is_Some (nodes d !! node) ->
  parentOf d node = None ->
  ~ Ancestor d node p ->
  exists d',
    insertNodeAtSelection core d node opt = Ok d'
    /\ childrenOf d' p
       = take i (childrenOf d p) ++ insertedContent d node ++ drop i (childrenOf d p)
    /\ (forall c, c ∈ insertedContent d node -> parentOf d' c = Some p)
    /\ (forall q, q <> p -> q <> node -> childrenOf d' q = childrenOf d q)
    /\ (forall x, x ∉ insertedContent d node -> parentOf d' x = parentOf d x)
    /\ (forall x, staticOf d' x = staticOf d x).
Proof.
  intros p i Hd Hres Hr Hdel Hnl Hnop Tp En Hpar Hanc.
  destruct (rangeInsertNode_at_element d r rg node Hd Hr Tp En Hpar Hanc)
    as (d3 & Hins & Cp & Pc & Cq & Px & Sx).
  destruct (insertNodeAtSelection_run core d node opt r rg d r d3) as (d' & Hrun & Hn); auto.
  { now apply adjustInsertionPoint_unchanged. }
  exists d'. split; [exact Hrun|]. repeat split.
  - rewrite (childrenOf_same_nodes _ _ p Hn). exact Cp.
  - intros c Hc. rewrite (parentOf_same_nodes _ _ c Hn). now apply Pc.
  - intros q Hq Hqn. rewrite (childrenOf_same_nodes _ _ q Hn). now apply Cq.
  - intros x Hx. rewrite (parentOf_same_nodes _ _ x Hn). now apply Px.
  - intros x. rewrite (staticOf_same_nodes _ _ x Hn). apply Sx.
Qed.

(** X8: a SelectionStart insertion of a parentless node or a document
    fragment that is not an ancestor of the parent of [t], with the range
    starting inside a Text node [t] at offset [o], when nothing is to be
    deleted, no new line is asked for and no paragraph is to be retyped,
    succeeds and splits the text at [o]:
    [t] keeps the characters before [o], a new Text node [t'] takes those
    from [o] on, and the content is inserted between the two.  No
    character is lost, also at offset 0 and at the end of the text, where
    one of the two Text nodes is left empty. *)
Theorem insert_at_selection_in_text
  (core : EditorCore) (d : Document) (node : Node) (opt : InsertOption)
  (r : RangeRef) (rg : Range) (p : Node) (before after : list Node) :
  let t := startContainer rg in
  let o := startOffset rg in
  let t' := length (nodes d) in
  wf d ->
  resolveRange core d = Some r ->
  range d r = Ok rg ->
  replaceSelection opt && negb (collapsed rg) = false ->
  insertOnNewLine opt = false ->
  (forall b, getBlockElementAtNode d (contentDiv core) (Some t) = Some b ->
     getTagOfNode d (getEndNode b) <> "P"%string) ->
  isText d t = true ->
  o <= String.length (valueOf d t) ->
  childrenOf d p = before ++ t :: after ->
  typeOf d p = Some Element ->
  is_Some (nodes d !! node) ->
  parentOf d node = None ->
  ~ Ancestor d node p ->
  exists d',
    insertNodeAtSelection core d node opt = Ok d'
    /\ childrenOf d' p = before ++ t :: insertedContent d node ++ t' :: after
    /\ typeOf d' t' = Some Text
    /\ valueOf d' t = substring 0 o (valueOf d t)
    /\ valueOf d' t' = substring o (String.length (valueOf d t) - o) (valueOf d t)
    /\ valueOf d' t +:+ valueOf d' t' = valueOf d t
    /\ (forall c, c ∈ insertedContent d node -> parentOf d' c = Some p)
    /\ (forall q, q <> p -> q <> node -> childrenOf d' q = childrenOf d q)
    /\ (forall x, x ∉ insertedContent d node -> x <> t' -> parentOf d' x = parentOf d x)
    /\ (forall x, x <> t -> x <> t' -> staticOf d' x = staticOf d x).
Proof.
  intros t o t' Hd Hres Hr Hdel Hnl Hnop Htext Ho Hl Tp En Hpar Hanc.
  destruct (rangeInsertNode_at_text d r rg node p before after Hd Hr Htext Ho Hl Tp En Hpar Hanc)
    as (d3 & Hins & Cp & Pc & Pw & Cq & Px & Sx & Tw & Vt & Vw).
  destruct (insertNodeAtSelection_run core d node opt r rg d r d3) as (d' & Hrun & Hn); auto.
  { now apply adjustInsertionPoint_unchanged. }
  exists d'. split; [exact Hrun|].
  rewrite (childrenOf_same_nodes _ _ p Hn), (typeOf_same_nodes _ _ t' Hn),
    (valueOf_same_nodes _ _ t Hn), (valueOf_same_nodes _ _ t' Hn).
  fold t o t' in Cp, Tw, Vt, Vw. rewrite Vt, Vw.
  repeat split; auto.
  - now apply substring_split.
  - intros c Hc. rewrite (parentOf_same_nodes _ _ c Hn). now apply Pc.
  - intros q Hq Hqn. rewrite (childrenOf_same_nodes _ _ q Hn). now apply Cq.
  - intros x Hx Hxw. rewrite (parentOf_same_nodes _ _ x Hn). now apply Px.
  - intros x Hx Hxw. rewrite (staticOf_same_nodes _ _ x Hn). now apply Sx.
Qed.

Lemma rangeEnd_setEnd d bp rg : rangeEnd (setEnd d bp rg) = bp.
Proof. unfold setEnd. destruct (_ || _); now destruct bp. Qed.

(** X9: a SelectionStart insertion with insertOnNewLine of a parentless
    node or a document fragment that is not an ancestor of the parent of
    the block's end node, when nothing is to be deleted and a block is
    found at the range start, succeeds and does not insert at the caret:
    the content goes right after the end node of that block, among the
    children of the end node's parent.  The text under the caret
    is not split and no node is created. *)
Theorem insert_at_selection_on_new_line
  (core : EditorCore) (d : Document) (node : Node) (opt : InsertOption)
  (r : RangeRef) (rg : Range) (b : BlockElement) (p : Node) (before after : list Node) :
  let e := getEndNode b in
  wf d ->
  resolveRange core d = Some r ->
  range d r = Ok rg ->
  replaceSelection opt && negb (collapsed rg) = false ->
  insertOnNewLine opt = true ->
  getBlockElementAtNode d (contentDiv core) (Some (startContainer rg)) = Some b ->
  childrenOf d p = before ++ e :: after ->
  typeOf d p = Some Element ->
  is_Some (nodes d !! node) ->
  parentOf d node = None ->
  ~ Ancestor d node p ->
  exists d',
    insertNodeAtSelection core d node opt = Ok d'
    /\ childrenOf d' p = before ++ e :: insertedContent d node ++ after
    /\ (forall c, c ∈ insertedContent d node -> parentOf d' c = Some p)
    /\ (forall q, q <> p -> q <> node -> childrenOf d' q = childrenOf d q)
    /\ (forall x, x ∉ insertedContent d node -> parentOf d' x = parentOf d x)
    /\ (forall x, staticOf d' x = staticOf d x).
Proof.
  intros e Hd Hres Hr Hdel Hnl Hb Hl Tp En Hpar Hanc.
  assert (parentOf d e = Some p) as Pe.
  { apply (wf_child_parent _ Hd). rewrite Hl. apply elem_of_app. right. left. }
  assert (indexOf d e = length before) as Ie.
  { unfold indexOf. rewrite Pe, Hl. apply indexIn_app_r.
    pose proof (wf_nodup _ Hd p) as Hnd. rewrite Hl in Hnd.
    now apply NoDup_app_cons_notin in Hnd as [H _]. }
  pose proof (range_Ok _ _ _ Hr) as Hlook.
  set (bp := (p, S (length before))).
  set (d2 := setRange r (fun rg => collapsedAt (rangeEnd rg)) (setRange r (setEnd d bp) d)).
  assert (adjustInsertionPoint core d r rg opt = Ok (d2, r)) as Hadj.
  { unfold adjustInsertionPoint. rewrite Hb. fold e. rewrite Hnl.
    unfold rangeSetEndAfter. rewrite Hr, Pe, Ie. simpl.
    unfold rangeCollapse, range, setRange. simpl.
    rewrite list_lookup_alter_eq, Hlook. reflexivity. }
  assert (nodes d2 = nodes d) as Hn2 by reflexivity.
  assert (range d2 r = Ok (collapsedAt bp)) as Hr2.
  { unfold range, d2, setRange. simpl.
    rewrite !list_lookup_alter_eq, Hlook. simpl. now rewrite rangeEnd_setEnd. }
  assert (wf d2) as Hd2 by (apply (wf_same_nodes d); auto).
  assert (typeOf d2 p = Some Element) as Tp2 by exact Tp.
  assert (is_Some (nodes d2 !! node)) as En2 by exact En.
  assert (parentOf d2 node = None) as Hpar2 by exact Hpar.
  assert (~ Ancestor d2 node p) as Hanc2.
  { intros Ha. apply Hanc. now apply (Ancestor_same_nodes d d2). }
  destruct (rangeInsertNode_at_element d2 r (collapsedAt bp) node Hd2 Hr2 Tp2 En2 Hpar2 Hanc2)
    as (d3 & Hins & Cp & Pc & Cq & Px & Sx).
  simpl in Cp, Pc, Cq.
  rewrite (insertedContent_same_nodes d2 d) in Cp, Pc, Px by done.
  destruct (insertNodeAtSelection_run core d node opt r rg d2 r d3) as (d' & Hrun & Hn); auto.
  exists d'. split; [exact Hrun|]. repeat split.
  - rewrite (childrenOf_same_nodes _ _ p Hn), Cp, (childrenOf_same_nodes d2 d p Hn2), Hl.
    replace (before ++ e :: after) with ((before ++ [e]) ++ after) by now rewrite <- app_assoc.
    replace (S (length before)) with (length (before ++ [e]))
      by (rewrite length_app; simpl; lia).
    rewrite insertAt_app. now rewrite <- app_assoc.
  - intros c Hc. rewrite (parentOf_same_nodes _ _ c Hn). now apply Pc.
  - intros q Hq Hqn. rewrite (childrenOf_same_nodes _ _ q Hn), Cq by done.
    now apply childrenOf_same_nodes.
  - intros x Hx. rewrite (parentOf_same_nodes _ _ x Hn), Px by done.
    now apply parentOf_same_nodes.
  - intros x. rewrite (staticOf_same_nodes _ _ x Hn), Sx. now apply staticOf_same_nodes.
Qed.

End SelectionGeneral.

(** ** The current-editor holder over a sequence of calls, and logEvent *)

Section CurrentEditorSequence.
Import CurrentEditor.

Lemma disposed_setCurrentEditor e s :
  disposed (setCurrentEditor e s)
  = disposed s ++ match getCurrentEditor s with Some c => [c] | None => [] end.
Proof.
  unfold disposed, setCurrentEditor, getCurrentEditor, dispose.
  destruct (editor s); simpl; rewrite !omap_app; simpl; now rewrite ?app_nil_r.
Qed.

(** X10: over any sequence of calls of setCurrentEditor, starting from
    any state, dispose() is called on every editor that is replaced, once
    per replacement and in the order of the calls, and on nothing else:
    the editors disposed are the editors of the chain "current editor,
    then each argument" but for its last element, which is the current
    editor afterwards.  A call with the editor that is already current
    therefore disposes it and leaves it current. *)
Theorem setCurrentEditors_disposes_all_but_last (es : list (option IEditor)) (s : State) :
  let chain := getCurrentEditor s :: es in
  getCurrentEditor (setCurrentEditors es s) = default None (last chain)
  /\ disposed (setCurrentEditors es s) = disposed s ++ omap id (removelast chain).
Proof.
  revert s. induction es as [|e es IH]; intros s chain.
  - split; [reflexivity|]. simpl. now rewrite app_nil_r.
  - destruct (IH (setCurrentEditor e s)) as [Hcur Hdisp].
    change (setCurrentEditors (e :: es) s) with (setCurrentEditors es (setCurrentEditor e s)).
    change (getCurrentEditor (setCurrentEditor e s)) with e in Hcur, Hdisp.
    split.
    + rewrite Hcur. unfold chain. reflexivity.
    + rewrite Hdisp, disposed_setCurrentEditor, <- app_assoc. f_equal.
      unfold chain. change (removelast (getCurrentEditor s :: e :: es))
        with (getCurrentEditor s :: removelast (e :: es)).
      destruct (getCurrentEditor s); reflexivity.
Qed.

End CurrentEditorSequence.

Section LogEvent.
Import Log.

Lemma append_cancel_l (a : string) : forall x y, a +:+ x = a +:+ y -> x = y.
Proof.
  induction a as [|c a IH]; intros x y H; [exact H|].
  change (String c (a +:+ x) = String c (a +:+ y)) in H. injection H as H. now apply IH.
Qed.

Lemma split_at_first_bracket (s1 : string) : forall s2 c1 c2,
  occursIn "]" s1 = false -> occursIn "]" s2 = false ->
  s1 +:+ String "]" c1 = s2 +:+ String "]" c2 -> s1 = s2 /\ c1 = c2.
Proof.
  induction s1 as [|a s1 IH]; intros [|b s2] c1 c2 H1 H2 H.
  - change (String "]" c1 = String "]" c2) in H. injection H as ->. done.
  - change (String "]" c1 = String b (s2 +:+ String "]" c2)) in H. injection H as <- _.
    simpl in H2. rewrite ?bool_decide_eq_true_2 in H2 by done. discriminate.
  - change (String a (s1 +:+ String "]" c1) = String "]" c2) in H. injection H as -> _.
    simpl in H1. rewrite ?bool_decide_eq_true_2 in H1 by done. discriminate.
  - change (String a (s1 +:+ String "]" c1) = String b (s2 +:+ String "]" c2)) in H.
    injection H as -> H. simpl in H1, H2.
    apply orb_false_iff in H1 as [_ H1]. apply orb_false_iff in H2 as [_ H2].
    destruct (IH s2 c1 c2 H1 H2 H) as [-> ->]. done.
Qed.

(** X11: logEvent writes exactly one line to the console, the text
    "[RoosterJS][" followed by the source, "]" and the content, after the
    lines that were there, which stay as they are.  When the sources hold
    no "]", the line gives the source and the content back: two events
    that write the same line, to whichever consoles, have the same source
    and the same content. *)
Theorem logEvent_line_gives_source_and_content
  (core : EditorCore) (source content : string) (console : Console) :
  logEvent core source content console
  = console ++ ["[RoosterJS][" +:+ source +:+ "]" +:+ content]
  /\ length (logEvent core source content console) = S (length console)
  /\ (forall i line, console !! i = Some line ->
        logEvent core source content console !! i = Some line)
  /\ (forall core2 source2 content2 console2,
        occursIn "]" source = false ->
        occursIn "]" source2 = false ->
        last (logEvent core source content console)
        = last (logEvent core2 source2 content2 console2) ->
        source = source2 /\ content = content2).
Proof.
  split; [reflexivity|]. split; [|split].
  - unfold logEvent. rewrite length_app. simpl. lia.
  - intros i line Hi. unfold logEvent. now apply lookup_app_l_Some.
  - intros core2 source2 content2 console2 H1 H2 H. unfold logEvent in H.
    rewrite !last_snoc in H. injection H as H.
    apply append_cancel_l in H. now apply split_at_first_bracket.
Qed.

End LogEvent.

(** ** Edges of the insertion at Begin and End, and replacing selected text *)

Section BeginEndEdges.
Context `{lib : EditorLib}.

Lemma preInsert_into_descendant d node p child :
  typeOf d p = Some Element -> is_Some (nodes d !! node) ->
  isInclusiveAncestor d node p = true ->
  preInsert d node p child = Throw HierarchyRequestError.
Proof.
  intros Tp [nd En] Ha. unfold preInsert, ensurePreInsertionValidity, typeOf in *.
  destruct (nodes d !! p) as [pd|]; [|discriminate]. simpl in Tp. injection Tp as Tp.
  rewrite En. simpl. rewrite Tp, Ha. reflexivity.
Qed.

(** X12: an inline insertion at Begin or End fails with a
    HierarchyRequestError, and changes nothing, when the node to insert is
    the element it would go into (the reference node of the block found)
    or one of that element's ancestors: a block of the editor cannot be
    inserted at the begin or the end of itself. *)
Theorem insert_inline_into_own_descendant_throws
  (atBegin : bool) (core : EditorCore) (d : Document) (node : Node) (opt : InsertOption)
  (b : BlockElement) :
  let root := contentDiv core in
  let ref := if atBegin then getStartNode b else getEndNode b in
  getBlockElementAtNode d root
    (if atBegin then getFirstLeafNode d root else getLastLeafNode d root) = Some b ->
  insertOnNewLine opt = false ->
  typeOf d ref = Some Element ->
  (childrenOf d ref = [] -> isVoidHtmlElement d ref = false) ->
  is_Some (nodes d !! node) ->
  isInclusiveAncestor d node ref = true ->
  (if atBegin then insertNodeAtBegin core d node opt else insertNodeAtEnd core d node opt)
  = Throw HierarchyRequestError.
Proof.
  intros root ref Hb Hnl Tref Hvoid En Ha.
  pose proof (isText_Element _ _ Tref) as Htext.
  pose proof (preInsert_into_descendant d node ref) as Hthrow.
  destruct atBegin; unfold insertNodeAtBegin, insertNodeAtEnd; fold root;
    rewrite Hb; cbv zeta; fold ref; rewrite Hnl.
  - destruct (firstChild d ref) as [fc|] eqn:Hfc.
    + unfold insertBefore. now rewrite Hthrow.
    + rewrite Htext, (Hvoid (head_None_nil _ Hfc)). simpl.
      unfold appendChild. now rewrite Hthrow.
  - destruct (lastChild d ref) as [lc|] eqn:Hlc.
    + unfold appendChild. now rewrite Hthrow.
    + rewrite Htext, (Hvoid (last_None_nil _ Hlc)). simpl.
      unfold appendChild. now rewrite Hthrow.
Qed.

Lemma length_nodes_preInsert d node p child d' :
  preInsert d node p child = Ok d' -> length (nodes d') = length (nodes d).
Proof.
  intros H. apply preInsert_Ok in H as [_ ->].
  now rewrite length_nodes_insert, length_nodes_remove.
Qed.

(** X13: an insertion at Begin or End without insertOnNewLine only
    relinks nodes: when it completes, no node has been created and no
    node has changed its type, tag, text or attributes. *)
Theorem inline_insertion_creates_nothing
  (atBegin : bool) (core : EditorCore) (d : Document) (node : Node) (opt : InsertOption)
  (d' : Document) :
  insertOnNewLine opt = false ->
  (if atBegin then insertNodeAtBegin core d node opt else insertNodeAtEnd core d node opt)
  = Ok d' ->
  (forall x, staticOf d' x = staticOf d x) /\ length (nodes d') = length (nodes d).
Proof.
  intros Hnl H.
  assert (exists p child, preInsert d node p child = Ok d') as (p & child & Hpre).
  { destruct atBegin; unfold insertNodeAtBegin, insertNodeAtEnd in H; rewrite Hnl in H;
      apply bind_Ok in H as ([d1 ins] & H1 & H); simpl in H; injection H as <-;
      repeat (destruct_if_in H1);
      try (apply bind_Ok in H1 as (q & Hq & H1)); try (injection H1 as <- <-);
      try (unfold insertBefore, appendChild in H1;
           apply bind_Ok in H1 as (q' & Hq' & [= <- _]));
      eauto. }
  split; [intros x; eapply staticOf_preInsert, Hpre|eapply length_nodes_preInsert, Hpre].
Qed.

End BeginEndEdges.

Section ReplaceText.
Context `{lib : EditorLib}.

(** Range.deleteContents on a selection inside one Text node: the selected
    characters are spliced out and the range collapses onto its start. *)
Lemma rangeDeleteContents_within_text d r rg :
  let t := startContainer rg in
  let so := startOffset rg in
  let eo := endOffset rg in
  range d r = Ok rg -> endContainer rg = t -> isText d t = true ->
  so < eo -> eo <= String.length (valueOf d t) ->
  exists d1,
    rangeDeleteContents d r = Ok d1
    /\ replaceData d t so (eo - so) EmptyString = Ok d1
    /\ range d1 r = Ok (collapsedAt (t, so)).
Proof.
  intros t so eo Hr He Htext Hlt Hle.
  pose proof (range_Ok _ _ _ Hr) as Hlook.
  assert (collapsed rg = false) as Hncol.
  { apply bool_decide_eq_false_2. unfold rangeStart, rangeEnd. fold so eo. intros [= _ ?]. lia. }
  assert ((String.length (valueOf d t) <? so) = false) as Hok by (apply Nat.ltb_ge; lia).
  destruct (replaceData d t so (eo - so) EmptyString) as [d1|e] eqn:Hrep.
  2: { unfold replaceData in Hrep. rewrite Hok in Hrep. discriminate. }
  exists d1. split; [|split; [reflexivity|]].
  - unfold rangeDeleteContents. rewrite Hr. simpl. rewrite Hncol. fold t so eo.
    rewrite He, Htext, bool_decide_eq_true_2 by done. exact Hrep.
  - unfold replaceData in Hrep. rewrite Hok in Hrep. injection Hrep as <-.
    unfold range, mapBoundaries. simpl. rewrite !list_lookup_fmap, Hlook. simpl. f_equal.
    destruct rg as [sc so' ec eo']. unfold rangeStart, rangeEnd, withStart, withEnd, collapsedAt.
    simpl in *. subst ec. subst t so eo.
    rewrite (bool_decide_eq_true_2 (sc = sc)) by done. simpl.
    replace (so' <? so') with false by (symmetry; apply Nat.ltb_ge; lia). simpl.
    replace (so' <? eo') with true by (symmetry; apply Nat.ltb_lt; lia).
    replace (eo' <=? so' + Nat.min (eo' - so') (String.length (valueOf d sc) - so')) with true
      by (symmetry; apply Nat.leb_le; lia). simpl.
    rewrite (bool_decide_eq_true_2 (sc = sc)) by done. simpl.
    replace (so' + Nat.min (eo' - so') (String.length (valueOf d sc) - so') <? so') with false
      by (symmetry; apply Nat.ltb_ge; lia). reflexivity.
Qed.

(** X14: a SelectionStart insertion with replaceSelection of a
    parentless node or a document fragment that is not an ancestor of the
    parent of [t], over a selection inside one Text node [t], from offset
    [so] to offset [eo], without insertOnNewLine and with no paragraph to
    retype, completes and replaces the selected characters by the
    inserted content: [t] keeps
    the characters before [so], a new Text node [t'] holds those from [eo]
    on, and the content stands between the two. *)
Theorem replace_selected_text_by_node
  (core : EditorCore) (d : Document) (node : Node) (opt : InsertOption)
  (r : RangeRef) (rg : Range) (p : Node) (before after : list Node) :
  let t := startContainer rg in
  let so := startOffset rg in
  let eo := endOffset rg in
  let t' := length (nodes d) in
  wf d ->
  resolveRange core d = Some r ->
  range d r = Ok rg ->
  endContainer rg = t ->
  isText d t = true ->
  so < eo ->
  eo <= String.length (valueOf d t) ->
  replaceSelection opt = true ->
  insertOnNewLine opt = false ->
  (forall d1 b, rangeDeleteContents d r = Ok d1 ->
     getBlockElementAtNode d1 (contentDiv core) (Some t) = Some b ->
     getTagOfNode d1 (getEndNode b) <> "P"%string) ->
  childrenOf d p = before ++ t :: after ->
  typeOf d p = Some Element ->
  is_Some (nodes d !! node) ->
  parentOf d node = None ->
  ~ Ancestor d node p ->
  exists d',
    insertNodeAtSelection core d node opt = Ok d'
    /\ childrenOf d' p = before ++ t :: insertedContent d node ++ t' :: after
    /\ valueOf d' t = substring 0 so (valueOf d t)
    /\ valueOf d' t' = substring eo (String.length (valueOf d t) - eo) (valueOf d t)
    /\ typeOf d' t' = Some Text
    /\ (forall c, c ∈ insertedContent d node -> parentOf d' c = Some p)
    /\ (forall q, q <> p -> q <> node -> childrenOf d' q = childrenOf d q)
    /\ (forall x, x <> t -> x <> t' -> staticOf d' x = staticOf d x).
Proof.
  intros t so eo t' Hd Hres Hr He Htext Hlt Hle Hrep Hnl Hnop Hl Tp En Hpar Hanc.
  destruct (rangeDeleteContents_within_text d r rg Hr He Htext Hlt Hle)
    as (d1 & Hdel & Hdata & Hr1).
  fold t so eo in Hdata, Hr1.
  pose proof (wf_replaceData _ _ _ _ _ _ Hd Hdata) as Hd1.
  pose proof (valueOf_replaceData _ _ _ _ _ _ Hdata (isText_exists _ _ Htext)) as V1.
  destruct (replaceData_Ok _ _ _ _ _ _ Hdata) as (P1 & C1 & S1 & T1 & L1).
  set (v := valueOf d t) in *.
  set (A := substring 0 so v). set (B := substring eo (String.length v - eo) v).
  assert (valueOf d1 t = A +:+ B) as V1'.
  { rewrite V1. unfold spliceString. fold v.
    rewrite Nat.min_l by lia. replace (so + (eo - so)) with eo by lia. reflexivity. }
  assert (String.length A = so) as LA by (apply length_substring; lia).
  assert (String.length B = String.length v - eo) as LB by (apply length_substring; lia).
  assert (collapsed rg = false) as Hncol.
  { apply bool_decide_eq_false_2. unfold rangeStart, rangeEnd. fold so eo. intros [= _ ?]. lia. }
  assert (parentOf d t = Some p) as Pt.
  { apply (wf_child_parent _ Hd). rewrite Hl. apply elem_of_app. right. left. }
  assert (node <> t) as Hnt by congruence.
  assert (~ Ancestor d1 node p) as Hanc1.
  { intros Ha. apply Hanc. eapply Ancestor_transfer; [|exact Ha]. intros x _ _. apply P1. }
  destruct (rangeInsertNode_at_text d1 r (collapsedAt (t, so)) node p before after)
    as (d3 & Hins & Cp & Pc & Pw & Cq & Px & Sx & Tw & Vt & Vw); auto.
  { unfold isText. simpl. rewrite T1. exact Htext. }
  { simpl. rewrite V1', length_append. lia. }
  { simpl. now rewrite C1. }
  { now rewrite T1. }
  { apply is_Some_staticOf. rewrite S1 by done. now apply is_Some_staticOf. }
  { now rewrite P1. }
  simpl in Cp, Vt, Vw. rewrite L1 in Cp, Pw, Px, Sx, Tw, Vw. fold t' in Cp, Pw, Px, Sx, Tw, Vw.
  assert (insertedContent d1 node = insertedContent d node) as Hcontent.
  { unfold insertedContent, isFragment. now rewrite T1, C1. }
  rewrite Hcontent in Cp, Pc, Px.
  assert (exists d', insertNodeAtSelection core d node opt = Ok d' /\ nodes d' = nodes d3)
    as (d' & Hrun & Hn).
  { rewrite (insertNodeAtSelection_unfold _ _ _ _ _ Hres).
    rewrite (bind_eq_Ok _ _ _ Hr). rewrite Hrep, Hncol. simpl negb. simpl andb. cbv iota.
    rewrite (bind_eq_Ok _ _ _ Hdel). rewrite (bind_eq_Ok _ _ _ Hr1).
    rewrite (bind_eq_Ok _ _ (d1, r)).
    2: { apply adjustInsertionPoint_unchanged; [done|]. intros b Hb. now apply (Hnop d1 b). }
    rewrite (bind_eq_Ok _ _ _ Hins).
    destruct (if updateCursor opt then _ else _); eexists; (split; [reflexivity|]);
      [apply nodes_selectNode|apply nodes_selectRange]. }
  exists d'. split; [exact Hrun|].
  rewrite (childrenOf_same_nodes _ _ p Hn), (typeOf_same_nodes _ _ t' Hn),
    (valueOf_same_nodes _ _ t Hn), (valueOf_same_nodes _ _ t' Hn).
  repeat split; auto.
  - rewrite Vt, V1', <- LA. apply substring_append_prefix.
  - rewrite Vw, V1', length_append.
    replace (String.length A + String.length B - so) with (String.length B) by lia.
    rewrite <- LA. apply substring_append_suffix.
  - intros c Hc. rewrite (parentOf_same_nodes _ _ c Hn). now apply Pc.
  - intros q Hq Hqn. rewrite (childrenOf_same_nodes _ _ q Hn), Cq by done. apply C1.
  - intros x Hx Hxw. rewrite (staticOf_same_nodes _ _ x Hn), Sx by done. now apply S1.
Qed.

End ReplaceText.

Section Attached.
Context `{lib : EditorLib}.

(** A pre-insertion that completes leaves the node, when it is not a
    document fragment, as a child of the parent it was inserted into. *)
Lemma preInsert_parent d node p child d' :
  preInsert d node p child = Ok d' -> isFragment d node = false ->
  parentOf d' node = Some p.
Proof.
  intros H F. apply preInsert_Ok in H as [Hv ->].
  apply validity_Ok in Hv as (_ & En & _).
  rewrite parentOf_insert_single.
  - now rewrite decide_True.
  - now rewrite (isFragment_staticOf _ d) by apply staticOf_remove.
  - apply is_Some_staticOf. rewrite staticOf_remove. now apply is_Some_staticOf.
Qed.

Lemma wrap_parent d n t d' w :
  wrap d n t = Ok (d', w) -> is_Some (nodes d !! n) -> isFragment d n = false ->
  parentOf d' n = Some w.
Proof.
  unfold wrap. intros H En F.
  destruct (createElement d _ _) as [d1 ne] eqn:Hc.
  assert (staticOf d1 n = staticOf d n) as S1.
  { unfold createElement in Hc. injection Hc as <- <-. unfold staticOf. simpl.
    rewrite lookup_app_l; [done|]. now apply lookup_lt_is_Some. }
  apply bind_Ok in H as (d2 & H2 & H). apply bind_Ok in H as (d3 & H3 & [= <- <-]).
  assert (staticOf d2 n = staticOf d1 n) as S2.
  { destruct (parentOf d1 n); [|now injection H2 as <-].
    apply fmap_Ok in H2 as ([da na] & Ha & ->). unfold insertBefore in Ha.
    apply bind_Ok in Ha as (q & Hq & [= <- _]). eapply staticOf_preInsert, Hq. }
  apply fmap_Ok in H3 as ([db nb] & Hb & ->). unfold appendChild in Hb.
  apply bind_Ok in Hb as (q & Hq & [= <- _]).
  apply (preInsert_parent _ _ _ _ _ Hq).
  rewrite (isFragment_staticOf d2 d); [done|]. now rewrite S2, S1.
Qed.

Lemma insertNodeAtBeginEnd_parent (atBegin : bool) core d node opt d' :
  isFragment d node = false ->
  (if atBegin then insertNodeAtBegin core d node opt else insertNodeAtEnd core d node opt)
  = Ok d' ->
  exists parent, parentOf d' node = Some parent.
Proof.
  intros F H.
  assert (exists d1 p child,
            preInsert d node p child = Ok d1
            /\ (if insertOnNewLine opt && negb (isBlockElement d1 node)
                then fst <$> wrap d1 node HTML_EMPTY_DIV else Ok d1) = Ok d')
    as (d1 & p & child & Hpre & Hw).
  { destruct atBegin; unfold insertNodeAtBegin, insertNodeAtEnd in H;
      apply bind_Ok in H as ([d1 ins] & H1 & H);
      repeat (destruct_if_in H1);
      try (apply bind_Ok in H1 as (q & Hq & H1)); try (injection H1 as <- <-);
      try (unfold insertBefore, appendChild in H1;
           apply bind_Ok in H1 as (q' & Hq' & [= <- <-]));
      eauto 10. }
  pose proof (preInsert_parent _ _ _ _ _ Hpre F) as P1.
  destruct_if_in Hw; [|injection Hw as <-; eauto].
  apply fmap_Ok in Hw as ([d2 w] & Hw & ->). exists w. simpl.
  apply (wrap_parent _ _ _ _ _ Hw); [eauto using parentOf_exists|].
  rewrite (isFragment_staticOf d1 d); [done|]. intros. eapply staticOf_preInsert, Hpre.
Qed.

(** X15: insertNode at Begin, End or Outside moves, it never copies:
    whenever the call completes on a well-formed tree for a node that is
    not a document fragment, the node is in the tree under one parent and
    occurs exactly once among all child lists, also when it was in the
    tree before the call. *)
Theorem insertNode_moves_never_copies
  (core : EditorCore) (d : Document) (node : Node) (opt : InsertOption)
  (core' : EditorCore) (d' : Document) (b : bool) :
  wf d ->
  isFragment d node = false ->
  position opt <> ContentPosition.SelectionStart ->
  insertNode core d node (Some opt) = Ok (core', d', b) ->
  (exists parent, parentOf d' node = Some parent) /\ occurrences d' node = 1.
Proof.
  intros Hd F Hpos H. unfold insertNode in H.
  destruct (if updateCursor opt then applyFocus core d else (core, d)) as [core1 dF] eqn:Hf.
  destruct (focus_keeps_tree _ _ _ _ _ Hf) as [Hn _].
  assert (wf dF) as HdF by (apply (wf_same_nodes d); auto).
  assert (isFragment dF node = false) as FF by now rewrite (isFragment_same_nodes dF d).
  apply bind_Ok in H as (d2 & H & [= _ <- _]).
  assert (wf d2 /\ exists parent, parentOf d2 node = Some parent) as [Hd2 [parent Hp]].
  { destruct (position opt); [| | |done].
    - split; [eauto using wf_insertNodeAtBegin|].
      now apply (insertNodeAtBeginEnd_parent true core1 dF node opt).
    - split; [eauto using wf_insertNodeAtEnd|].
      now apply (insertNodeAtBeginEnd_parent false core1 dF node opt).
    - apply bind_Ok in H as (q & _ & H). apply fmap_Ok in H as ([d3 n] & H & ->).
      split; [eauto using wf_insertBefore|].
      unfold insertBefore in H. apply bind_Ok in H as (q' & Hq' & [= <- _]).
      exists q. now apply (preInsert_parent _ _ _ _ _ Hq'). }
  split; [eauto|]. now apply occurrences_attached with parent.
Qed.

End Attached.

(** ** Document fragments inserted on a new line at Begin and End *)

Section FragmentNewLine.
Context `{lib : EditorLib}.

Lemma parentOf_beyond d n : length (nodes d) <= n -> parentOf d n = None.
Proof. intros H. unfold parentOf. now rewrite lookup_ge_None_2. Qed.

Lemma isFragment_exists d n : isFragment d n = true -> is_Some (nodes d !! n).
Proof.
  unfold isFragment, typeOf. destruct (nodes d !! n); [eauto|]. simpl. discriminate.
Qed.

(** After a document fragment has been inserted, wrap applied to it
    creates a DIV that stays empty and out of the tree. *)
Lemma wrap_inserted_fragment d node p child :
  wf d -> is_Some (nodes d !! p) -> p <> node -> isFragment d node = true ->
  let d1 := insert d node p child in
  let w := length (nodes d) in
  exists d',
    wrap d1 node HTML_EMPTY_DIV = Ok (d', w)
    /\ (forall q, childrenOf d' q = childrenOf d1 q)
    /\ (forall x, parentOf d' x = parentOf d1 x)
    /\ staticOf d' w = Some (Element, "DIV"%string, EmptyString, [])
    /\ childrenOf d' w = []
    /\ parentOf d' w = None.
Proof.
  intros Hd Ep Hne F d1 w.
  pose proof (wf_fragment _ Hd _ F) as Hpar.
  destruct (insert_content d node p child Hd Ep Hne) as (_ & _ & Cq & Px & Cn).
  { intros Hf. congruence. }
  fold d1 in Cq, Px, Cn. rewrite F in Cn.
  assert (wf d1) as Hd1 by (apply wf_insert; auto; congruence).
  assert (length (nodes d1) = w) as Hlen by apply length_nodes_insert.
  assert (node ∉ insertedContent d node) as Hnot.
  { unfold insertedContent. rewrite F. intros Hin.
    apply (wf_child_parent _ Hd) in Hin. congruence. }
  assert (w ∉ insertedContent d node) as Hwnot.
  { unfold insertedContent. rewrite F. intros Hin.
    apply (wf_child_parent _ Hd), parentOf_exists, lookup_lt_is_Some in Hin.
    unfold w in Hin. lia. }
  rewrite (wrap_empty_fragment d1 node); auto.
  - rewrite Hlen. eexists. split; [reflexivity|].
    split; [intros; apply childrenOf_createElement|].
    split; [intros; apply parentOf_createElement|].
    split; [rewrite staticOf_createElement, Hlen; now rewrite decide_True|].
    split.
    + rewrite childrenOf_createElement.
      assert (p < length (nodes d)) as Hplt by now apply lookup_lt_is_Some.
      assert (node < length (nodes d)) as Hnlt
        by now apply lookup_lt_is_Some, isFragment_exists.
      rewrite Cq; [now apply childrenOf_beyond| |]; intros Heq; rewrite Heq in *; lia.
    + rewrite parentOf_createElement, Px by done. now apply parentOf_beyond.
  - now rewrite (isFragment_staticOf d1 d) by apply staticOf_insert.
  - now rewrite Px.
Qed.

(** C7, at the failing inputs: on a well-formed tree, a document
    fragment that is not block-level and does not hold the root, inserted
    at End with insertOnNewLine = true into a root element whose last
    block ends in a child [div] of the root.  insertBefore returns
    the fragment, emptied by the insertion, and wrap is applied to it: the
    children of the fragment follow [div] directly under the root, in no
    new block, and the new DIV stays empty and outside the tree. *)
Theorem fragment_after_last_block_is_not_wrapped
  (core : EditorCore) (d : Document) (node : Node) (opt : InsertOption)
  (b : BlockElement) (before after : list Node) :
  let root := contentDiv core in
  let div := getEndNode b in
  let w := length (nodes d) in
  wf d ->
  typeOf d root = Some Element ->
  getBlockElementAtNode d root (getLastLeafNode d root) = Some b ->
  childrenOf d root = before ++ div :: after ->
  insertOnNewLine opt = true ->
  isFragment d node = true ->
  ~ Ancestor d node root ->
  isBlockElement (insert d node root (nextSibling d div)) node = false ->
  exists d',
    insertNodeAtEnd core d node opt = Ok d'
    /\ childrenOf d' root = before ++ div :: childrenOf d node ++ after
    /\ (forall c, c ∈ childrenOf d node -> parentOf d' c = Some root)
    /\ staticOf d' w = Some (Element, "DIV"%string, EmptyString, [])
    /\ childrenOf d' w = []
    /\ parentOf d' w = None.
Proof.
  intros root div w Hd Troot Hb Hl Hnl F Hanc Hblock.
  pose proof (wf_fragment _ Hd _ F) as Hpar.
  pose proof (isFragment_exists _ _ F) as En.
  assert (is_Some (nodes d !! root)) as Er by eauto using typeOf_exists.
  pose proof (not_Ancestor_ne _ _ _ Hanc) as Hne.
  assert (parentOf d div = Some root) as Pdiv.
  { apply (wf_child_parent _ Hd). rewrite Hl. apply elem_of_app. right. left. }
  destruct (insert_beside false d root div before after node Hd Hl Troot En Hpar Hanc)
    as (Hins & Cp & Pc & _).
  unfold insertedContent in Cp, Pc. rewrite F in Cp, Pc.
  destruct (wrap_inserted_fragment d node root (nextSibling d div) Hd Er Hne F)
    as (d' & Hw & Cw & Pw & Sw & Cdiv & Pdiv').
  exists d'. repeat split; auto.
  - unfold insertNodeAtEnd. fold root. rewrite Hb. cbv zeta. fold div.
    rewrite Hnl, Pdiv. simpl. rewrite Hins. simpl. rewrite Hblock. simpl. now rewrite Hw.
  - now rewrite Cw.
  - intros c Hc. rewrite Pw. now apply Pc.
Qed.

(** C9, at the failing inputs: on a well-formed tree, a document
    fragment that is not block-level and does not hold the root, inserted
    at Begin or End with insertOnNewLine = true into a root element for
    which no block is found (the empty root).  appendChild
    returns the fragment, emptied by the insertion, and wrap is applied to
    it: the children of the fragment become children of the root, in no
    wrapping block, and the new DIV stays empty and outside the tree. *)
Theorem fragment_into_root_without_block_is_not_wrapped
  (atBegin : bool) (core : EditorCore) (d : Document) (node : Node) (opt : InsertOption) :
  let root := contentDiv core in
  let w := length (nodes d) in
  wf d ->
  typeOf d root = Some Element ->
  getBlockElementAtNode d root
    (if atBegin then getFirstLeafNode d root else getLastLeafNode d root) = None ->
  insertOnNewLine opt = true ->
  isFragment d node = true ->
  ~ Ancestor d node root ->
  isBlockElement (insert d node root None) node = false ->
  exists d',
    (if atBegin then insertNodeAtBegin core d node opt else insertNodeAtEnd core d node opt)
    = Ok d'
    /\ childrenOf d' root = childrenOf d root ++ childrenOf d node
    /\ (forall c, c ∈ childrenOf d node -> parentOf d' c = Some root)
    /\ staticOf d' w = Some (Element, "DIV"%string, EmptyString, [])
    /\ childrenOf d' w = []
    /\ parentOf d' w = None.
Proof.
  intros root w Hd Troot Hb Hnl F Hanc Hblock.
  pose proof (wf_fragment _ Hd _ F) as Hpar.
  pose proof (isFragment_exists _ _ F) as En.
  assert (is_Some (nodes d !! root)) as Er by eauto using typeOf_exists.
  pose proof (not_Ancestor_ne _ _ _ Hanc) as Hne.
  assert (appendChild d root node = Ok (insert d node root None, node)) as Ha.
  { apply appendChild_fresh; auto. rewrite Troot. discriminate. }
  destruct (insert_content d node root None Hd Er Hne) as (Cp & Pc & _).
  { intros Hf. congruence. }
  unfold insertedContent in Cp, Pc. rewrite F in Cp, Pc.
  simpl in Cp. rewrite insertAt_length in Cp.
  destruct (wrap_inserted_fragment d node root None Hd Er Hne F)
    as (d' & Hw & Cw & Pw & Sw & Cdiv & Pdiv').
  exists d'. repeat split; auto.
  - destruct atBegin; unfold insertNodeAtBegin, insertNodeAtEnd; fold root;
      rewrite Hb, Ha; simpl; rewrite Hnl, Hblock; simpl; now rewrite Hw.
  - now rewrite Cw.
  - intros c Hc. rewrite Pw. now apply Pc.
Qed.

End FragmentNewLine.

(** ** The general theorems on concrete documents *)

Ltac refute_Ancestor :=
  let H := fresh "H" in
  intros H;
  repeat (let Hp := fresh "Hp" in
          let H' := fresh "H'" in
          inversion H as [|? ? Hp H']; clear H; subst;
          vm_compute in Hp;
          first [discriminate Hp | injection Hp as <-; rename H' into H]).

Section GeneralScenarios.
Import Host Examples.

(** X1 on <div>hello</div> and the document fragment holding "X" and "Y",
    at End: the content becomes <div>helloXY</div>. *)
Lemma insert_inline_inside_block_witness :
  exists d',
    insertNodeAtEnd editor divHelloFragments 4
      (mkInsertOption ContentPosition.End false false false) = Ok d'
    /\ childrenOf d' 2 = [3; 5; 6]
    /\ innerHTML d' 1 = "<div>helloXY</div>".
Proof.
  destruct (insert_inline_inside_block (lib := hostLib) false editor divHelloFragments 4
              (mkInsertOption ContentPosition.End false false false) (mkBlockElement 2 2))
    as (d' & Hrun & Hch & _).
  - apply wfb_sound. vm_compute. reflexivity.
  - vm_compute. reflexivity.
  - reflexivity.
  - reflexivity.
  - intros H. vm_compute in H. discriminate.
  - vm_compute. eauto.
  - reflexivity.
  - refute_Ancestor.
  - exists d'. split; [exact Hrun|]. split; [exact Hch|].
    assert (Ok d' = insertNodeAtEnd editor divHelloFragments 4
                      (mkInsertOption ContentPosition.End false false false)) as E
      by (symmetry; exact Hrun).
    vm_compute in E. injection E as ->. vm_compute. reflexivity.
Defined.

(** X2 on hello<br>world and the text node "X", at Begin: the first block
    starts at the text node "hello", and "X" goes right before it. *)
Lemma insert_inline_beside_text_or_void_witness :
  exists d',
    insertNodeAtBegin editor helloBrWorld 5
      (mkInsertOption ContentPosition.Begin false false false) = Ok d'
    /\ childrenOf d' 1 = [5; 2; 3; 4]
    /\ innerHTML d' 1 = "Xhello<br>world".
Proof.
  destruct (insert_inline_beside_text_or_void (lib := hostLib) true editor helloBrWorld 5
              (mkInsertOption ContentPosition.Begin false false false) (mkBlockElement 2 3)
              1 [] [3; 4])
    as (d' & Hrun & Hch & _).
  - apply wfb_sound. vm_compute. reflexivity.
  - vm_compute. reflexivity.
  - reflexivity.
  - reflexivity.
  - vm_compute. reflexivity.
  - reflexivity.
  - reflexivity.
  - vm_compute. eauto.
  - reflexivity.
  - apply not_Ancestor_leaf; [apply wfb_sound; vm_compute; reflexivity|reflexivity|discriminate].
  - exists d'. split; [exact Hrun|]. split; [exact Hch|].
    assert (Ok d' = insertNodeAtBegin editor helloBrWorld 5
                      (mkInsertOption ContentPosition.Begin false false false)) as E
      by (symmetry; exact Hrun).
    vm_compute in E. injection E as ->. vm_compute. reflexivity.
Defined.

(** X3 on <div>hello</div> and the text node "X", at Begin: the content
    becomes <div>X</div><div>hello</div>. *)
Lemma insert_on_new_line_beside_block_witness :
  exists d',
    insertNodeAtBegin editor divHello 4
      (mkInsertOption ContentPosition.Begin false false true) = Ok d'
    /\ childrenOf d' 1 = [5; 2]
    /\ childrenOf d' 5 = [4]
    /\ innerHTML d' 1 = "<div>X</div><div>hello</div>".
Proof.
  destruct (insert_on_new_line_beside_block (lib := hostLib) true editor divHello 4
              (mkInsertOption ContentPosition.Begin false false true) (mkBlockElement 2 2)
              1 [] [])
    as (d' & Hrun & _ & _ & Hcase).
  - apply wfb_sound. vm_compute. reflexivity.
  - vm_compute. reflexivity.
  - reflexivity.
  - reflexivity.
  - reflexivity.
  - vm_compute. eauto.
  - reflexivity.
  - reflexivity.
  - apply not_Ancestor_leaf; [apply wfb_sound; vm_compute; reflexivity|reflexivity|discriminate].
  - lazymatch type of Hcase with
    | if ?c then _ else _ => replace c with false in Hcase by (vm_compute; reflexivity)
    end.
    destruct Hcase as (Hroot & _ & Hdiv & _).
    exists d'. split; [exact Hrun|]. split; [exact Hroot|]. split; [exact Hdiv|].
    assert (Ok d' = insertNodeAtBegin editor divHello 4
                      (mkInsertOption ContentPosition.Begin false false true)) as E
      by (symmetry; exact Hrun).
    vm_compute in E. injection E as ->. vm_compute. reflexivity.
Defined.

(** X4 on <div>hello</div> and the text node "X": "X" becomes the next
    sibling of the root under the body, and the content of the editor
    stays <div>hello</div>. *)
Lemma insert_outside_after_root_witness :
  exists core' d',
    insertNode editor divHello 4
      (Some (mkInsertOption ContentPosition.Outside true true true)) = Ok (core', d', true)
    /\ childrenOf d' 0 = [1; 4]
    /\ innerHTML d' 1 = "<div>hello</div>".
Proof.
  destruct (insert_outside_after_root (lib := hostLib) editor divHello 4
              (mkInsertOption ContentPosition.Outside true true true) 0 [] [])
    as (core' & d' & Hrun & Hch & _).
  - apply wfb_sound. vm_compute. reflexivity.
  - reflexivity.
  - reflexivity.
  - reflexivity.
  - vm_compute. eauto.
  - reflexivity.
  - apply not_Ancestor_leaf; [apply wfb_sound; vm_compute; reflexivity|reflexivity|discriminate].
  - exists core', d'. split; [exact Hrun|]. split; [exact Hch|].
    assert (Ok (core', d', true)
            = insertNode editor divHello 4
                (Some (mkInsertOption ContentPosition.Outside true true true))) as E
      by (symmetry; exact Hrun).
    vm_compute in E. injection E as -> ->. vm_compute. reflexivity.
Defined.

(** X5 on an editor whose root is not in a document. *)
Lemma insert_outside_detached_root_throws_witness :
  insertNode detachedEditor detachedRoot 1
    (Some (mkInsertOption ContentPosition.Outside false false false)) = Throw TypeError.
Proof.
  apply (insert_outside_detached_root_throws (lib := hostLib)); reflexivity.
Defined.

(** X6 on <div>hello</div> and the text node "X" at Begin. *)
Lemma insertNode_keeps_tree_well_formed_witness :
  exists core' d' b,
    insertNode editor divHello 4
      (Some (mkInsertOption ContentPosition.Begin true true true)) = Ok (core', d', b)
    /\ wf d'.
Proof.
  destruct (insertNode editor divHello 4
              (Some (mkInsertOption ContentPosition.Begin true true true)))
    as [[[core' d'] b]|e] eqn:H.
  2: { vm_compute in H. discriminate. }
  exists core', d', b. split; [reflexivity|].
  apply (insertNode_keeps_tree_well_formed (lib := hostLib) editor divHello 4
           (Some (mkInsertOption ContentPosition.Begin true true true)) core' d' b).
  - apply wfb_sound. vm_compute. reflexivity.
  - exact H.
Defined.

(** X7 on <div>hello</div> with the caret in the div after the text, and
    the text node "X": the content becomes <div>helloX</div>. *)
Lemma insert_at_selection_in_element_witness :
  exists d',
    insertNodeAtSelection editor divHelloCaretInDiv 4
      (mkInsertOption ContentPosition.SelectionStart true true false) = Ok d'
    /\ childrenOf d' 2 = [3; 4]
    /\ innerHTML d' 1 = "<div>helloX</div>".
Proof.
  destruct (insert_at_selection_in_element (lib := hostLib) editor divHelloCaretInDiv 4
              (mkInsertOption ContentPosition.SelectionStart true true false)
              0 (mkRange 2 1 2 1))
    as (d' & Hrun & Hch & _).
  - apply wfb_sound. vm_compute. reflexivity.
  - vm_compute. reflexivity.
  - reflexivity.
  - vm_compute. reflexivity.
  - reflexivity.
  - intros b Hb. vm_compute in Hb. injection Hb as <-. vm_compute. discriminate.
  - reflexivity.
  - vm_compute. eauto.
  - reflexivity.
  - apply not_Ancestor_leaf; [apply wfb_sound; vm_compute; reflexivity|reflexivity|discriminate].
  - exists d'. split; [exact Hrun|]. split; [exact Hch|].
    assert (Ok d' = insertNodeAtSelection editor divHelloCaretInDiv 4
                      (mkInsertOption ContentPosition.SelectionStart true true false)) as E
      by (symmetry; exact Hrun).
    vm_compute in E. injection E as ->. vm_compute. reflexivity.
Defined.

(** X8 on <div>hello</div> with the caret after "he" and the text node
    "X": "hello" is split into "he" and "llo" (the new node 5) around "X". *)
Lemma insert_at_selection_in_text_witness :
  exists d',
    insertNodeAtSelection editor divHelloCaret 4
      (mkInsertOption ContentPosition.SelectionStart true true false) = Ok d'
    /\ childrenOf d' 2 = [3; 4; 5]
    /\ valueOf d' 3 = "he"
    /\ valueOf d' 5 = "llo"
    /\ innerHTML d' 1 = "<div>heXllo</div>".
Proof.
  destruct (insert_at_selection_in_text (lib := hostLib) editor divHelloCaret 4
              (mkInsertOption ContentPosition.SelectionStart true true false)
              0 (mkRange 3 2 3 2) 2 [] [])
    as (d' & Hrun & Hch & _ & Hhead & Htail & _).
  - apply wfb_sound. vm_compute. reflexivity.
  - vm_compute. reflexivity.
  - reflexivity.
  - vm_compute. reflexivity.
  - reflexivity.
  - intros b Hb. vm_compute in Hb. injection Hb as <-. vm_compute. discriminate.
  - reflexivity.
  - vm_compute. lia.
  - reflexivity.
  - reflexivity.
  - vm_compute. eauto.
  - reflexivity.
  - apply not_Ancestor_leaf; [apply wfb_sound; vm_compute; reflexivity|reflexivity|discriminate].
  - exists d'. split; [exact Hrun|]. split; [exact Hch|].
    split; [exact Hhead|]. split; [exact Htail|].
    assert (Ok d' = insertNodeAtSelection editor divHelloCaret 4
                      (mkInsertOption ContentPosition.SelectionStart true true false)) as E
      by (symmetry; exact Hrun).
    vm_compute in E. injection E as ->. vm_compute. reflexivity.
Defined.

(** X9 on <div>hello</div> with the caret after "he" and the text node
    "X": the node goes after the div, and "hello" stays in one piece. *)
Lemma insert_at_selection_on_new_line_witness :
  exists d',
    insertNodeAtSelection editor divHelloCaret 4
      (mkInsertOption ContentPosition.SelectionStart true true true) = Ok d'
    /\ childrenOf d' 1 = [2; 4]
    /\ innerHTML d' 1 = "<div>hello</div>X".
Proof.
  destruct (insert_at_selection_on_new_line (lib := hostLib) editor divHelloCaret 4
              (mkInsertOption ContentPosition.SelectionStart true true true)
              0 (mkRange 3 2 3 2) (mkBlockElement 2 2) 1 [] [])
    as (d' & Hrun & Hch & _).
  - apply wfb_sound. vm_compute. reflexivity.
  - vm_compute. reflexivity.
  - reflexivity.
  - vm_compute. reflexivity.
  - reflexivity.
  - vm_compute. reflexivity.
  - reflexivity.
  - reflexivity.
  - vm_compute. eauto.
  - reflexivity.
  - apply not_Ancestor_leaf; [apply wfb_sound; vm_compute; reflexivity|reflexivity|discriminate].
  - exists d'. split; [exact Hrun|]. split; [exact Hch|].
    assert (Ok d' = insertNodeAtSelection editor divHelloCaret 4
                      (mkInsertOption ContentPosition.SelectionStart true true true)) as E
      by (symmetry; exact Hrun).
    vm_compute in E. injection E as ->. vm_compute. reflexivity.
Defined.

(** X11 on a console holding one line: the event of source "Editor"
    with content "ready" adds its line after it, and an event of another
    source writes another line. *)
Lemma logEvent_line_gives_source_and_content_witness :
  Log.logEvent editor "Editor" "ready" ["boot"] = ["boot"; "[RoosterJS][Editor]ready"]
  /\ Log.logEvent editor "Editor" "ready" ["boot"] !! 0 = Some "boot"
  /\ last (Log.logEvent editor "Editor" "ready" ["boot"])
     <> last (Log.logEvent editor "Undo" "ready" []).
Proof.
  destruct (logEvent_line_gives_source_and_content editor "Editor" "ready" ["boot"])
    as (Hline & _ & Hkept & Hinj).
  split; [exact Hline|]. split; [now apply Hkept|].
  intros H. destruct (Hinj editor "Undo" "ready" [] eq_refl eq_refl H) as [Hs _].
  discriminate Hs.
Defined.

(** X12 on <div>hello</div>: the div itself cannot be inserted at Begin. *)
Lemma insert_inline_into_own_descendant_throws_witness :
  insertNodeAtBegin editor divHello 2
    (mkInsertOption ContentPosition.Begin false false false) = Throw HierarchyRequestError.
Proof.
  apply (insert_inline_into_own_descendant_throws (lib := hostLib) true editor divHello 2
           (mkInsertOption ContentPosition.Begin false false false) (mkBlockElement 2 2)).
  - vm_compute. reflexivity.
  - reflexivity.
  - reflexivity.
  - intros H. vm_compute in H. discriminate.
  - vm_compute. eauto.
  - reflexivity.
Defined.

(** X13 on <div>hello</div> and the text node "X" at Begin: the store
    still holds its five nodes. *)
Lemma inline_insertion_creates_nothing_witness :
  exists d',
    insertNodeAtBegin editor divHello 4
      (mkInsertOption ContentPosition.Begin false false false) = Ok d'
    /\ length (nodes d') = 5.
Proof.
  destruct (insertNodeAtBegin editor divHello 4
              (mkInsertOption ContentPosition.Begin false false false)) as [d'|e] eqn:H.
  2: { vm_compute in H. discriminate. }
  exists d'. split; [reflexivity|].
  destruct (inline_insertion_creates_nothing (lib := hostLib) true editor divHello 4
              (mkInsertOption ContentPosition.Begin false false false) d') as [_ Hlen].
  - reflexivity.
  - exact H.
  - exact Hlen.
Defined.

(** X14 on <div>hello</div> with "ell" selected and the text node "X":
    "h" stays in the text node, "o" goes to the new text node 5, and the
    content becomes <div>hXo</div>. *)
Lemma replace_selected_text_by_node_witness :
  exists d',
    insertNodeAtSelection editor divHelloSelected 4
      (mkInsertOption ContentPosition.SelectionStart true true false) = Ok d'
    /\ childrenOf d' 2 = [3; 4; 5]
    /\ valueOf d' 3 = "h"
    /\ valueOf d' 5 = "o"
    /\ innerHTML d' 1 = "<div>hXo</div>".
Proof.
  destruct (replace_selected_text_by_node (lib := hostLib) editor divHelloSelected 4
              (mkInsertOption ContentPosition.SelectionStart true true false)
              0 (mkRange 3 1 3 4) 2 [] [])
    as (d' & Hrun & Hch & Hhead & Htail & _).
  - apply wfb_sound. vm_compute. reflexivity.
  - vm_compute. reflexivity.
  - reflexivity.
  - reflexivity.
  - reflexivity.
  - simpl. lia.
  - vm_compute. lia.
  - reflexivity.
  - reflexivity.
  - intros d1 b Hdel Hb. vm_compute in Hdel. injection Hdel as <-.
    vm_compute in Hb. injection Hb as <-. vm_compute. discriminate.
  - reflexivity.
  - reflexivity.
  - vm_compute. eauto.
  - reflexivity.
  - apply not_Ancestor_leaf; [apply wfb_sound; vm_compute; reflexivity|reflexivity|discriminate].
  - exists d'. split; [exact Hrun|]. split; [exact Hch|].
    split; [exact Hhead|]. split; [exact Htail|].
    assert (Ok d' = insertNodeAtSelection editor divHelloSelected 4
                      (mkInsertOption ContentPosition.SelectionStart true true false)) as E
      by (symmetry; exact Hrun).
    vm_compute in E. injection E as ->. vm_compute. reflexivity.
Defined.

(** X15 on hello<br>world: inserting the text node "world", which is in
    the tree, at Begin moves it to the front. *)
Lemma insertNode_moves_never_copies_witness :
  exists core' d',
    insertNode editor helloBrWorld 4
      (Some (mkInsertOption ContentPosition.Begin false false false)) = Ok (core', d', true)
    /\ childrenOf d' 1 = [4; 2; 3]
    /\ occurrences d' 4 = 1.
Proof.
  destruct (insertNode editor helloBrWorld 4
              (Some (mkInsertOption ContentPosition.Begin false false false)))
    as [[[core' d'] b]|e] eqn:H.
  2: { vm_compute in H. discriminate. }
  destruct (insertNode_moves_never_copies (lib := hostLib) editor helloBrWorld 4
              (mkInsertOption ContentPosition.Begin false false false) core' d' b)
    as [_ Hone].
  - apply wfb_sound. vm_compute. reflexivity.
  - reflexivity.
  - discriminate.
  - exact H.
  - exists core', d'. vm_compute in H. injection H as <- <- <-.
    split; [reflexivity|]. split; [reflexivity|]. exact Hone.
Defined.

(** The C7 theorem applied to <div>hello</div> and the document fragment
    holding "X" and "Y": the content becomes <div>hello</div>XY, and the
    DIV made by wrap (node 8) is empty and outside the tree. *)
Lemma fragment_after_last_block_is_not_wrapped_witness :
  exists d',
    insertNodeAtEnd editor divHelloFragments 4
      (mkInsertOption ContentPosition.End false false true) = Ok d'
    /\ childrenOf d' 1 = [2; 5; 6]
    /\ childrenOf d' 8 = []
    /\ parentOf d' 8 = None
    /\ innerHTML d' 1 = "<div>hello</div>XY".
Proof.
  destruct (fragment_after_last_block_is_not_wrapped (lib := hostLib) editor divHelloFragments 4
              (mkInsertOption ContentPosition.End false false true) (mkBlockElement 2 2) [] [])
    as (d' & Hrun & Hroot & _ & _ & Hempty & Hout).
  - apply wfb_sound. vm_compute. reflexivity.
  - reflexivity.
  - vm_compute. reflexivity.
  - reflexivity.
  - reflexivity.
  - reflexivity.
  - refute_Ancestor.
  - vm_compute. reflexivity.
  - exists d'. split; [exact Hrun|]. split; [exact Hroot|].
    split; [exact Hempty|]. split; [exact Hout|].
    assert (Ok d' = insertNodeAtEnd editor divHelloFragments 4
                      (mkInsertOption ContentPosition.End false false true)) as E
      by (symmetry; exact Hrun).
    vm_compute in E. injection E as ->. vm_compute. reflexivity.
Defined.

(** The C9 theorem applied to an empty root and the document fragment
    holding "X" and "Y", at Begin: the content becomes XY, and the DIV
    made by wrap (node 5) is empty and outside the tree. *)
Lemma fragment_into_root_without_block_is_not_wrapped_witness :
  exists d',
    insertNodeAtBegin editor emptyRootFragment 2
      (mkInsertOption ContentPosition.Begin false false true) = Ok d'
    /\ childrenOf d' 1 = [3; 4]
    /\ childrenOf d' 5 = []
    /\ parentOf d' 5 = None
    /\ innerHTML d' 1 = "XY".
Proof.
  destruct (fragment_into_root_without_block_is_not_wrapped (lib := hostLib) true editor
              emptyRootFragment 2 (mkInsertOption ContentPosition.Begin false false true))
    as (d' & Hrun & Hroot & _ & _ & Hempty & Hout).
  - apply wfb_sound. vm_compute. reflexivity.
  - reflexivity.
  - vm_compute. reflexivity.
  - reflexivity.
  - reflexivity.
  - refute_Ancestor.
  - vm_compute. reflexivity.
  - exists d'. split; [exact Hrun|]. split; [exact Hroot|].
    split; [exact Hempty|]. split; [exact Hout|].
    assert (Ok d' = insertNodeAtBegin editor emptyRootFragment 2
                      (mkInsertOption ContentPosition.Begin false false true)) as E
      by (symmetry; exact Hrun).
    vm_compute in E. injection E as ->. vm_compute. reflexivity.
Defined.

End GeneralScenarios.

(** ** The current-editor holder *)

Section CurrentEditorProps.
Import CurrentEditor.

(** C10: setCurrentEditor(newEditor) calls dispose() exactly once on the
    editor that was current, before the variable is written, calls it on no
    editor when none was current, and afterwards getCurrentEditor() returns
    newEditor. *)
Theorem setCurrentEditor_disposes_previous (newEditor : option IEditor) (s : State) :
  getCurrentEditor (setCurrentEditor newEditor s) = newEditor
  /\ effects (setCurrentEditor newEditor s)
     = effects s
       ++ match getCurrentEditor s with
          | Some previous => [Dispose previous; Assign newEditor]
          | None => [Assign newEditor]
          end.
Proof.
  unfold setCurrentEditor, getCurrentEditor, dispose.
  destruct s as [[previous|] fx]; simpl; split; try reflexivity.
  now rewrite <- app_assoc.
Qed.

End CurrentEditorProps.

(** ** Undo transactions *)

Section UndoSnapshotProps.
Import UndoSnapshot.

(** A callback running inside a transaction adds callback events only,
    keeps the depth, and edits the content as [finalContent] says. *)
Lemma runCallback_in_transaction (cb : Callback) :
  forall s n, depth s = S n ->
    exists inner,
      events (runCallback cb s).1 = events s ++ inner
      /\ forallb isCallbackEvent inner = true
      /\ depth (runCallback cb s).1 = S n
      /\ content (runCallback cb s).1 = finalContent cb (content s)
      /\ (runCallback cb s).2 = returnValue cb.
Proof.
  induction cb as [v | f k IHk | cb' IHcb' src k IHk | src k IHk]; intros s n Hd; simpl.
  - exists []. rewrite app_nil_r. auto.
  - destruct (IHk (edit f s) n Hd) as (inner & He & Hi & Hdep & Hc & Hr).
    exists inner. auto.
  - unfold addUndoSnapshotWith. rewrite Hd. simpl.
    destruct (IHcb' (emit CallbackStarted s) n Hd) as (i1 & He1 & Hi1 & Hd1 & Hc1 & Hr1).
    destruct (runCallback cb' (emit CallbackStarted s)) as [s1 v1] eqn:E1. simpl in *.
    destruct (IHk (emit (CallbackReturned v1) s1) n Hd1) as (i2 & He2 & Hi2 & Hd2 & Hc2 & Hr2).
    exists ((CallbackStarted :: i1) ++ CallbackReturned v1 :: i2).
    simpl in He2. rewrite He2, He1.
    repeat split; auto.
    + now rewrite <- !app_assoc.
    + simpl. rewrite forallb_app. simpl. now rewrite Hi1, Hi2.
    + rewrite Hc2. simpl. now rewrite Hc1.
  - unfold addUndoSnapshotWith. rewrite Hd. simpl.
    destruct (IHk s n Hd) as (inner & He & Hi & Hdep & Hc & Hr).
    exists inner. auto.
Qed.

(** C5: an outermost addUndoSnapshot with a callback and a change source,
    whatever the nesting inside the callback, takes the two snapshots of the
    transaction and emits exactly one content-changed notification; the
    notification carries the outer callback's return value, is the last
    event, after the callback has returned, and sees the final content;
    the calls nested in the callback take no snapshot and emit nothing. *)
Theorem addUndoSnapshot_one_notification
  (cb : Callback) (source : string) (s : State) :
  depth s = 0 ->
  let s' := addUndoSnapshot (Some cb) (Some source) s in
  exists inner,
    events s' = events s
                ++ [SnapshotTaken (content s); CallbackStarted]
                ++ inner
                ++ [CallbackReturned (returnValue cb); SnapshotTaken (content s');
                    ContentChanged source (Some (returnValue cb)) (content s')]
    /\ forallb isCallbackEvent inner = true
    /\ content s' = finalContent cb (content s)
    /\ depth s' = 0.
Proof.
  intros Hd s'. subst s'. unfold addUndoSnapshot, addUndoSnapshotWith. simpl. rewrite Hd.
  set (s1 := emit CallbackStarted (setDepth 1 (emit (SnapshotTaken (content s)) s))).
  destruct (runCallback_in_transaction cb s1 0 eq_refl) as (inner & He & Hi & Hdep & Hc & Hr).
  destruct (runCallback cb s1) as [s2 v] eqn:E. simpl in *. subst v.
  exists inner. rewrite He. simpl. rewrite <- !app_assoc. simpl.
  repeat split; auto.
Qed.

(** The theorem applied: an outer callback that edits, nests a call with a
    change source of its own, edits again and returns "outer". *)
Lemma addUndoSnapshot_one_notification_witness :
  let cb := Edit (fun c => c +:+ "a")
              (Nested (Edit (fun c => c +:+ "b") (Return "inner")) (Some "Format")
                 (Edit (fun c => c +:+ "c") (Return "outer"))) in
  let s' := addUndoSnapshot (Some cb) (Some "Format") (mkState "x" 0 []) in
  exists inner,
    events s' = [] ++ [SnapshotTaken "x"; CallbackStarted] ++ inner
                ++ [CallbackReturned "outer"; SnapshotTaken (content s');
                    ContentChanged "Format" (Some "outer") (content s')]
    /\ forallb isCallbackEvent inner = true
    /\ content s' = "xabc"
    /\ depth s' = 0.
Proof.
  exact (addUndoSnapshot_one_notification
           (Edit (fun c => c +:+ "a")
              (Nested (Edit (fun c => c +:+ "b") (Return "inner")) (Some "Format")
                 (Edit (fun c => c +:+ "c") (Return "outer"))))
           "Format" (mkState "x" 0 []) eq_refl).
Defined.

End UndoSnapshotProps.
